(** * dnsgate: the domain-set reconciliation engine

    A shallow embedding of [src/dnsgate/dnsgate.py]: the byte-string helpers
    ([split], [join]), the set stages ([strip_to_psl], [validate_domain_list],
    [prune_redundant_rules], [group_by_tld]) and the body of [dnsgate] from
    the point where the whitelist is read (line 439) to the end.

    Python [bytes] are Rocq [string]s (sequences of 8-bit characters), a
    Python [set] of bytes is a [gset string], and a [for x in s] loop over a
    set receives the sequence in which the hash table yields the elements as
    a list that enumerates the set.  Logging, [quit] and exceptions live in
    a small writer/exception monad. *)

From Stdlib Require Import Ascii String List NArith ZArith Lia.
From stdpp Require Import base decidable list sorting gmap strings.

Open Scope string_scope.
Open Scope list_scope.

(** ** Byte strings *)

Module Bytes.

(** [sep in s] for a one-byte separator. *)
Fixpoint contains (sep : ascii) (s : string) : bool :=
  match s with
  | EmptyString => false
  | String c s' => if Ascii.eqb c sep then true else contains sep s'
  end.

(** [s.split(sep)]: never the empty list, [b''.split(b'.') == [b'']]. *)
Fixpoint split (sep : ascii) (s : string) : list string :=
  match s with
  | EmptyString => [EmptyString]
  | String c s' =>
      if Ascii.eqb c sep then EmptyString :: split sep s'
      else match split sep s' with
           | [] => [String c EmptyString]
           | w :: ws => String c w :: ws
           end
  end.

(** [sep.join(parts)]. *)
Fixpoint join (sep : ascii) (parts : list string) : string :=
  match parts with
  | [] => EmptyString
  | [w] => w
  | w :: ws => w +:+ String sep (join sep ws)
  end.

(** The text after the first separator (the whole text is dropped when
    there is none). *)
Fixpoint after_first (sep : ascii) (s : string) : string :=
  match s with
  | EmptyString => EmptyString
  | String c s' => if Ascii.eqb c sep then s' else after_first sep s'
  end.

(** Python orders [bytes] lexicographically by unsigned byte value, a
    proper prefix being smaller; it orders [list]s the same way from the
    order of their items. *)
Fixpoint lex_cmp {A : Type} (cmp : A → A → comparison) (l1 l2 : list A)
  : comparison :=
  match l1, l2 with
  | [], [] => Eq
  | [], _ :: _ => Lt
  | _ :: _, [] => Gt
  | x :: l1', y :: l2' =>
      match cmp x y with
      | Eq => lex_cmp cmp l1' l2'
      | c => c
      end
  end.

Definition byte_cmp (a b : ascii) : comparison :=
  N.compare (N_of_ascii a) (N_of_ascii b).

Definition bytes_cmp (s t : string) : comparison :=
  lex_cmp byte_cmp (list_ascii_of_string s) (list_ascii_of_string t).

(** What sorting needs of a three-way comparison. *)
Class CmpOrder {A : Type} (cmp : A → A → comparison) : Prop := {
  cmp_eq : ∀ x y, cmp x y = Eq → x = y;
  cmp_refl : ∀ x, cmp x x = Eq;
  cmp_flip : ∀ x y, cmp y x = CompOpp (cmp x y);
  cmp_lt_trans : ∀ x y z, cmp x y = Lt → cmp y z = Lt → cmp x z = Lt
}.

End Bytes.
Import Bytes.

(** Sort keys of [group_by_tld]: label lists, compared as Python compares
    lists of [bytes]. *)
Definition key_cmp : list string → list string → comparison :=
  lex_cmp bytes_cmp.

Definition key_leb (k1 k2 : list string) : bool :=
  match key_cmp k1 k2 with Gt => false | _ => true end.

Definition key_le (k1 k2 : list string) : Prop := Is_true (key_leb k1 k2).

#[global] Instance key_le_dec : RelDecision key_le.
Proof. intros k1 k2. unfold key_le. apply _. Defined.

(** ** Effects: logging, exceptions, [quit], the output file *)

Inductive exn :=
  | KeyError (key : string)
  | UnicodeError (hostname : string)
  | TypeError
  | FetchError (url : string).

(** The [level=] argument of [eprint]. *)
Inductive level := DEBUG | INFO | WARNING.

(** One constructor per logging call of the embedded code, with the
    arguments of its format string. *)
Inductive message :=
  | Reading_whitelist
  | Whitelist_domains (n : nat)
  | Validated_whitelist (n : nat)
  | Reading_remote
  | Trying (item : string)
  | Combined_len (n : nat)
  | Failed_to_get (item : string)
  | Exception_on_url (item : string)
  | Must_start_with_http (item : string)
  | Remote_domains (n : nat)
  | Zero_remote_domains
  | Validated_remote (n : nat)
  | Validating (n : nat)
  | Removing_subdomains (n : nat)
  | Left_after_stripping (n : nat)
  | Subtracting (n : nat)
  | Left_after_subtracting (n : nat)
  | Iterating_whitelist (n : nat)
  | Iterating_original (n : nat)
  | Re_adding (domain : string)
  | After_re_adding (n : nat)
  | Psl_not_possible_in_hosts_mode
  | After_subtracting (n whitelisted : nat)
  | Got_custom_blacklist (domains : gset string)
  | Re_adding_local (n : nat)
  | After_custom_blacklist (n : nat)
  | Validating_final
  | Validated_final (n : nat)
  | Removing (domain parent_domain : string)
  | After_pruning (n : nat)
  | Sorting
  | Final_count (n : nat)
  | Empty_list
  | Listed_in_both (domain : string)
  | Writing_output.

Inductive effect :=
  | Logger_debug_debug (m : message)
  | Logger_quiet_info (m : message)
  | Logger_quiet_warning (m : message)
  | Logger_debug_error (m : message)
  | Logger_debug_exception (e : exn)
  | Backup
  | Mkdir
  | Write (data : string)
  | Close
  | Restart_dnsmasq.

Inductive result (A : Type) :=
  | Done (a : A)
  | Quit (status : Z)
  | Raised (e : exn).
Arguments Done {A} a.
Arguments Quit {A} status.
Arguments Raised {A} e.

(** A computation: the effects it performed, in order, and how it ended. *)
Definition M (A : Type) : Type := list effect * result A.

Definition ret {A} (a : A) : M A := ([], Done a).

Definition bind {A B} (m : M A) (k : A → M B) : M B :=
  match m with
  | (l, Done a) => let '(l', r) := k a in (l ++ l', r)
  | (l, Quit status) => (l, Quit status)
  | (l, Raised e) => (l, Raised e)
  end.

#[global] Instance M_ret : MRet M := @ret.
#[global] Instance M_bind : MBind M := λ A B k m, bind m k.

Definition emit (e : effect) : M unit := ([e], Done tt).
Definition quit {A} (status : Z) : M A := ([], Quit status).
Definition raise {A} (e : exn) : M A := ([], Raised e).

Definition of_sum {A} (r : exn + A) : M A :=
  match r with inl e => raise e | inr a => ret a end.

(** [try: body / except Exception as e: handler e].  [quit] raises
    [SystemExit], which is not an [Exception] and passes through. *)
Definition try_except {A} (body : M A) (handler : exn → M A) : M A :=
  match body with
  | (l, Raised e) => let '(l', r) := handler e in (l ++ l', r)
  | other => other
  end.

(** [for x in xs: s = body x s]. *)
Fixpoint for_each {X S : Type} (xs : list X) (s : S) (body : X → S → M S)
  : M S :=
  match xs with
  | [] => ret s
  | x :: xs' => s' ← body x s; for_each xs' s' body
  end.

Definition effects {A} (m : M A) : list effect := m.1.
Definition outcome {A} (m : M A) : result A := m.2.

(** [s.remove(x)] on a set raises [KeyError] when [x] is absent. *)
Definition set_remove (x : string) (s : gset string) : M (gset string) :=
  if bool_decide (x ∈ s) then ret (s ∖ {[x]}) else raise (KeyError x).

(** [l] is a sequence in which a [for] loop may visit the set [s]. *)
Definition enumerates (l : list string) (s : gset string) : Prop :=
  l ≡ₚ elements s.

(** ** The engine *)

(** What [tldextract.TLDExtract.__call__] returns. *)
Record ExtractResult := {
  er_subdomain : string;
  er_domain : string;
  er_suffix : string
}.

Inductive output_mode := dnsmasq | hosts.

#[global] Instance output_mode_eq_dec : EqDecision output_mode.
Proof. solve_decision. Defined.

(** The options of the command line that the embedded part of [dnsgate]
    reads. *)
Record config := {
  mode : output_mode;
  block_at_psl : bool;
  backup : bool;
  restart_dnsmasq : bool;
  dest_ip : option string
}.

(** What the collaborators outside the engine deliver: the parsed whitelist
    and blacklist files ([extract_domain_set_from_dnsgate_format_file]),
    and for each [--source] item what
    [extract_domain_set_from_hosts_format_url_or_cached_copy] did. *)
Record inputs := {
  whitelist_file : gset string;
  source : list (string * (exn + gset string));
  blacklist_file : gset string
}.

(** The [for] loops of the engine that run over a set. *)
Inductive loop :=
  | validate_whitelist_loop
  | validate_remote_loop
  | strip_loop
  | whitelist_psl_loop
  | readd_loop
  | validate_final_loop
  | prune_loop
  | group_loop
  | warning_loop.

Definition newline : string := String (ascii_of_nat 10) EmptyString.

(** The collaborators of the engine and its ambient state. *)
Class Collaborators := {
  (** The global [click_debug], set from [--debug] before the engine runs. *)
  click_debug : bool;
  (** The public-suffix splitter [TLD_EXTRACT] (the tldextract library). *)
  TLD_EXTRACT : string → ExtractResult;
  (** The codec chain of [validate_domain_list]:
      [hostname.decode('utf-8').encode('idna').decode('ascii').encode('utf-8')],
      which either raises or yields the ASCII-compatible form. *)
  idna : string → exn + string;
  (** The order in which each loop is handed the elements of a set. *)
  iter : loop → gset string → list string;
  (** The bytes of [make_output_file_header(config_dict)]. *)
  output_file_header : string
}.

Section Engine.

Context {env : Collaborators}.

(** Lines 65-72. *)
Definition eprint (m : message) (lvl : level) : M unit :=
  if click_debug then emit (Logger_debug_debug m)
  else match lvl with
       | INFO => emit (Logger_quiet_info m)
       | WARNING => emit (Logger_quiet_warning m)
       | DEBUG => ret tt
       end.

(** Lines 115-118, on a token that decodes as UTF-8. *)
Definition extract_psl_domain (domain : string) : string :=
  let dom := TLD_EXTRACT domain in
  er_domain dom +:+ "." +:+ er_suffix dom.

(** Lines 121-133.  [domains] is the set in iteration order. *)
Definition strip_to_psl (domains : list string) : M (gset string) :=
  eprint (Removing_subdomains (length domains)) INFO;;
  for_each domains ∅ (λ line domains_stripped,
    let line := extract_psl_domain line in
    ret ({[line]} ∪ domains_stripped)).

(** Lines 157-167.  [domains] is the set in iteration order. *)
Definition validate_domain_list (domains : list string) : M (gset string) :=
  eprint (Validating (length domains)) DEBUG;;
  for_each domains ∅ (λ hostname valid_domains,
    try_except
      (hostname ← of_sum (idna hostname);
       ret ({[hostname]} ∪ valid_domains))
      (λ e, emit (Logger_debug_exception e);; ret valid_domains)).

(** Lines 307-318.  [domains_combined_orig] is the deep copy in iteration
    order, [domains_combined] the live set. *)
Definition prune_redundant_rules
    (domains_combined_orig : list string) (domains_combined : gset string)
  : M (gset string) :=
  for_each domains_combined_orig domains_combined
    (λ domain domains_combined,
      if contains "." domain then
        let domain_parts := split "." domain in
        let domain_parts := tail domain_parts in
        let parent_domain := join "." domain_parts in
        if bool_decide (parent_domain ∈ domains_combined) then
          eprint (Removing domain parent_domain) DEBUG;;
          set_remove domain domains_combined
        else ret domains_combined
      else ret domains_combined).

(** Lines 100-113.  [list.sort] on lists that are compared by value is
    any sort for Python's order on them. *)
Definition group_by_tld (domains : list string) : M (list string) :=
  eprint Sorting INFO;;
  let reversed_domains := map (λ domain, rev (split "." domain)) domains in
  let reversed_domains := merge_sort key_le reversed_domains in
  ret (map (λ rev_domain, join "." (rev rev_domain)) reversed_domains).

(** Lines 497-500. *)
Definition unblock_whitelisted_psl
    (domains_whitelist : list string) (domains_combined : gset string)
  : M (gset string) :=
  for_each domains_whitelist domains_combined (λ domain domains_combined,
    let domain_psl := extract_psl_domain domain in
    if bool_decide (domain_psl ∈ domains_combined)
    then set_remove domain_psl domains_combined
    else ret domains_combined).

(** Lines 505-513.  [domains_combined_orig] is the original blacklist in
    iteration order. *)
Definition readd_subdomains
    (domains_combined_orig : list string)
    (domains_whitelist domains_combined : gset string)
  : M (gset string) :=
  for_each domains_combined_orig domains_combined
    (λ orig_domain domains_combined,
      if bool_decide (orig_domain ∉ domains_whitelist) then
        if bool_decide (orig_domain ∉ domains_combined) then
          let orig_domain_psl := extract_psl_domain orig_domain in
          if bool_decide (orig_domain_psl ∉ domains_combined) then
            eprint (Re_adding orig_domain) DEBUG;;
            ret ({[orig_domain]} ∪ domains_combined)
          else ret domains_combined
        else ret domains_combined
      else ret domains_combined).

(** Lines 439-478 of [dnsgate]: the whitelist and the remote blacklists
    are read and validated.  Returns [domains_whitelist] and
    [domains_combined_orig]. *)
Definition collect (inp : inputs) : M (gset string * gset string) :=
  let domains_whitelist : gset string := ∅ in
  eprint Reading_whitelist INFO;;
  let domains_whitelist := domains_whitelist ∪ whitelist_file inp in
  domains_whitelist ←
    (if bool_decide (domains_whitelist ≠ ∅) then
       eprint (Whitelist_domains (size domains_whitelist)) DEBUG;;
       domains_whitelist ←
         validate_domain_list (iter validate_whitelist_loop domains_whitelist);
       eprint (Validated_whitelist (size domains_whitelist)) INFO;;
       ret domains_whitelist
     else ret domains_whitelist);
  eprint Reading_remote INFO;;
  domains_combined_orig ←
    for_each (source inp) (∅ : gset string)
      (λ '(item, fetched) domains_combined_orig,
        if String.prefix "http" item then
          try_except
            (eprint (Trying item) DEBUG;;
             domains ← of_sum fetched;
             if bool_decide (domains ≠ ∅) then
               let domains_combined_orig := domains_combined_orig ∪ domains in
               eprint (Combined_len (size domains_combined_orig)) DEBUG;;
               ret domains_combined_orig
             else
               emit (Logger_debug_error (Failed_to_get item));;
               ret domains_combined_orig)
            (λ e,
              emit (Logger_debug_error (Exception_on_url item));;
              emit (Logger_debug_exception e);;
              ret domains_combined_orig)
        else
          emit (Logger_debug_error (Must_start_with_http item));;
          ret domains_combined_orig);
  eprint (Remote_domains (size domains_combined_orig)) INFO;;
  (if bool_decide (size domains_combined_orig = 0)
   then emit (Logger_debug_error Zero_remote_domains) else ret tt);;
  domains_combined_orig ←
    validate_domain_list (iter validate_remote_loop domains_combined_orig);
  eprint (Validated_remote (size domains_combined_orig)) INFO;;
  ret (domains_whitelist, domains_combined_orig).

(** Lines 480-548 of [dnsgate], after [collect]: the transformations up
    to the sorted list.  Returns [domains_whitelist] and the final
    [domains_combined]. *)
Definition reconcile (cfg : config) (inp : inputs)
  : M (gset string * list string) :=
  '(domains_whitelist, domains_combined_orig) ← collect inp;
  let domains_combined := domains_combined_orig in
  domains_combined ←
    (if block_at_psl cfg && bool_decide (mode cfg ≠ hosts) then
       domains_combined ← strip_to_psl (iter strip_loop domains_combined);
       eprint (Left_after_stripping (size domains_combined)) INFO;;
       eprint (Subtracting (size domains_whitelist)) INFO;;
       let domains_combined := domains_combined ∖ domains_whitelist in
       eprint (Left_after_subtracting (size domains_combined)) INFO;;
       eprint (Iterating_whitelist (size domains_whitelist)) INFO;;
       domains_combined ←
         unblock_whitelisted_psl
           (iter whitelist_psl_loop domains_whitelist) domains_combined;
       eprint (Iterating_original (size domains_combined_orig)) INFO;;
       domains_combined ←
         readd_subdomains (iter readd_loop domains_combined_orig)
           domains_whitelist domains_combined;
       eprint (After_re_adding (size domains_combined)) INFO;;
       ret domains_combined
     else if block_at_psl cfg && bool_decide (mode cfg = hosts) then
       emit (Logger_debug_error Psl_not_possible_in_hosts_mode);;
       quit 1
     else ret domains_combined);
  let domains_combined := domains_combined ∖ domains_whitelist in
  eprint (After_subtracting (size domains_combined) (size domains_whitelist))
    INFO;;
  let domains := blacklist_file inp in
  domains_combined ←
    (if bool_decide (domains ≠ ∅) then
       eprint (Got_custom_blacklist domains) DEBUG;;
       eprint (Re_adding_local (size domains)) INFO;;
       ret (domains_combined ∪ domains)
     else ret domains_combined);
  eprint (After_custom_blacklist (size domains_combined)) INFO;;
  eprint Validating_final DEBUG;;
  domains_combined ←
    validate_domain_list (iter validate_final_loop domains_combined);
  eprint (Validated_final (size domains_combined)) DEBUG;;
  domains_combined ←
    prune_redundant_rules (iter prune_loop domains_combined) domains_combined;
  eprint (After_pruning (size domains_combined)) INFO;;
  domains_combined ← group_by_tld (iter group_loop domains_combined);
  eprint (Final_count (length domains_combined)) INFO;;
  ret (domains_whitelist, domains_combined).

(** Lines 576-587: the line written for one domain.  [dest_ip] is a [str]
    (the option has no [type=]) and the other operands are [bytes], so
    both concatenations with it raise [TypeError]. *)
Definition output_line (cfg : config) (domain : string) : M string :=
  match mode cfg with
  | dnsmasq =>
      match dest_ip cfg with
      | Some _ => raise TypeError
      | None => ret ("server=/." +:+ domain +:+ "/" +:+ newline)
      end
  | hosts =>
      match dest_ip cfg with
      | Some _ => raise TypeError
      | None => ret ("127.0.0.1" +:+ " " +:+ domain +:+ newline)
      end
  end.

(** Lines 439-593 of [dnsgate].  The whitelist holds validated entries,
    on which [domain.decode('UTF8')] of the warning cannot fail. *)
Definition dnsgate (cfg : config) (inp : inputs) : M unit :=
  '(domains_whitelist, domains_combined) ← reconcile cfg inp;
  (if backup cfg then emit Backup else ret tt);;
  emit Mkdir;;
  (if bool_decide (domains_combined = [])
   then emit (Logger_debug_error Empty_list);; quit 1
   else ret tt);;
  for_each (iter warning_loop domains_whitelist) tt (λ domain _,
    let domain_tld := extract_psl_domain domain in
    if bool_decide (domain_tld ∈ domains_combined)
    then eprint (Listed_in_both domain) WARNING
    else ret tt);;
  eprint Writing_output INFO;;
  emit (Write output_file_header);;
  for_each domains_combined tt (λ domain _,
    line ← output_line cfg domain;
    emit (Write line));;
  emit Close;;
  (if restart_dnsmasq cfg then
     if bool_decide (mode cfg ≠ hosts) then emit Restart_dnsmasq else ret tt
   else ret tt).

End Engine.

(** ** Ancestors of a domain *)

(** The parent of a domain: its labels without the first one. *)
Definition parent_domain (domain : string) : string :=
  join "." (tail (split "." domain)).

Fixpoint ancestors_of_labels (labels : list string) : list string :=
  match labels with
  | [] => []
  | _ :: rest =>
      match rest with
      | [] => []
      | _ :: _ => join "." rest :: ancestors_of_labels rest
      end
  end.

(** Every domain obtained from [domain] by dropping leading labels, the
    nearest first. *)
Definition ancestors (domain : string) : list string :=
  ancestors_of_labels (split "." domain).

(** The top-level label of a domain. *)
Definition tld (domain : string) : string :=
  hd EmptyString (rev (split "." domain)).

(** ** Stand-ins for the collaborators, for running the engine *)

Module Double.

(** A splitter that takes the last label for the public suffix. *)
Definition tld_last_label (domain : string) : ExtractResult :=
  match rev (split "." domain) with
  | [] => {| er_subdomain := ""; er_domain := ""; er_suffix := "" |}
  | [s] => {| er_subdomain := ""; er_domain := ""; er_suffix := s |}
  | s :: d :: sub =>
      {| er_subdomain := join "." (rev sub); er_domain := d; er_suffix := s |}
  end.

Definition is_ascii (s : string) : bool :=
  forallb (λ c, N.ltb (N_of_ascii c) 128) (list_ascii_of_string s).

Definition label_ok (label : string) : bool :=
  Nat.ltb 0 (String.length label) && Nat.ltb (String.length label) 64.

(** The codec chain on ASCII input, where CPython's [idna] codec checks
    the length of the labels and returns the input; other input is
    refused here. *)
Definition idna_ascii (hostname : string) : exn + string :=
  if bool_decide (hostname = "") then inr hostname
  else if is_ascii hostname then
    let labels := split "." hostname in
    if forallb label_ok (removelast labels)
       && Nat.ltb (String.length (List.last labels "")) 64
    then inr hostname
    else inl (UnicodeError hostname)
  else inl (UnicodeError hostname).

Definition iter_elements (_ : loop) (s : gset string) : list string := elements s.

Definition iter_rev (_ : loop) (s : gset string) : list string :=
  rev (elements s).

Definition header : string := "# generated" +:+ newline.

Definition cfg (m : output_mode) (psl : bool) : config :=
  {| mode := m; block_at_psl := psl; backup := false;
     restart_dnsmasq := true; dest_ip := None |}.

Definition env : Collaborators :=
  {| click_debug := false; TLD_EXTRACT := tld_last_label;
     idna := idna_ascii; iter := iter_elements;
     output_file_header := header |}.

Definition env_rev : Collaborators :=
  {| click_debug := false; TLD_EXTRACT := tld_last_label;
     idna := idna_ascii; iter := iter_rev;
     output_file_header := header |}.

End Double.

(** A second stand-in for the codec, with the compatibility mapping of
    the real one: what [validate_domain_list] returns need not be
    acceptable to the codec again. *)
Module Nameprep.

(** The UTF-8 bytes of U+2026, the horizontal ellipsis. *)
Definition ellipsis : string :=
  String (ascii_of_nat 226)
    (String (ascii_of_nat 128) (String (ascii_of_nat 166) EmptyString)).

(** Compatibility normalisation (NFKC) on the one character outside ASCII
    that is admitted here: U+2026 becomes three full stops. *)
Fixpoint normalize (s : string) : string :=
  match s with
  | EmptyString => EmptyString
  | String c s' =>
      match s' with
      | String c2 (String c3 s'') =>
          if N.eqb (N_of_ascii c) 226 && N.eqb (N_of_ascii c2) 128
             && N.eqb (N_of_ascii c3) 166
          then "..." +:+ normalize s''
          else String c (normalize s')
      | _ => String c (normalize s')
      end
  end.

(** Case folding on the ASCII letters. *)
Fixpoint casefold (s : string) : string :=
  match s with
  | EmptyString => EmptyString
  | String c s' =>
      let n := N_of_ascii c in
      String (if N.leb 65 n && N.leb n 90 then ascii_of_N (n + 32) else c)
        (casefold s')
  end.

(** [ToASCII] of [encodings.idna] on one label.  A label that is ASCII is
    returned when its length allows; another label is prepared first
    (case folding, normalisation).  Punycode is not modelled: a label that
    is outside ASCII after preparation is refused here. *)
Definition to_ascii (label : string) : option string :=
  if Double.is_ascii label then
    if Double.label_ok label then Some label else None
  else
    let label := normalize (casefold label) in
    if Double.is_ascii label && Double.label_ok label then Some label
    else None.

Fixpoint to_ascii_all (labels : list string) : option (list string) :=
  match labels with
  | [] => Some []
  | label :: labels' =>
      match to_ascii label, to_ascii_all labels' with
      | Some encoded, Some rest => Some (encoded :: rest)
      | _, _ => None
      end
  end.

(** The codec chain with the compatibility mapping: ASCII input takes the
    codec's fast path, other input is split at the full stops and
    encoded label by label, a trailing full stop being kept. *)
Definition idna_nameprep (hostname : string) : exn + string :=
  if Double.is_ascii hostname then Double.idna_ascii hostname
  else
    let labels := split "." hostname in
    let trailing_dot := String.eqb (List.last labels "") "" in
    let labels := if trailing_dot then removelast labels else labels in
    match to_ascii_all labels with
    | Some encoded =>
        inr (join "." encoded +:+ (if trailing_dot then "." else ""))
    | None => inl (UnicodeError hostname)
    end.

Definition env : Collaborators :=
  {| click_debug := false; TLD_EXTRACT := Double.tld_last_label;
     idna := idna_nameprep; iter := Double.iter_elements;
     output_file_header := Double.header |}.

End Nameprep.

(** ** Vocabulary of the claims *)

(** Every loop is handed an enumeration of the set it runs over. *)
Definition fair_iteration {env : Collaborators} : Prop :=
  ∀ lp s, enumerates (iter lp s) s.

(** The codec maps each of its own outputs to itself, or refuses it
    (the outputs are ASCII names, which the [idna] codec returns as they
    are when the lengths of their labels allow). *)
Definition idna_output_fixed {env : Collaborators} : Prop :=
  ∀ h h' x, idna h = inr h' → idna h' = inr x → x = h'.

(** [returns m Q]: the computation completes normally with a value that
    satisfies [Q]. *)
Definition returns {A} (m : M A) (Q : A → Prop) : Prop :=
  ∃ a, outcome m = Done a ∧ Q a.

(** The order of the final sequence: by the reversed lists of labels. *)
Definition by_reversed_labels (a b : string) : Prop :=
  key_le (rev (split "." a)) (rev (split "." b)).

(** The test of the re-admission pass on an original domain, against a
    given state of the working blacklist. *)
Definition readmitted {env : Collaborators}
    (domains_whitelist domains_combined : gset string) (d : string) : Prop :=
  (d ∉ domains_whitelist) ∧ (d ∉ domains_combined) ∧
  (extract_psl_domain d ∉ domains_combined).

(** The domains that the loop over [--source] takes from one item. *)
Definition fetched_domains (item : string * (exn + gset string))
  : gset string :=
  match item with
  | (url, inr domains) => if String.prefix "http" url then domains else ∅
  | (_, inl _) => ∅
  end.

(** The union of what the remote sources deliver. *)
Definition remote_domains (inp : inputs) : gset string :=
  ⋃ (fetched_domains <$> source inp).

(** The configuration that the engine refuses. *)
Definition conflict (cfg : config) : bool :=
  block_at_psl cfg && bool_decide (mode cfg = hosts).

(** A call of a logger: no file is touched. *)
Definition is_logging (e : effect) : bool :=
  match e with
  | Logger_debug_debug _ | Logger_quiet_info _ | Logger_quiet_warning _
  | Logger_debug_error _ | Logger_debug_exception _ => true
  | _ => false
  end.

(** The messages logged from the first transformation of the blacklist on:
    by root stripping, whitelist reconciliation, the local blacklist, the
    final validation, pruning and ordering, and by the output phase. *)
Definition transformation_message (m : message) : bool :=
  match m with
  | Removing_subdomains _ | Left_after_stripping _ | Subtracting _
  | Left_after_subtracting _ | Iterating_whitelist _ | Iterating_original _
  | Re_adding _ | After_re_adding _ | After_subtracting _ _
  | Got_custom_blacklist _ | Re_adding_local _ | After_custom_blacklist _
  | Validating_final | Validated_final _ | Removing _ _ | After_pruning _
  | Sorting | Final_count _ | Listed_in_both _ | Writing_output => true
  | _ => false
  end.

(** An effect that can occur before the first transformation: a logging
    call with a message of the collecting phase. *)
Definition collecting_effect (e : effect) : bool :=
  match e with
  | Logger_debug_debug m | Logger_quiet_info m | Logger_quiet_warning m
  | Logger_debug_error m => negb (transformation_message m)
  | Logger_debug_exception _ => true
  | _ => false
  end.

(** The final ordered sequence of a run of the transformations, if it
    reaches one. *)
Definition ordered_domains (run : M (gset string * list string))
  : option (list string) :=
  match outcome run with
  | Done (_, domains_combined) => Some domains_combined
  | _ => None
  end.

(** The messages of the calls [eprint(..., level=WARNING)] of a run
    ([click_debug] being off). *)
Definition warnings (l : list effect) : list message :=
  omap (λ e, match e with Logger_quiet_warning m => Some m | _ => None end) l.

Definition not_warning (e : effect) : bool :=
  match e with Logger_quiet_warning _ => false | _ => true end.

(** The data passed to [output_file.write], in order. *)
Definition written (l : list effect) : list string :=
  omap (λ e, match e with Write data => Some data | _ => None end) l.

(** The run ends with the error of the empty list: the message is the last
    effect, the exit status is 1 and nothing was written. *)
Definition fatal_empty_result (run : M unit) : Prop :=
  outcome run = Quit 1 ∧
  last (effects run) = Some (Logger_debug_error Empty_list) ∧
  written (effects run) = [].

(** ** The readers of the list files *)

(** ASCII whitespace, as [bytes.split()] and [bytes.strip()] see it: the
    bytes 9 to 13 and 32. *)
Definition is_space (c : ascii) : bool :=
  let n := N_of_ascii c in (N.leb 9 n && N.leb n 13) || N.eqb n 32.

Definition tab : ascii := ascii_of_nat 9.
Definition LF : ascii := ascii_of_nat 10.
Definition CR : ascii := ascii_of_nat 13.

Fixpoint lstrip (s : string) : string :=
  match s with
  | EmptyString => EmptyString
  | String c s' => if is_space c then lstrip s' else s
  end.

Fixpoint rstrip (s : string) : string :=
  match s with
  | EmptyString => EmptyString
  | String c s' =>
      match rstrip s' with
      | EmptyString => if is_space c then EmptyString else String c EmptyString
      | kept => String c kept
      end
  end.

(** [s.strip()]. *)
Definition strip (s : string) : string := rstrip (lstrip s).

(** [s.split()]: the maximal runs of bytes that are not whitespace. *)
Fixpoint words (s : string) : list string :=
  match s with
  | EmptyString => []
  | String c s' =>
      if is_space c then words s'
      else match s' with
           | EmptyString => [String c EmptyString]
           | String c' _ =>
               if is_space c' then String c EmptyString :: words s'
               else match words s' with
                    | [] => [String c EmptyString]
                    | w :: ws => String c w :: ws
                    end
           end
  end.

(** [s.replace(old, new)] for single bytes. *)
Fixpoint replace (old new : ascii) (s : string) : string :=
  match s with
  | EmptyString => EmptyString
  | String c s' =>
      String (if Ascii.eqb c old then new else c) (replace old new s')
  end.

(** [s.splitlines()] on [bytes]: the line ends at [\n], [\r] or [\r\n],
    and a line break at the end of the text opens no further line. *)
Fixpoint splitlines (s : string) : list string :=
  match s with
  | EmptyString => []
  | String c s' =>
      if Ascii.eqb c LF then EmptyString :: splitlines s'
      else if Ascii.eqb c CR then
        match s' with
        | EmptyString => [EmptyString]
        | String c' s'' =>
            if Ascii.eqb c' LF then EmptyString :: splitlines s''
            else EmptyString :: splitlines s'
        end
      else match splitlines s' with
           | [] => [String c EmptyString]
           | l :: ls => String c l :: ls
           end
  end.

(** [filter(None, labels)]: the labels that are not empty. *)
Definition filter_None (labels : list string) : list string :=
  List.filter (λ label, negb (String.eqb label EmptyString)) labels.

(** Lines 88-97. *)
Fixpoint remove_comments_from_bytes (line : string) : string :=
  match line with
  | EmptyString => EmptyString
  | String char line' =>
      if negb (Ascii.eqb char "#")
      then String char (remove_comments_from_bytes line')
      else EmptyString
  end.

(** What indexing a list can raise. *)
Inductive index_error := IndexError.

(** [for line in lines: domains = body line domains], where the body can
    raise. *)
Fixpoint for_each_line {E S : Type} (lines : list string) (s : S)
    (body : string → S → E + S) : E + S :=
  match lines with
  | [] => inr s
  | line :: lines' =>
      match body line s with
      | inl e => inl e
      | inr s' => for_each_line lines' s' body
      end
  end.

(** Lines 281-297. *)
Definition extract_domain_set_from_hosts_format_bytes
    (hosts_format_bytes : string) : index_error + gset string :=
  let domains : gset string := ∅ in
  let hosts_format_bytes_lines := split LF hosts_format_bytes in
  for_each_line hosts_format_bytes_lines domains (λ line domains,
    let line := replace tab " " line in
    let line := join " " (words line) in
    let line := strip line in
    let line := remove_comments_from_bytes line in
    if contains " " line then
      match split " " line !! 1%nat with
      | None => inl IndexError
      | Some line =>
          let line := join "." (filter_None (split "." line)) in
          inr (domains ∪ {[line]})
      end
    else inr domains).

(** Lines 192-208.  [read_file_bytes] is what reading the file gave: its
    bytes, or the exception raised. *)
Definition extract_domain_set_from_dnsgate_format_file
    (read_file_bytes : exn + string) : M (gset string) :=
  let domains : gset string := ∅ in
  match read_file_bytes with
  | inl e => emit (Logger_debug_exception e);; ret domains
  | inr dnsgate_file_bytes =>
      let lines := splitlines dnsgate_file_bytes in
      for_each lines domains (λ line domains,
        let line := strip line in
        let line := remove_comments_from_bytes line in
        let line := join "." (filter_None (split "." line)) in
        if Nat.ltb 0 (String.length line)
        then ret (domains ∪ {[line]})
        else ret domains)
  end.

(** ** Vocabulary of the further properties *)

(** The line that lines 580 and 586 build for one domain when no
    [--dest-ip] is given. *)
Definition domain_line (m : output_mode) (domain : string) : string :=
  match m with
  | dnsmasq => "server=/." +:+ domain +:+ "/" +:+ newline
  | hosts => "127.0.0.1" +:+ " " +:+ domain +:+ newline
  end.

(** The effects of a run that are not calls of a logger, in order. *)
Definition actions (l : list effect) : list effect :=
  List.filter (λ e, negb (is_logging e)) l.

(** What the loop of the hosts-format reader makes of one line before it
    looks for the name. *)
Definition hosts_line (line : string) : string :=
  remove_comments_from_bytes
    (strip (join " " (words (replace tab " " line)))).

(** The name that the hosts-format reader takes from a line. *)
Definition hosts_name (line : string) : string :=
  join "." (filter_None (split "." (nth 1 (split " " (hosts_line line)) ""))).

(** The entry that the dnsgate-format reader takes from a line. *)
Definition dnsgate_entry (line : string) : string :=
  join "." (filter_None (split "." (remove_comments_from_bytes (strip line)))).

(** A run of bytes without whitespace. *)
Definition word (w : string) : bool :=
  negb (String.eqb w "") &&
  forallb (λ c, negb (is_space c)) (list_ascii_of_string w).

(** A name as the readers are meant to deliver it: no whitespace, no
    ['#'], no empty label. *)
Definition clean_name (d : string) : bool :=
  forallb (λ c, negb (is_space c) && negb (Ascii.eqb c "#"))
    (list_ascii_of_string d) &&
  forallb (λ label, negb (String.eqb label "")) (split "." d).

(** A line of text: no line break inside. *)
Definition one_line (l : string) : bool :=
  negb (contains LF l) && negb (contains CR l).

(** The text of a file with the given lines, each ended by [\n]. *)
Definition text_of_lines (lines : list string) : string :=
  foldr (λ l rest, l +:+ String LF rest) "" lines.

(** What the successive [write] calls leave in the file. *)
Definition file_contents (data : list string) : string :=
  foldr append "" data.

(** A line that is empty or starts with ['#']. *)
Definition comment_line (l : string) : bool :=
  match l with
  | EmptyString => true
  | String c _ => Ascii.eqb c "#"
  end.

(** Sample data for the stand-ins of [Double]. *)
Module Sample.

Definition inp : inputs :=
  {| whitelist_file := {["safe.example.com"]};
     source := [("http://list",
                 inr {["safe.example.com"; "ads.example.com";
                       "a.b.tracker.net"; "x.tracker.net"; "lone.org"]});
                ("http://down", inl (FetchError "http://down"))];
     blacklist_file := {["tracker.other.net"; "example.com"]} |}.

Definition whitelist : gset string := {["safe.example.com"]}.

(** The final sequence of a run on [inp] with root stripping. *)
Definition out : list string :=
  ["example.com"; "tracker.other.net"; "tracker.net"; "lone.org"].

Definition cfg_dest_ip : config :=
  {| mode := hosts; block_at_psl := false; backup := true;
     restart_dnsmasq := true; dest_ip := Some "0.0.0.0" |}.

(** The final sequence of a run on [inp] without root stripping. *)
Definition out_unstripped : list string :=
  ["example.com"; "tracker.other.net"; "a.b.tracker.net"; "x.tracker.net";
   "lone.org"].

(** A hosts-format list: a comment, an entry with a tab and a trailing
    comment, and an address with nothing but a comment. *)
Definition hosts_text : string :=
  "# blocklist" +:+ String LF
    ("0.0.0.0" +:+ String tab
       ("ads.example.com # tracker" +:+ String LF "0.0.0.0 #nothing")).

(** The lines of a dnsgate-format file. *)
Definition list_lines : list string :=
  ["# whitelist"; "example.com"; ""; "safe.example.org"].

End Sample.

(** [x] is blocked by the sequence [out] under dnsmasq's reading of a rule:
    it is a member, or one of its ancestors is. *)
Definition covered (out : list string) (x : string) : Prop :=
  x ∈ out ∨ ∃ a, a ∈ ancestors x ∧ a ∈ out.

(** [d] is in the subtree of [p]: it is [p] or has [p] among its
    ancestors. *)
Definition in_subtree (p d : string) : Prop := d = p ∨ p ∈ ancestors d.

(** The codec maps the root of each of its own outputs to itself, or
    refuses it (the root of an ASCII name is an ASCII name). *)
Definition idna_root_fixed {env : Collaborators} : Prop :=
  ∀ h d x, idna h = inr d → idna (extract_psl_domain d) = inr x →
    x = extract_psl_domain d.

(** * Facts *)

(** ** Byte strings *)

Section BytesFacts.

Lemma contains_split sep s :
  contains sep s = true ↔ ∃ w ws, split sep s = w :: ws ∧ ws ≠ [].
Proof.
  induction s as [|c s IH]; simpl.
  - split; [discriminate|]. intros (w & ws & [= <- <-] & Hne). congruence.
  - destruct (Ascii.eqb c sep).
    + split; [intros _|done].
      destruct s; simpl; eauto.
      destruct (Ascii.eqb a sep); [eauto|].
      destruct (split sep s); eauto.
    + rewrite IH. destruct (split sep s) as [|w ws].
      * split; intros (w' & ws' & Heq & Hne); [discriminate|].
        injection Heq as <- <-. congruence.
      * split; intros (w' & ws' & [= <- <-] & Hne); eauto.
Qed.

Lemma split_nonempty sep s : split sep s ≠ [].
Proof.
  destruct s as [|c s]; simpl; [done|].
  destruct (Ascii.eqb c sep); [done|]. by destruct (split sep s).
Qed.

Lemma join_split sep s : join sep (split sep s) = s.
Proof.
  induction s as [|c s IH]; simpl; [done|].
  destruct (Ascii.eqb c sep) eqn:Hc.
  - apply Ascii.eqb_eq in Hc as ->.
    pose proof (split_nonempty sep s) as Hne.
    destruct (split sep s) as [|w ws] eqn:Hs; [done|].
    change (join sep ("" :: w :: ws)) with (String sep (join sep (w :: ws))).
    by rewrite IH.
  - pose proof (split_nonempty sep s) as Hne.
    destruct (split sep s) as [|w ws] eqn:Hs; [done|].
    destruct ws as [|w' ws]; simpl in *; by rewrite <- IH.
Qed.

Lemma split_inj sep s t : split sep s = split sep t → s = t.
Proof.
  intros H. rewrite <- (join_split sep s), <- (join_split sep t). by rewrite H.
Qed.

Lemma join_tail_split sep s :
  join sep (tail (split sep s)) = after_first sep s.
Proof.
  induction s as [|c s IH]; simpl; [done|].
  destruct (Ascii.eqb c sep); simpl.
  - apply join_split.
  - pose proof (split_nonempty sep s).
    by destruct (split sep s) as [|w ws] eqn:Hs.
Qed.

Lemma after_first_shorter sep s :
  contains sep s = true →
  String.length (after_first sep s) < String.length s.
Proof.
  induction s as [|c s IH]; simpl; [discriminate|].
  destruct (Ascii.eqb c sep); [lia|]. intros H. specialize (IH H). lia.
Qed.

End BytesFacts.

(** ** Python's order on byte strings and on lists of them *)

Section LexOrder.

Context {A : Type} (cmp : A → A → comparison) `{!CmpOrder cmp}.

Lemma lex_cmp_eq l1 l2 : lex_cmp cmp l1 l2 = Eq → l1 = l2.
Proof.
  revert l2. induction l1 as [|x l1 IH]; intros [|y l2]; simpl; try done.
  destruct (cmp x y) eqn:Hxy; try done.
  intros H. apply cmp_eq in Hxy as ->. by rewrite (IH l2 H).
Qed.

Lemma lex_cmp_refl l : lex_cmp cmp l l = Eq.
Proof. induction l as [|x l IH]; simpl; [done|]. by rewrite cmp_refl. Qed.

Lemma lex_cmp_flip l1 l2 : lex_cmp cmp l2 l1 = CompOpp (lex_cmp cmp l1 l2).
Proof.
  revert l2. induction l1 as [|x l1 IH]; intros [|y l2]; simpl; try done.
  rewrite (cmp_flip x y). destruct (cmp x y); simpl; auto.
Qed.

Lemma lex_cmp_lt_trans l1 l2 l3 :
  lex_cmp cmp l1 l2 = Lt → lex_cmp cmp l2 l3 = Lt → lex_cmp cmp l1 l3 = Lt.
Proof.
  revert l2 l3.
  induction l1 as [|x l1 IH]; intros [|y l2] [|z l3]; simpl; try done.
  destruct (cmp x y) eqn:Hxy, (cmp y z) eqn:Hyz; try done.
  - apply cmp_eq in Hxy as ->. apply cmp_eq in Hyz as ->.
    rewrite cmp_refl. apply IH.
  - apply cmp_eq in Hxy as ->. by rewrite Hyz.
  - apply cmp_eq in Hyz as ->. by rewrite Hxy.
  - by rewrite (cmp_lt_trans x y z Hxy Hyz).
Qed.

#[global] Instance lex_cmp_order : CmpOrder (lex_cmp cmp).
Proof.
  split; [apply lex_cmp_eq | apply lex_cmp_refl | apply lex_cmp_flip
         | apply lex_cmp_lt_trans].
Qed.

End LexOrder.

#[global] Instance byte_cmp_order : CmpOrder byte_cmp.
Proof.
  split; unfold byte_cmp.
  - intros x y H. apply N.compare_eq in H.
    rewrite <- (ascii_N_embedding x), <- (ascii_N_embedding y). by rewrite H.
  - intros x. apply N.compare_refl.
  - intros x y. apply N.compare_antisym.
  - intros x y z. rewrite !N.compare_lt_iff. lia.
Qed.

#[global] Instance bytes_cmp_order : CmpOrder bytes_cmp.
Proof.
  split; unfold bytes_cmp.
  - intros x y H. apply (lex_cmp_eq byte_cmp) in H.
    rewrite <- (string_of_list_ascii_of_string x),
      <- (string_of_list_ascii_of_string y). by rewrite H.
  - intros x. apply (lex_cmp_refl byte_cmp).
  - intros x y. apply (lex_cmp_flip byte_cmp).
  - intros x y z. apply (lex_cmp_lt_trans byte_cmp).
Qed.

#[global] Instance key_cmp_order : CmpOrder key_cmp.
Proof. unfold key_cmp. apply _. Qed.

Lemma key_le_cases k1 k2 : key_le k1 k2 ↔ key_cmp k1 k2 = Lt ∨ k1 = k2.
Proof.
  unfold key_le, key_leb. split.
  - destruct (key_cmp k1 k2) eqn:H; simpl; [|by left|done].
    intros _. right. by apply cmp_eq in H.
  - intros [-> | ->]; [done|]. by rewrite cmp_refl.
Qed.

#[global] Instance key_le_total : Total key_le.
Proof.
  intros k1 k2. unfold key_le, key_leb. rewrite (cmp_flip k1 k2).
  destruct (key_cmp k1 k2); simpl; auto.
Qed.

#[global] Instance key_le_trans : Transitive key_le.
Proof.
  intros k1 k2 k3. rewrite !key_le_cases.
  intros [H12 | ->] [H23 | ->]; auto.
  left. by apply (cmp_lt_trans k1 k2 k3).
Qed.

#[global] Instance key_le_antisym : AntiSymm (=) key_le.
Proof.
  intros k1 k2. rewrite !key_le_cases. intros [H12 | ->] [H21 | H]; auto.
  rewrite (cmp_flip k1 k2), H12 in H21. done.
Qed.

(** Keys between two keys with the same first label start with that label. *)
Lemma key_le_head h a b k1 k2 k3 :
  key_le (a :: k1) (b :: k2) → key_le (b :: k2) (h :: k3) → a = h → b = h.
Proof.
  unfold key_le, key_leb, key_cmp. simpl. intros H1 H2 ->.
  destruct (bytes_cmp h b) eqn:Hhb.
  - by apply cmp_eq in Hhb.
  - rewrite (cmp_flip h b), Hhb in H2. done.
  - done.
Qed.

(** ** Computations *)

Section MonadFacts.

Context {A B : Type}.

Lemma outcome_bind (m : M A) (k : A → M B) :
  outcome (m ≫= k) =
  match outcome m with
  | Done a => outcome (k a)
  | Quit status => Quit status
  | Raised e => Raised e
  end.
Proof.
  unfold mbind, M_bind, bind, outcome.
  destruct m as [l [a|status|e]]; simpl; [|done|done]. by destruct (k a).
Qed.

Lemma effects_bind (m : M A) (k : A → M B) :
  effects (m ≫= k) =
  effects m ++ match outcome m with
               | Done a => effects (k a)
               | _ => []
               end.
Proof.
  unfold mbind, M_bind, bind, outcome, effects.
  destruct m as [l [a|status|e]]; simpl; [|by rewrite app_nil_r..].
  by destruct (k a).
Qed.

Lemma outcome_bind_done (m : M A) (k : A → M B) a :
  outcome m = Done a → outcome (m ≫= k) = outcome (k a).
Proof. intros H. by rewrite outcome_bind, H. Qed.

Lemma outcome_bind_inv (m : M A) (k : A → M B) b :
  outcome (m ≫= k) = Done b →
  ∃ a, outcome m = Done a ∧ outcome (k a) = Done b.
Proof. rewrite outcome_bind. destruct (outcome m); naive_solver. Qed.

Lemma effects_bind_Forall (P : effect → Prop) (m : M A) (k : A → M B) :
  Forall P (effects m) → (∀ a, Forall P (effects (k a))) →
  Forall P (effects (m ≫= k)).
Proof.
  intros Hm Hk. rewrite effects_bind. apply Forall_app. split; [done|].
  destruct (outcome m); auto.
Qed.

End MonadFacts.

Lemma outcome_try_except {A} (body : M A) (handler : exn → M A) :
  outcome (try_except body handler) =
  match outcome body with
  | Raised e => outcome (handler e)
  | r => r
  end.
Proof.
  unfold try_except, outcome. destruct body as [l [a|status|e]]; simpl; try done.
  by destruct (handler e).
Qed.

Lemma effects_try_except_Forall {A} (P : effect → Prop)
    (body : M A) (handler : exn → M A) :
  Forall P (effects body) → (∀ e, Forall P (effects (handler e))) →
  Forall P (effects (try_except body handler)).
Proof.
  unfold try_except, effects. intros Hb Hh.
  destruct body as [l [a|status|e]]; simpl in *; try done.
  specialize (Hh e). destruct (handler e). apply Forall_app. by split.
Qed.

Lemma effects_for_each_Forall {X S} (P : effect → Prop)
    (xs : list X) (s : S) (body : X → S → M S) :
  (∀ x s, Forall P (effects (body x s))) →
  Forall P (effects (for_each xs s body)).
Proof.
  intros Hbody. revert s. induction xs as [|x xs IH]; intros s; simpl.
  - constructor.
  - apply effects_bind_Forall; auto.
Qed.

(** The loop rule: an invariant of the visited prefix and the state that
    every iteration re-establishes, completing normally, holds of the
    whole sequence at the end, and the loop completes normally. *)
Lemma for_each_invariant {X S} (I : list X → S → Prop)
    (xs : list X) (s0 : S) (body : X → S → M S) :
  I [] s0 →
  (∀ pre x post s, xs = pre ++ x :: post → I pre s →
     ∃ s', outcome (body x s) = Done s' ∧ I (pre ++ [x]) s') →
  ∃ s', outcome (for_each xs s0 body) = Done s' ∧ I xs s'.
Proof.
  intros H0 Hstep.
  enough (∀ post pre s, xs = pre ++ post → I pre s →
            ∃ s', outcome (for_each post s body) = Done s' ∧ I xs s') as Hgen
    by (apply (Hgen xs [] s0); done).
  induction post as [|x post IH]; intros pre s Hxs Hpre; simpl.
  - exists s. rewrite app_nil_r in Hxs. by subst.
  - destruct (Hstep pre x post s Hxs Hpre) as (s' & Hbody & Hs').
    rewrite (outcome_bind_done _ _ _ Hbody).
    apply (IH (pre ++ [x])); [|done]. by rewrite <- app_assoc.
Qed.

Lemma enumerates_elem_of l s x : enumerates l s → x ∈ l ↔ x ∈ s.
Proof. unfold enumerates. intros ->. apply elem_of_elements. Qed.

Lemma enumerates_NoDup l s : enumerates l s → NoDup l.
Proof. unfold enumerates. intros ->. apply NoDup_elements. Qed.

Lemma enumerates_elements s : enumerates (elements s) s.
Proof. unfold enumerates. reflexivity. Qed.

Lemma enumerates_empty l : enumerates l ∅ → l = [].
Proof.
  unfold enumerates. rewrite elements_empty. apply Permutation_nil_r.
Qed.

Lemma NoDup_app_middle {X} (pre post : list X) x :
  NoDup (pre ++ x :: post) → x ∉ pre.
Proof. rewrite NoDup_app. intros (_ & H & _) Hx. apply (H x Hx). left. Qed.

Lemma outcome_set_remove x s :
  x ∈ s → outcome (set_remove x s) = Done (s ∖ {[x]}).
Proof. intros H. unfold set_remove. by rewrite bool_decide_eq_true_2. Qed.

(** ** The stages *)

Section StageFacts.

Context {env : Collaborators}.

Lemma outcome_eprint m lvl : outcome (eprint m lvl) = Done tt.
Proof. unfold eprint. by destruct click_debug, lvl. Qed.

Lemma outcome_eprint_then {A} m lvl (k : M A) :
  outcome (eprint m lvl;; k) = outcome k.
Proof. by rewrite outcome_bind, outcome_eprint. Qed.

Lemma outcome_emit_then {A} e (k : M A) : outcome (emit e;; k) = outcome k.
Proof. by rewrite outcome_bind. Qed.

(** [strip_to_psl] returns the set of the roots. *)
Lemma strip_to_psl_spec domains :
  ∃ stripped, outcome (strip_to_psl domains) = Done stripped ∧
    ∀ x, x ∈ stripped ↔ ∃ d, d ∈ domains ∧ x = extract_psl_domain d.
Proof.
  unfold strip_to_psl. rewrite outcome_eprint_then.
  apply (for_each_invariant (λ pre (s : gset string),
           ∀ x, x ∈ s ↔ ∃ d, d ∈ pre ∧ x = extract_psl_domain d)).
  - intros x. split; [set_solver|]. intros (d & Hd & _). by inversion Hd.
  - intros pre d post s _ Hs. eexists. split; [done|].
    intros x. rewrite elem_of_union, elem_of_singleton, Hs.
    setoid_rewrite elem_of_app. setoid_rewrite list_elem_of_singleton.
    naive_solver.
Qed.

(** [validate_domain_list] completes normally whatever the codec does,
    and returns the encoded forms of the entries that encode. *)
Lemma validate_domain_list_spec domains :
  ∃ valid, outcome (validate_domain_list domains) = Done valid ∧
    ∀ x, x ∈ valid ↔ ∃ h, h ∈ domains ∧ idna h = inr x.
Proof.
  unfold validate_domain_list. rewrite outcome_eprint_then.
  apply (for_each_invariant (λ pre (s : gset string),
           ∀ x, x ∈ s ↔ ∃ h, h ∈ pre ∧ idna h = inr x)).
  - intros x. split; [set_solver|]. intros (d & Hd & _). by inversion Hd.
  - intros pre h post s _ Hs. rewrite outcome_try_except, outcome_bind.
    destruct (idna h) as [e|h'] eqn:Hh; simpl.
    + exists s. split; [done|]. intros x. rewrite Hs.
      setoid_rewrite elem_of_app. setoid_rewrite list_elem_of_singleton.
      split; [intros (h0 & ? & ?); eauto|].
      intros (h0 & [?| ->] & Heq); [eauto | congruence].
    + eexists. split; [done|]. intros x.
      rewrite elem_of_union, elem_of_singleton, Hs.
      setoid_rewrite elem_of_app. setoid_rewrite list_elem_of_singleton.
      split.
      * intros [->|(h0 & ? & ?)]; eauto.
      * intros (h0 & [?| ->] & Heq); [eauto | left; congruence].
Qed.

(** The whitelist pass removes the roots of the whitelisted domains and
    never raises: every [remove] is guarded by a membership test. *)
Lemma unblock_whitelisted_psl_spec domains_whitelist domains_combined :
  ∃ s, outcome (unblock_whitelisted_psl domains_whitelist domains_combined)
         = Done s ∧
    ∀ x, x ∈ s ↔
      x ∈ domains_combined ∧
      ∀ w, w ∈ domains_whitelist → x ≠ extract_psl_domain w.
Proof.
  unfold unblock_whitelisted_psl.
  apply (for_each_invariant (λ pre (s : gset string),
           ∀ x, x ∈ s ↔
             x ∈ domains_combined ∧ ∀ w, w ∈ pre → x ≠ extract_psl_domain w)).
  - intros x. split; [|naive_solver]. intros Hx. split; [done|].
    intros w Hw. by inversion Hw.
  - intros pre w post s _ Hs. case_bool_decide as Hin.
    + rewrite (outcome_set_remove _ _ Hin). eexists. split; [done|].
      intros x. rewrite elem_of_difference, elem_of_singleton, Hs.
      setoid_rewrite elem_of_app. setoid_rewrite list_elem_of_singleton.
      naive_solver.
    + exists s. split; [done|]. intros x. rewrite Hs.
      setoid_rewrite elem_of_app. setoid_rewrite list_elem_of_singleton.
      split; [|naive_solver]. intros [Hx Hpre]. split; [done|].
      intros w' [Hw'| ->]; [by apply Hpre|]. intros ->.
      apply Hin, Hs. by split.
Qed.

(** The re-admission pass completes normally, keeps what was blocked and
    adds nothing but original domains outside the whitelist. *)
Lemma readd_subdomains_spec orig domains_whitelist domains_combined :
  ∃ s, outcome (readd_subdomains orig domains_whitelist domains_combined)
         = Done s ∧
    domains_combined ⊆ s ∧
    ∀ x, x ∈ s → x ∈ domains_combined ∨ (x ∈ orig ∧ x ∉ domains_whitelist).
Proof.
  unfold readd_subdomains.
  apply (for_each_invariant (λ pre (s : gset string),
           domains_combined ⊆ s ∧
           ∀ x, x ∈ s →
             x ∈ domains_combined ∨ (x ∈ pre ∧ x ∉ domains_whitelist))).
  - split; [done|]. auto.
  - intros pre d post s _ [Hsub Hs].
    assert (∀ x, x ∈ s →
              x ∈ domains_combined ∨
              (x ∈ pre ++ [d] ∧ x ∉ domains_whitelist)) as Hs'.
    { intros x Hx. destruct (Hs x Hx) as [?|[? ?]]; [by left|right].
      split; [|done]. apply elem_of_app. by left. }
    repeat case_bool_decide; try (exists s; split; [done|by split]).
    rewrite outcome_eprint_then. eexists. split; [done|].
    split; [set_solver|]. intros x [->%elem_of_singleton|Hx]%elem_of_union.
    + right. split; [|done]. apply elem_of_app. right. by left.
    + by apply Hs'.
Qed.

(** One pruning pass over a snapshot that enumerates the live set: it
completes normally (no [remove] of an absent element), only removes, removes
only entries whose parent was blocked, and leaves no entry next to its
parent. *)
Lemma prune_redundant_rules_spec order s :
  enumerates order s →
  ∃ s', outcome (prune_redundant_rules order s) = Done s' ∧
    s' ⊆ s ∧
    (∀ x, x ∈ s → x ∉ s' → contains "." x = true ∧ parent_domain x ∈ s) ∧
    (∀ x, x ∈ s' → contains "." x = true → parent_domain x ∉ s').
Proof.
  intros Henum.
  pose proof (enumerates_NoDup _ _ Henum) as Hnodup.
  assert (∀ x, x ∈ order ↔ x ∈ s) as Hin
    by (intros x; by apply enumerates_elem_of).
  unfold prune_redundant_rules, parent_domain.
  destruct (for_each_invariant (λ pre (live : gset string),
      live ⊆ s ∧
      (∀ x, x ∈ s → x ∉ pre → x ∈ live) ∧
      (∀ x, x ∈ s → x ∉ live →
         contains "." x = true ∧ join "." (tail (split "." x)) ∈ s) ∧
      (∀ x, x ∈ pre → x ∈ live → contains "." x = true →
         join "." (tail (split "." x)) ∉ live))
    order s
    (λ domain domains_combined,
      if contains "." domain then
        let domain_parts := split "." domain in
        let domain_parts := tail domain_parts in
        let parent_domain := join "." domain_parts in
        if bool_decide (parent_domain ∈ domains_combined) then
          eprint (Removing domain parent_domain) DEBUG;;
          set_remove domain domains_combined
        else ret domains_combined
      else ret domains_combined))
    as (s' & Hout & Hsub & _ & Hrem & Hkept).
  - split; [done|]. split; [done|]. split; [done|].
    intros x Hx. by inversion Hx.
  - intros pre d post live Horder (Hsub & Hunvisited & Hrem & Hkept).
    assert (d ∉ pre) as Hfresh.
    { rewrite Horder in Hnodup. by apply NoDup_app_middle in Hnodup. }
    assert (d ∈ live) as Hlive.
    { apply Hunvisited; [|done]. apply Hin. rewrite Horder.
      apply elem_of_app. right. left. }
    assert (∀ x, ¬ x ∈ pre ++ [d] → (x ∉ pre) ∧ x ≠ d) as Hsplit.
    { intros x Hx. split; intros ?; apply Hx, elem_of_app;
        [by left | right; subst; left]. }
    destruct (contains "." d) eqn:Hdot; simpl.
    + case_bool_decide as Hparent.
      * rewrite outcome_eprint_then, (outcome_set_remove _ _ Hlive).
        eexists. split; [done|]. split; [set_solver|].
        split; [|split].
        -- intros x Hx [Hpre Hne]%Hsplit. apply elem_of_difference.
           split; [by apply Hunvisited | set_solver].
        -- intros x Hx Hnot. destruct (decide (x = d)) as [->|Hne].
           ++ split; [done|]. by apply Hsub.
           ++ apply Hrem; [done|]. set_solver.
        -- intros x [Hx| ->%list_elem_of_singleton]%elem_of_app
             [Hxl Hxd]%elem_of_difference Hxdot; [|set_solver].
           specialize (Hkept x Hx Hxl Hxdot). set_solver.
      * exists live. split; [done|]. split; [done|]. split; [|split; [done|]].
        -- intros x Hx [Hpre Hne]%Hsplit. by apply Hunvisited.
        -- intros x [Hx| ->%list_elem_of_singleton]%elem_of_app Hxl Hxdot;
             [by apply Hkept | done].
    + exists live. split; [done|]. split; [done|]. split; [|split; [done|]].
      * intros x Hx [Hpre Hne]%Hsplit. by apply Hunvisited.
      * intros x [Hx| ->%list_elem_of_singleton]%elem_of_app Hxl Hxdot;
          [by apply Hkept | congruence].
  - exists s'. split; [done|]. split; [done|]. split; [done|].
    intros x Hx. apply Hkept; [|done]. apply Hin. by apply Hsub.
Qed.

(** A pass over a set in which no entry has its parent changes nothing. *)
Lemma prune_redundant_rules_fixed order s :
  enumerates order s →
  (∀ x, x ∈ s → contains "." x = true → parent_domain x ∉ s) →
  outcome (prune_redundant_rules order s) = Done s.
Proof.
  intros Henum Hfix.
  destruct (prune_redundant_rules_spec order s Henum)
    as (s' & -> & Hsub & Hrem & _).
  f_equal. apply set_eq. intros x. split; [apply Hsub|].
  intros Hx. destruct (decide (x ∈ s')) as [|Hnot]; [done|].
  destruct (Hrem x Hx Hnot) as [Hdot Hparent]. by destruct (Hfix x Hx Hdot).
Qed.

(** [group_by_tld] completes normally and returns its input, rearranged in
    ascending order of the reversed label lists. *)
Lemma group_by_tld_spec domains :
  ∃ sorted_output, outcome (group_by_tld domains) = Done sorted_output ∧
    sorted_output ≡ₚ domains ∧
    StronglySorted by_reversed_labels sorted_output.
Proof.
  unfold group_by_tld. rewrite outcome_eprint_then. eexists. split; [done|].
  set (keys := map (λ domain, rev (split "." domain)) domains).
  assert (Forall (λ k, ∃ d, k = rev (split "." d)) (merge_sort key_le keys))
    as Hkeys.
  { rewrite merge_sort_Permutation. subst keys. apply Forall_forall.
    intros k (d & <- & _)%list_elem_of_In%in_map_iff. by exists d. }
  split.
  - transitivity (map (λ rev_domain, join "." (rev rev_domain)) keys).
    + apply Permutation_map, merge_sort_Permutation.
    + subst keys. rewrite map_map. apply Permutation_refl'.
      rewrite <- (map_id domains) at 2. apply map_ext. intros d.
      by rewrite rev_involutive, join_split.
  - pose proof (StronglySorted_merge_sort key_le keys) as Hsorted.
    revert Hkeys Hsorted. generalize (merge_sort key_le keys). intros ks.
    induction 1 as [|k ks (d & ->) Hks IH]; intros Hsorted; [constructor|].
    apply StronglySorted_inv in Hsorted as [Hsorted Hall].
    simpl. constructor; [by apply IH|].
    rewrite Forall_forall in Hall. apply Forall_forall. intros x Hx.
    apply list_elem_of_In, in_map_iff in Hx as (k' & <- & Hk').
    apply list_elem_of_In in Hk'. unfold by_reversed_labels. rewrite !rev_involutive, !join_split.
    specialize (Hall k' Hk'). rewrite Forall_forall in Hks.
    destruct (Hks k' Hk') as (d' & ->). by rewrite rev_involutive, join_split.
Qed.

End StageFacts.

(** ** Splitting and joining labels *)

Lemma split_no_sep sep s : contains sep s = false → split sep s = [s].
Proof.
  induction s as [|c s IH]; simpl; [done|].
  destruct (Ascii.eqb c sep); [done|]. intros H. by rewrite (IH H).
Qed.

Lemma split_app_sep sep w rest :
  contains sep w = false →
  split sep (w +:+ String sep rest) = w :: split sep rest.
Proof.
  induction w as [|c w IH]; simpl.
  - intros _. by rewrite Ascii.eqb_refl.
  - destruct (Ascii.eqb c sep); [done|]. intros H. by rewrite (IH H).
Qed.

Lemma split_labels sep s : Forall (λ w, contains sep w = false) (split sep s).
Proof.
  induction s as [|c s IH]; simpl; [by repeat constructor|].
  destruct (Ascii.eqb c sep) eqn:Hc; [by constructor|].
  destruct (split sep s) as [|w ws]; [by repeat constructor; simpl; rewrite Hc|].
  apply Forall_cons in IH as [Hw Hws]. constructor; [|done]. simpl.
  by rewrite Hc.
Qed.

Lemma split_join sep parts :
  parts ≠ [] → Forall (λ w, contains sep w = false) parts →
  split sep (join sep parts) = parts.
Proof.
  induction parts as [|w [|w' ws] IH]; [done|..]; intros _ Hall.
  - simpl. apply split_no_sep. by apply Forall_cons in Hall as [? _].
  - apply Forall_cons in Hall as [Hw Hws].
    change (join sep (w :: w' :: ws))
      with (w +:+ String sep (join sep (w' :: ws))).
    rewrite split_app_sep by done. by rewrite IH.
Qed.

Lemma contains_tail_split sep s :
  contains sep s = true ↔ tail (split sep s) ≠ [].
Proof.
  rewrite contains_split. split.
  - by intros (w & ws & -> & Hne).
  - destruct (split sep s) as [|w ws]; [done|]. simpl. eauto.
Qed.

Lemma ancestors_no_dot d : contains "." d = false → ancestors d = [].
Proof. intros H. unfold ancestors. by rewrite split_no_sep. Qed.

(** The ancestors of a domain are its parent and the parent's ancestors. *)
Lemma ancestors_parent d :
  contains "." d = true →
  ancestors d = parent_domain d :: ancestors (parent_domain d).
Proof.
  intros Hdot. unfold ancestors, parent_domain.
  pose proof (split_labels "." d) as Hall.
  apply contains_tail_split in Hdot.
  destruct (split "." d) as [|w ws]; [done|]. simpl in *.
  destruct ws as [|w' ws]; [done|].
  apply Forall_cons in Hall as [_ Hall]. by rewrite split_join.
Qed.

Lemma parent_domain_shorter d :
  contains "." d = true →
  String.length (parent_domain d) < String.length d.
Proof.
  unfold parent_domain. rewrite join_tail_split. apply after_first_shorter.
Qed.

(** ** The run of the engine *)

Section RunFacts.

Context {env : Collaborators}.

Lemma effects_eprint_Forall (P : effect → Prop) m lvl :
  P (Logger_debug_debug m) →
  (lvl = INFO → P (Logger_quiet_info m)) →
  (lvl = WARNING → P (Logger_quiet_warning m)) →
  Forall P (effects (eprint m lvl)).
Proof.
  intros Hdebug Hinfo Hwarning. unfold eprint.
  destruct click_debug, lvl; repeat constructor; auto.
Qed.

Lemma effects_emit_Forall (P : effect → Prop) e :
  P e → Forall P (effects (emit e)).
Proof. by repeat constructor. Qed.

Lemma effects_ret_Forall {A} (P : effect → Prop) (a : A) :
  Forall P (effects (mret a : M A)).
Proof. constructor. Qed.

End RunFacts.

(** Proves that every effect of a computation built from the monad's
    operations satisfies a predicate that computes. *)
Ltac effects_Forall :=
  repeat first
    [ apply effects_ret_Forall
    | apply effects_eprint_Forall; done
    | apply effects_emit_Forall; done
    | apply effects_bind_Forall; [|intros]
    | apply effects_for_each_Forall; intros
    | apply effects_try_except_Forall; [|intros]
    | match goal with
      | |- Forall _ (effects (set_remove ?x ?s)) =>
          unfold set_remove; case_bool_decide
      | |- Forall _ (effects (of_sum ?r)) => destruct r; constructor
      | |- Forall _ (effects (raise _)) => constructor
      | |- Forall _ (effects (quit _)) => constructor
      | |- Forall _ (effects (if ?c then _ else _)) => destruct c
      | |- Forall _ (effects (match ?x with _ => _ end)) => destruct x
      | |- Forall _ (effects (let '(_, _) := ?x in _)) => destruct x
      | |- Forall _ (effects ((let '(_, _) := ?x in _) _)) => destruct x
      end ].

Section LoggingFacts.

Context {env : Collaborators}.

Lemma validate_domain_list_logs domains :
  Forall (λ e, collecting_effect e = true)
    (effects (validate_domain_list domains)).
Proof. unfold validate_domain_list. effects_Forall. Qed.

Lemma collect_collecting inp :
  Forall (λ e, collecting_effect e = true) (effects (collect inp)).
Proof.
  unfold collect. effects_Forall; try apply validate_domain_list_logs.
Qed.

Lemma reconcile_logging cfg inp :
  Forall (λ e, is_logging e = true) (effects (reconcile cfg inp)).
Proof.
  unfold reconcile, collect, strip_to_psl, validate_domain_list,
    unblock_whitelisted_psl, readd_subdomains, prune_redundant_rules,
    group_by_tld.
  effects_Forall.
Qed.

End LoggingFacts.

Section Returns.

Context {env : Collaborators}.

Lemma returns_ret {A} (a : A) (Q : A → Prop) : Q a → returns (ret a) Q.
Proof. intros H. by exists a. Qed.

Lemma returns_bind {A B} (m : M A) (k : A → M B) (P : A → Prop)
    (Q : B → Prop) :
  returns m P → (∀ a, P a → returns (k a) Q) → returns (m ≫= k) Q.
Proof.
  intros (a & Hm & Ha) Hk. destruct (Hk a Ha) as (b & Hb & HQ).
  exists b. split; [|done]. by rewrite (outcome_bind_done _ _ _ Hm).
Qed.

Lemma returns_eprint_then {A} m lvl (k : M A) (Q : A → Prop) :
  returns k Q → returns (eprint m lvl;; k) Q.
Proof. unfold returns. by rewrite outcome_eprint_then. Qed.

Lemma returns_emit_then {A} e (k : M A) (Q : A → Prop) :
  returns k Q → returns (emit e;; k) Q.
Proof. unfold returns. by rewrite outcome_emit_then. Qed.

Lemma returns_mono {A} (m : M A) (P Q : A → Prop) :
  returns m P → (∀ a, P a → Q a) → returns m Q.
Proof. intros (a & Hm & Ha) HPQ. exists a. auto. Qed.

Lemma returns_inv {A} (m : M A) (Q : A → Prop) a :
  returns m Q → outcome m = Done a → Q a.
Proof. intros (a' & Hm & Ha) Hout. congruence. Qed.

(** The collecting phase completes normally, whatever the sources did. *)
Lemma collect_spec inp :
  returns (collect inp) (λ '(domains_whitelist, domains_combined_orig),
    (whitelist_file inp = ∅ → domains_whitelist = ∅) ∧
    (∀ x, x ∈ domains_whitelist ↔
       ∃ h, h ∈ iter validate_whitelist_loop (whitelist_file inp) ∧
            whitelist_file inp ≠ ∅ ∧ idna h = inr x) ∧
    (∀ x, x ∈ domains_combined_orig ↔
       ∃ h, h ∈ iter validate_remote_loop (remote_domains inp) ∧
            idna h = inr x)).
Proof.
  unfold collect. apply returns_eprint_then.
  apply (returns_bind _ _ (λ wl : gset string,
    (whitelist_file inp = ∅ → wl = ∅) ∧
    ∀ x, x ∈ wl ↔
      ∃ h, h ∈ iter validate_whitelist_loop (whitelist_file inp) ∧
           whitelist_file inp ≠ ∅ ∧ idna h = inr x)).
  { rewrite (left_id_L ∅ (∪)). case_bool_decide as Hwl.
    - apply returns_eprint_then.
      eapply returns_bind; [apply validate_domain_list_spec|].
      intros wl Hspec. simpl in Hspec. apply returns_eprint_then, returns_ret.
      split; [done|]. intros x. rewrite Hspec. naive_solver.
    - apply returns_ret. split; [done|].
      intros x. rewrite Hwl. split; [set_solver|]. by intros (? & ? & ? & ?). }
  intros wl [Hwl0 Hwl]. apply returns_eprint_then.
  apply (returns_bind _ _ (λ orig : gset string, orig = remote_domains inp)).
  { unfold remote_domains, returns.
    apply (for_each_invariant
             (λ pre (acc : gset string), acc = ⋃ (fetched_domains <$> pre))).
    - done.
    - intros pre [item fetched] post acc _ ->.
      rewrite fmap_app, union_list_app_L. simpl.
      rewrite (right_id_L ∅ (∪)).
      destruct (String.prefix "http" item).
      + rewrite outcome_try_except, outcome_eprint_then, outcome_bind.
        destruct fetched as [e|domains]; simpl.
        * eexists. split; [done|]. by rewrite (right_id_L ∅ (∪)).
        * case_bool_decide as Hne.
          -- rewrite outcome_eprint_then. by eexists.
          -- eexists. split; [done|]. by rewrite Hne, (right_id_L ∅ (∪)).
      + eexists. split; [done|].
        destruct fetched; by rewrite (right_id_L ∅ (∪)). }
  intros orig ->. apply returns_eprint_then.
  apply (returns_bind _ _ (λ _, True)).
  { case_bool_decide; by eexists. }
  intros _ _.
  eapply returns_bind; [apply validate_domain_list_spec|].
  intros orig Horig. apply returns_eprint_then, returns_ret. done.
Qed.

(** Outside the refused configuration the transformations complete
    normally; the intermediate sets are related as follows. *)
Lemma reconcile_spec cfg inp :
  fair_iteration → conflict cfg = false →
  returns (reconcile cfg inp) (λ '(domains_whitelist, out),
    ∃ orig combined validated pruned : gset string,
      outcome (collect inp) = Done (domains_whitelist, orig) ∧
      (block_at_psl cfg = false → combined = orig) ∧
      (∀ x, x ∈ combined →
         x ∈ orig ∨ ∃ d, d ∈ orig ∧ x = extract_psl_domain d) ∧
      (∀ x, x ∈ validated ↔
         ∃ h, h ∈ (combined ∖ domains_whitelist) ∪ blacklist_file inp ∧
              idna h = inr x) ∧
      pruned ⊆ validated ∧
      (∀ x, x ∈ validated → x ∉ pruned →
         contains "." x = true ∧ parent_domain x ∈ validated) ∧
      (∀ x, x ∈ pruned → contains "." x = true → parent_domain x ∉ pruned) ∧
      out ≡ₚ elements pruned ∧
      StronglySorted by_reversed_labels out).
Proof.
  intros Hfair Hconflict. unfold reconcile.
  destruct (collect_spec inp) as ([wl orig] & Hcollect & _).
  apply (returns_bind _ _ (λ r, r = (wl, orig))); [by exists (wl, orig)|].
  intros ? ->.
  apply (returns_bind _ _
           (λ combined : gset string,
              (block_at_psl cfg = false → combined = orig) ∧
              ∀ x, x ∈ combined →
                x ∈ orig ∨ ∃ d, d ∈ orig ∧ x = extract_psl_domain d)).
  { unfold conflict in Hconflict.
    destruct (block_at_psl cfg); simpl in *; [|apply returns_ret; by auto].
    destruct (decide (mode cfg = hosts)) as [Hmode|Hmode];
      [by rewrite bool_decide_eq_true_2 in Hconflict|].
    rewrite bool_decide_eq_true_2 by done.
    eapply returns_bind; [apply strip_to_psl_spec|].
    intros stripped Hstripped. simpl in Hstripped.
    do 4 apply returns_eprint_then.
    eapply returns_bind; [apply unblock_whitelisted_psl_spec|].
    intros unblocked Hunblocked. simpl in Hunblocked.
    apply returns_eprint_then.
    eapply returns_bind; [apply readd_subdomains_spec|].
    intros readded [_ Hreadded]. apply returns_eprint_then, returns_ret.
    split; [done|]. intros x Hx.
    destruct (Hreadded x Hx) as [Hu|[Ho _]].
    - apply Hunblocked in Hu as [[Hs _]%elem_of_difference _].
      apply Hstripped in Hs as (d & Hd & ->). right. exists d. split; [|done].
      by apply (enumerates_elem_of _ _ _ (Hfair strip_loop orig)).
    - left. by apply (enumerates_elem_of _ _ _ (Hfair readd_loop orig)). }
  intros combined [Hcombined Hprovenance]. apply returns_eprint_then.
  apply (returns_bind _ _
           (λ s : gset string, s = combined ∖ wl ∪ blacklist_file inp)).
  { case_bool_decide as Hlocal.
    - by do 2 apply returns_eprint_then; apply returns_ret.
    - apply returns_ret. by rewrite Hlocal, (right_id_L ∅ (∪)). }
  intros ? ->. do 2 apply returns_eprint_then.
  eapply returns_bind; [apply validate_domain_list_spec|].
  intros validated Hvalidated. simpl in Hvalidated. apply returns_eprint_then.
  eapply returns_bind; [apply prune_redundant_rules_spec, Hfair|].
  intros pruned (Hsub & Hremoved & Hkept). apply returns_eprint_then.
  eapply returns_bind; [apply group_by_tld_spec|].
  intros out [Hperm Hsorted]. apply returns_eprint_then, returns_ret.
  exists orig, combined, validated, pruned.
  split; [done|]. split; [done|]. split; [done|]. split.
  { intros x. rewrite Hvalidated.
    by setoid_rewrite (enumerates_elem_of _ _ _ (Hfair _ _)). }
  split; [done|]. split; [done|]. split; [done|]. split; [|done].
  by rewrite Hperm, (Hfair group_loop pruned).
Qed.

(** In the refused configuration the run stops after the collecting phase,
    with the error message and exit status 1. *)
Lemma reconcile_conflict cfg inp :
  conflict cfg = true →
  outcome (reconcile cfg inp) = Quit 1 ∧
  effects (reconcile cfg inp) =
    effects (collect inp) ++
    [Logger_debug_error Psl_not_possible_in_hosts_mode].
Proof.
  unfold conflict. intros [Hpsl Hmode%bool_decide_eq_true]%andb_true_iff.
  destruct (collect_spec inp) as ([wl orig] & Hcollect & _).
  unfold reconcile. rewrite outcome_bind, effects_bind, Hcollect.
  by rewrite Hpsl, Hmode.
Qed.

End Returns.

(** * The claims *)

(** ** Redundant-rule pruning *)

Section Pruning.

Context {env : Collaborators}.

(** A pruning pass keeps, of two entries of which one is the parent of the
    other, only the parent, when the parent is not redundant itself. *)
Lemma prune_removes_child order s pruned d :
  enumerates order s →
  outcome (prune_redundant_rules order s) = Done pruned →
  d ∈ s → contains "." d = true → parent_domain d ∈ s →
  (contains "." (parent_domain d) = true →
   parent_domain (parent_domain d) ∉ s) →
  d ∉ pruned.
Proof.
  intros Henum Hout Hd Hdot Hparent Hgrand.
  destruct (prune_redundant_rules_spec order s Henum)
    as (pruned' & Hout' & Hsub & Hremoved & Hkept).
  assert (pruned' = pruned) as -> by congruence.
  intros Hin. apply (Hkept d Hin Hdot).
  destruct (decide (parent_domain d ∈ pruned)) as [|Hgone]; [done|].
  destruct (Hremoved _ Hparent Hgone) as [Hpdot Hpp]. by destruct Hgrand.
Qed.

(** Every entry of the set is, after pruning, either kept or covered by
    one of its ancestors that is kept. *)
Lemma prune_covers order s pruned :
  enumerates order s →
  outcome (prune_redundant_rules order s) = Done pruned →
  ∀ d, d ∈ s → d ∈ pruned ∨ ∃ a, a ∈ ancestors d ∧ a ∈ pruned.
Proof.
  intros Henum Hout.
  destruct (prune_redundant_rules_spec order s Henum)
    as (pruned' & Hout' & Hsub & Hremoved & Hkept).
  assert (pruned' = pruned) as -> by congruence.
  intros d. remember (String.length d) as n eqn:Hn. revert d Hn.
  induction (lt_wf n) as [n _ IH]. intros d -> Hd.
  destruct (decide (d ∈ pruned)) as [|Hgone]; [by left|right].
  destruct (Hremoved d Hd Hgone) as [Hdot Hparent].
  rewrite (ancestors_parent d Hdot).
  destruct (IH _ (parent_domain_shorter d Hdot) (parent_domain d) eq_refl
              Hparent) as [Hp|(a & Ha & Hap)].
  - exists (parent_domain d). split; [left|done].
  - exists a. split; [by right|done].
Qed.

(** C1, as the code has it: the pruning stage looks at the immediate
    parent only.  Over any enumeration of the set it completes normally,
    only removes entries, removes a domain whenever its parent (the domain
    without its leading label) is kept, in particular whenever the parent
    is in the set and the parent's own parent is not, and removes no
    domain whose parent is not in the set. *)
Theorem prune_redundant_rules_parent order s :
  enumerates order s →
  returns (prune_redundant_rules order s) (λ pruned,
    pruned ⊆ s ∧
    (∀ d, d ∈ s → contains "." d = true → parent_domain d ∈ pruned →
       d ∉ pruned) ∧
    (∀ d, d ∈ s → contains "." d = true → parent_domain d ∈ s →
       (contains "." (parent_domain d) = true →
        parent_domain (parent_domain d) ∉ s) →
       d ∉ pruned) ∧
    (∀ d, d ∈ s → d ∉ pruned →
       contains "." d = true ∧ parent_domain d ∈ s ∧
       head (ancestors d) = Some (parent_domain d))).
Proof.
  intros Henum.
  destruct (prune_redundant_rules_spec order s Henum)
    as (pruned & Hout & Hsub & Hremoved & Hkept).
  exists pruned. split; [done|]. split; [done|]. split; [|split].
  - intros d _ Hdot Hparent Hd. by apply (Hkept d Hd Hdot).
  - intros d. by apply (prune_removes_child order).
  - intros d Hd Hgone. destruct (Hremoved d Hd Hgone) as [Hdot Hparent].
    split; [done|]. split; [done|]. by rewrite (ancestors_parent d Hdot).
Qed.

(** C8: pruning is idempotent.  A pass over any enumeration of a set
    completes normally, and a second pass, over any enumeration of the
    result, returns that result unchanged. *)
Theorem prune_redundant_rules_idempotent order s :
  enumerates order s →
  returns (prune_redundant_rules order s) (λ pruned,
    ∀ order', enumerates order' pruned →
      outcome (prune_redundant_rules order' pruned) = Done pruned).
Proof.
  intros Henum.
  destruct (prune_redundant_rules_spec order s Henum)
    as (pruned & Hout & Hsub & Hremoved & Hkept).
  exists pruned. split; [done|]. intros order' Henum'.
  by apply prune_redundant_rules_fixed.
Qed.

End Pruning.

(** C1 as stated fails: with the grandparent present and the parent absent
    the entry stays, in either order of the pass. *)
Lemma prune_keeps_grandchild :
  let s : gset string := {["example.com"; "a.b.example.com"]} in
  "example.com" ∈ ancestors "a.b.example.com" ∧
  "example.com" ∈ s ∧
  ["example.com"; "a.b.example.com"] ≡ₚ elements s ∧
  outcome (prune_redundant_rules (env := Double.env)
             ["example.com"; "a.b.example.com"] s) = Done s ∧
  outcome (prune_redundant_rules (env := Double.env)
             ["a.b.example.com"; "example.com"] s) = Done s ∧
  s ≠ {["example.com"]}.
Proof.
  simpl. split; [|split; [|split; [|split; [|split]]]].
  - apply list_elem_of_In. vm_compute. auto.
  - set_solver.
  - vm_compute. reflexivity.
  - vm_compute. reflexivity.
  - vm_compute. reflexivity.
  - intros H. assert ("a.b.example.com" ∈ ({["example.com"]} : gset string))
      as Hin by (rewrite <- H; set_solver).
    by apply elem_of_singleton in Hin.
Qed.

Lemma prune_redundant_rules_parent_witness :
  returns (prune_redundant_rules (env := Double.env)
             (elements ({["example.com"; "ads.example.com"]} : gset string))
             {["example.com"; "ads.example.com"]})
    (λ pruned,
      pruned ⊆ {["example.com"; "ads.example.com"]} ∧
      (∀ d, d ∈ ({["example.com"; "ads.example.com"]} : gset string) →
         contains "." d = true → parent_domain d ∈ pruned → d ∉ pruned) ∧
      (∀ d, d ∈ ({["example.com"; "ads.example.com"]} : gset string) →
         contains "." d = true →
         parent_domain d ∈ ({["example.com"; "ads.example.com"]} : gset string) →
         (contains "." (parent_domain d) = true →
          parent_domain (parent_domain d) ∉
            ({["example.com"; "ads.example.com"]} : gset string)) →
         d ∉ pruned) ∧
      (∀ d, d ∈ ({["example.com"; "ads.example.com"]} : gset string) →
         d ∉ pruned →
         contains "." d = true ∧
         parent_domain d ∈ ({["example.com"; "ads.example.com"]} : gset string) ∧
         head (ancestors d) = Some (parent_domain d))).
Proof.
  apply (prune_redundant_rules_parent (env := Double.env)).
  apply enumerates_elements.
Defined.

Lemma prune_redundant_rules_idempotent_witness :
  returns (prune_redundant_rules (env := Double.env)
             (elements ({["example.com"; "ads.example.com"; "b.ads.example.com"]}
                        : gset string))
             {["example.com"; "ads.example.com"; "b.ads.example.com"]})
    (λ pruned,
      ∀ order', enumerates order' pruned →
        outcome (prune_redundant_rules (env := Double.env) order' pruned)
        = Done pruned).
Proof.
  apply (prune_redundant_rules_idempotent (env := Double.env)).
  apply enumerates_elements.
Defined.

(** ** Canonical ordering *)

#[global] Instance by_reversed_labels_antisym : AntiSymm (=) by_reversed_labels.
Proof.
  intros a b Hab Hba. unfold by_reversed_labels in *.
  pose proof (anti_symm key_le _ _ Hab Hba) as Heq.
  apply (f_equal (@rev string)) in Heq. rewrite !rev_involutive in Heq.
  by apply split_inj in Heq.
Qed.

Lemma StronglySorted_lookup_lt {A} (R : relation A) l i j a b :
  StronglySorted R l → i < j → l !! i = Some a → l !! j = Some b → R a b.
Proof.
  intros Hsorted. revert i j.
  induction Hsorted as [|x l Hsorted IH Hall]; intros i j Hij Hi Hj; [done|].
  destruct j as [|j]; [lia|]. destruct i as [|i]; simpl in *.
  - injection Hi as ->. rewrite Forall_forall in Hall. apply Hall.
    by apply list_elem_of_lookup_2 in Hj.
  - apply (IH i j); [lia|done..].
Qed.

Lemma reversed_labels_tld d : ∃ rest, rev (split "." d) = tld d :: rest.
Proof.
  unfold tld. pose proof (split_nonempty "." d) as Hne.
  destruct (rev (split "." d)) as [|t rest] eqn:Hrev; [|by exists rest].
  apply (f_equal (@rev string)) in Hrev. by rewrite rev_involutive in Hrev.
Qed.

Section Ordering.

Context {env : Collaborators}.

(** C9: [group_by_tld] completes normally and returns the domains it was
    given, each in its normal form, in ascending lexicographic order of the
    reversed label lists.  The result depends only on which domains are
    given, not on the order in which the set yields them, and the domains
    with the same top-level label are contiguous in it. *)
Theorem group_by_tld_canonical domains :
  returns (group_by_tld domains) (λ out,
    out ≡ₚ domains ∧
    StronglySorted by_reversed_labels out ∧
    (∀ domains', domains' ≡ₚ domains →
       outcome (group_by_tld domains') = Done out) ∧
    (∀ (i j k : nat) a b c, (i ≤ j)%nat → (j ≤ k)%nat →
       out !! i = Some a → out !! j = Some b → out !! k = Some c →
       tld a = tld c → tld b = tld a)).
Proof.
  destruct (group_by_tld_spec domains) as (out & Hout & Hperm & Hsorted).
  exists out. split; [done|]. split; [done|]. split; [done|]. split.
  - intros domains' Hperm'.
    destruct (group_by_tld_spec domains') as (out' & -> & Hperm2 & Hsorted').
    f_equal. apply (StronglySorted_unique by_reversed_labels); [done..|].
    by rewrite Hperm2, Hperm', Hperm.
  - intros i j k a b c Hij Hjk Hi Hj Hk Htld.
    destruct (decide (i = j)) as [->|Hne1]; [congruence|].
    destruct (decide (j = k)) as [->|Hne2]; [congruence|].
    assert (by_reversed_labels a b) as Hab
      by (apply (StronglySorted_lookup_lt _ out i j); [done|lia|done..]).
    assert (by_reversed_labels b c) as Hbc
      by (apply (StronglySorted_lookup_lt _ out j k); [done|lia|done..]).
    unfold by_reversed_labels in *.
    destruct (reversed_labels_tld a) as (ra & Ha).
    destruct (reversed_labels_tld b) as (rb & Hb).
    destruct (reversed_labels_tld c) as (rc & Hc).
    rewrite Ha, Hb in Hab. rewrite Hb, Hc in Hbc.
    rewrite Htld. by apply (key_le_head _ _ _ _ _ _ Hab Hbc).
Qed.

End Ordering.

(** ** Re-admission after root stripping *)

Section Readmission.

Context {env : Collaborators}.

(** When no domain that passes the test against the state before the pass
    is the root of another one that passes it, the pass adds exactly the
    domains that pass the test against the state before the pass. *)
Lemma readd_subdomains_snapshot order orig domains_whitelist before :
  enumerates order orig →
  (∀ d d', d ∈ orig → d' ∈ orig → d ≠ d' →
     readmitted domains_whitelist before d →
     readmitted domains_whitelist before d' →
     extract_psl_domain d' ≠ d) →
  returns (readd_subdomains order domains_whitelist before) (λ after,
    ∀ x, x ∈ after ↔
      x ∈ before ∨ (x ∈ orig ∧ readmitted domains_whitelist before x)).
Proof.
  intros Henum Hroots.
  pose proof (enumerates_NoDup _ _ Henum) as Hnodup.
  assert (∀ x, x ∈ order ↔ x ∈ orig) as Hin
    by (intros x; by apply enumerates_elem_of).
  unfold readd_subdomains.
  destruct (for_each_invariant (λ pre (live : gset string),
      ∀ x, x ∈ live ↔
        x ∈ before ∨ (x ∈ pre ∧ readmitted domains_whitelist before x))
    order before
    (λ orig_domain domains_combined,
      if bool_decide (orig_domain ∉ domains_whitelist) then
        if bool_decide (orig_domain ∉ domains_combined) then
          let orig_domain_psl := extract_psl_domain orig_domain in
          if bool_decide (orig_domain_psl ∉ domains_combined) then
            eprint (Re_adding orig_domain) DEBUG;;
            ret ({[orig_domain]} ∪ domains_combined)
          else ret domains_combined
        else ret domains_combined
      else ret domains_combined))
    as (after & Hout & Hafter).
  - intros x. split; [by left|]. intros [?|[Hx _]]; [done|by inversion Hx].
  - intros pre d post live Horder Hlive.
    assert (d ∉ pre) as Hfresh.
    { rewrite Horder in Hnodup. by apply NoDup_app_middle in Hnodup. }
    assert (d ∈ orig) as Hd.
    { apply Hin. rewrite Horder. apply elem_of_app. right. left. }
    assert (∀ x, x ∈ pre → x ∈ orig) as Hpre.
    { intros x Hx. apply Hin. rewrite Horder. apply elem_of_app. by left. }
    assert (∀ x, x ∈ pre ++ [d] ↔ x ∈ pre ∨ x = d) as Hsnoc.
    { intros x. rewrite elem_of_app, list_elem_of_singleton. done. }
    assert (¬ readmitted domains_whitelist before d →
            ∀ x, x ∈ live ↔
              x ∈ before ∨
              (x ∈ pre ++ [d] ∧ readmitted domains_whitelist before x))
      as Hskip.
    { intros Hnot x. rewrite Hlive, Hsnoc. naive_solver. }
    case_bool_decide as Hwl; [|exists live; split; [done|]].
    2: { apply Hskip. by intros (? & _). }
    case_bool_decide as Hblocked; [|exists live; split; [done|]].
    2: { apply Hskip. intros (_ & Hb & _).
         apply Hlive in Hblocked as [?|[? _]]; done. }
    simpl. case_bool_decide as Hpsl; [|exists live; split; [done|]].
    2: { apply Hskip. intros Hd3. pose proof Hd3 as (_ & _ & Hp).
         apply Hlive in Hpsl as [?|[Hppre Hpr]]; [done|].
         apply (Hroots (extract_psl_domain d) d); auto.
         intros Heq. rewrite Heq in Hppre. done. }
    rewrite outcome_eprint_then. eexists. split; [done|].
    intros x. rewrite elem_of_union, elem_of_singleton, Hlive, Hsnoc.
    assert (readmitted domains_whitelist before d) as Hd3.
    { split; [done|]. split; intros Hb.
      - apply Hblocked, Hlive. by left.
      - apply Hpsl, Hlive. by left. }
    naive_solver.
  - exists after. split; [done|]. intros x. rewrite Hafter.
    by setoid_rewrite Hin.
Qed.

(** C2, as the code has it: each decision of the re-admission pass is
    taken against the working blacklist as it is when the domain is
    visited, entries re-added earlier in the pass included.  The result is
    the one decided against the state before the pass, and the same for
    every order of the original set, whenever no domain that qualifies
    against that state is the root of another one that qualifies. *)
Theorem readd_subdomains_order_independent
    order1 order2 orig domains_whitelist before :
  enumerates order1 orig → enumerates order2 orig →
  (∀ d d', d ∈ orig → d' ∈ orig → d ≠ d' →
     readmitted domains_whitelist before d →
     readmitted domains_whitelist before d' →
     extract_psl_domain d' ≠ d) →
  returns (readd_subdomains order1 domains_whitelist before) (λ after,
    outcome (readd_subdomains order2 domains_whitelist before) = Done after ∧
    ∀ x, x ∈ after ↔
      x ∈ before ∨ (x ∈ orig ∧ readmitted domains_whitelist before x)).
Proof.
  intros Henum1 Henum2 Hroots.
  destruct (readd_subdomains_snapshot order1 orig domains_whitelist before
              Henum1 Hroots) as (after1 & Hout1 & Hafter1).
  destruct (readd_subdomains_snapshot order2 orig domains_whitelist before
              Henum2 Hroots) as (after2 & Hout2 & Hafter2).
  exists after1. split; [done|]. split; [|done].
  rewrite Hout2. f_equal. apply set_eq. intros x.
  by rewrite Hafter1, Hafter2.
Qed.

End Readmission.

(** C2 as stated fails: with the root and a subdomain both in the original
    set, and the stripped root removed for a whitelisted sibling, the pass
    re-adds the subdomain only if it visits it before the root.  Whole runs
    that differ in nothing but the orders of iteration end with different
    sequences. *)
Lemma readd_subdomains_order_dependent :
  let orig : gset string := {["example.com"; "ads.example.com"]} in
  let whitelist : gset string := {["safe.example.com"]} in
  outcome (stripped ← strip_to_psl (env := Double.env) (elements orig);
           unblock_whitelisted_psl (env := Double.env) (elements whitelist)
             (stripped ∖ whitelist)) = Done ∅ ∧
  ["example.com"; "ads.example.com"] ≡ₚ elements orig ∧
  ["ads.example.com"; "example.com"] ≡ₚ elements orig ∧
  outcome (readd_subdomains (env := Double.env)
             ["example.com"; "ads.example.com"] whitelist ∅)
    = Done {["example.com"]} ∧
  outcome (readd_subdomains (env := Double.env)
             ["ads.example.com"; "example.com"] whitelist ∅)
    = Done {["example.com"; "ads.example.com"]} ∧
  ({["example.com"]} : gset string) ≠ {["example.com"; "ads.example.com"]} ∧
  let inp :=
    {| whitelist_file := {["safe.example.com"]};
       source := [("http://list", inr {["example.com"; "a.b.example.com"]})];
       blacklist_file := ∅ |} in
  ordered_domains (reconcile (env := Double.env) (Double.cfg dnsmasq true) inp)
    = Some ["example.com"] ∧
  ordered_domains
    (reconcile (env := Double.env_rev) (Double.cfg dnsmasq true) inp)
    = Some ["example.com"; "a.b.example.com"].
Proof.
  simpl. split; [by vm_compute|].
  split; [vm_compute; first [reflexivity | apply perm_swap]|].
  split; [vm_compute; first [reflexivity | apply perm_swap]|].
  split; [by vm_compute|]. split; [by vm_compute|]. split.
  - intros H.
    assert ("ads.example.com" ∈ ({["example.com"]} : gset string)) as Hin
      by (rewrite H; set_solver).
    by apply elem_of_singleton in Hin.
  - split; by vm_compute.
Qed.

Lemma readd_subdomains_order_independent_witness :
  returns (readd_subdomains (env := Double.env)
             (elements ({["ads.example.com"; "cdn.example.com"]} : gset string))
             {["safe.example.com"]} ∅)
    (λ after,
      outcome (readd_subdomains (env := Double.env)
                 (rev (elements
                         ({["ads.example.com"; "cdn.example.com"]} : gset string)))
                 {["safe.example.com"]} ∅) = Done after ∧
      ∀ x, x ∈ after ↔
        x ∈ (∅ : gset string) ∨
        (x ∈ ({["ads.example.com"; "cdn.example.com"]} : gset string) ∧
         readmitted (env := Double.env) {["safe.example.com"]} ∅ x)).
Proof.
  apply (readd_subdomains_order_independent (env := Double.env)).
  - apply enumerates_elements.
  - unfold enumerates. symmetry. apply Permutation_rev.
  - intros d d' Hd Hd' Hne _ _.
    apply elem_of_union in Hd as [Hd|Hd]; apply elem_of_singleton in Hd;
      apply elem_of_union in Hd' as [Hd'|Hd']; apply elem_of_singleton in Hd';
      subst; vm_compute; discriminate.
Defined.

(** ** The run as a whole *)

Section Run.

Context {env : Collaborators}.

Lemma logging_not_Write l data :
  Forall (λ e, is_logging e = true) l → Write data ∉ l.
Proof.
  intros Hall Hin. rewrite Forall_forall in Hall. by apply Hall in Hin.
Qed.

Lemma logging_written l :
  Forall (λ e, is_logging e = true) l → written l = [].
Proof.
  induction 1 as [|e l He _ IH]; [done|].
  destruct e; try done; apply IH.
Qed.

Lemma collecting_is_logging l :
  Forall (λ e, collecting_effect e = true) l →
  Forall (λ e, is_logging e = true) l.
Proof. intros H. eapply Forall_impl; [done|]. by intros []. Qed.

(** When the transformations stop the run, [dnsgate] does nothing more. *)
Lemma dnsgate_quit cfg inp status :
  outcome (reconcile cfg inp) = Quit status →
  outcome (dnsgate cfg inp) = Quit status ∧
  effects (dnsgate cfg inp) = effects (reconcile cfg inp).
Proof.
  intros H. unfold dnsgate. rewrite outcome_bind, effects_bind, H.
  by rewrite app_nil_r.
Qed.

(** When the final list is empty, [dnsgate] logs the error and quits
    before the first write. *)
Lemma dnsgate_empty cfg inp domains_whitelist :
  outcome (reconcile cfg inp) = Done (domains_whitelist, []) →
  outcome (dnsgate cfg inp) = Quit 1 ∧
  effects (dnsgate cfg inp) =
    effects (reconcile cfg inp) ++
    (if backup cfg then [Backup] else []) ++
    [Mkdir; Logger_debug_error Empty_list].
Proof.
  intros H. unfold dnsgate. rewrite outcome_bind, effects_bind, H.
  by destruct (backup cfg).
Qed.

(** C6: when [--block-at-psl] is given together with [--mode hosts] the
    engine logs the error and quits with status 1 right after the
    collecting phase: the effects of the run are those of reading and
    validating the lists, followed by the error message; no
    transformation has logged anything and nothing is written. *)
Theorem block_at_psl_in_hosts_mode_is_fatal cfg inp :
  block_at_psl cfg = true → mode cfg = hosts →
  outcome (dnsgate cfg inp) = Quit 1 ∧
  effects (dnsgate cfg inp) =
    effects (collect inp) ++
    [Logger_debug_error Psl_not_possible_in_hosts_mode] ∧
  Forall (λ e, collecting_effect e = true) (effects (dnsgate cfg inp)) ∧
  written (effects (dnsgate cfg inp)) = [] ∧
  ∀ data, Write data ∉ effects (dnsgate cfg inp).
Proof.
  intros Hpsl Hmode.
  assert (conflict cfg = true) as Hconflict.
  { unfold conflict. by rewrite Hpsl, Hmode. }
  destruct (reconcile_conflict cfg inp Hconflict) as [Hout Heff].
  destruct (dnsgate_quit cfg inp 1 Hout) as [Hquit Heff'].
  assert (Forall (λ e, collecting_effect e = true) (effects (dnsgate cfg inp)))
    as Hall.
  { rewrite Heff', Heff. apply Forall_app. split; [apply collect_collecting|].
    by repeat constructor. }
  split; [done|]. split; [by rewrite Heff'|]. split; [done|]. split.
  - by apply logging_written, collecting_is_logging.
  - intros data. by apply logging_not_Write, collecting_is_logging.
Qed.

End Run.

Lemma block_at_psl_in_hosts_mode_is_fatal_witness :
  let cfg := Double.cfg hosts true in
  let inp :=
    {| whitelist_file := {["safe.example.com"]};
       source := [("http://list", inr {["ads.example.com"]})];
       blacklist_file := {["tracker.other.net"]} |} in
  outcome (dnsgate (env := Double.env) cfg inp) = Quit 1 ∧
  effects (dnsgate (env := Double.env) cfg inp) =
    effects (collect (env := Double.env) inp) ++
    [Logger_debug_error Psl_not_possible_in_hosts_mode] ∧
  Forall (λ e, collecting_effect e = true)
    (effects (dnsgate (env := Double.env) cfg inp)) ∧
  written (effects (dnsgate (env := Double.env) cfg inp)) = [] ∧
  ∀ data, Write data ∉ effects (dnsgate (env := Double.env) cfg inp).
Proof.
  apply (block_at_psl_in_hosts_mode_is_fatal (env := Double.env));
    reflexivity.
Defined.

Section Precedence.

Context {env : Collaborators}.

(** The facts of [reconcile_spec], for a run known to have returned. *)
Lemma reconcile_inv cfg inp domains_whitelist out :
  fair_iteration →
  outcome (reconcile cfg inp) = Done (domains_whitelist, out) →
  ∃ orig combined validated pruned : gset string,
    outcome (collect inp) = Done (domains_whitelist, orig) ∧
    (block_at_psl cfg = false → combined = orig) ∧
    (∀ x, x ∈ combined →
       x ∈ orig ∨ ∃ d, d ∈ orig ∧ x = extract_psl_domain d) ∧
    (∀ x, x ∈ validated ↔
       ∃ h, h ∈ (combined ∖ domains_whitelist) ∪ blacklist_file inp ∧
            idna h = inr x) ∧
    pruned ⊆ validated ∧
    (∀ x, x ∈ validated → x ∉ pruned →
       contains "." x = true ∧ parent_domain x ∈ validated) ∧
    (∀ x, x ∈ pruned → contains "." x = true → parent_domain x ∉ pruned) ∧
    out ≡ₚ elements pruned ∧
    StronglySorted by_reversed_labels out.
Proof.
  intros Hfair Hout.
  destruct (conflict cfg) eqn:Hconflict.
  - destruct (reconcile_conflict cfg inp Hconflict) as [Hquit _]. congruence.
  - by apply (returns_inv _ _ _ (reconcile_spec cfg inp Hfair Hconflict)) in Hout.
Qed.

(** What pruning removes from the validated blacklist stays covered by an
    ancestor in the final list. *)
Lemma reconcile_covers cfg inp domains_whitelist out :
  fair_iteration →
  outcome (reconcile cfg inp) = Done (domains_whitelist, out) →
  ∀ h x, h ∈ blacklist_file inp → idna h = inr x →
    x ∈ out ∨ ∃ a, a ∈ ancestors x ∧ a ∈ out.
Proof.
  intros Hfair Hout h x Hh Hx.
  destruct (reconcile_inv cfg inp _ _ Hfair Hout)
    as (orig & combined & validated & pruned & _ & _ & _ & Hvalidated & Hsub
        & Hremoved & Hkept & Hperm & _).
  assert (∀ y, y ∈ out ↔ y ∈ pruned) as Hin.
  { intros y. rewrite Hperm. apply elem_of_elements. }
  setoid_rewrite Hin.
  assert (x ∈ validated) as Hxv.
  { apply Hvalidated. exists h. split; [|done]. apply elem_of_union. by right. }
  clear Hx Hh h. remember (String.length x) as n eqn:Hn. revert x Hn Hxv.
  induction (lt_wf n) as [n _ IH]. intros x -> Hxv.
  destruct (decide (x ∈ pruned)) as [|Hgone]; [by left|right].
  destruct (Hremoved x Hxv Hgone) as [Hdot Hparent].
  rewrite (ancestors_parent x Hdot).
  destruct (IH _ (parent_domain_shorter x Hdot) (parent_domain x) eq_refl
              Hparent) as [Hp|(a & Ha & Hap)].
  - exists (parent_domain x). split; [left|done].
  - exists a. split; [by right|done].
Qed.

(** C4, as the code has it in dnsmasq mode: the local blacklist is united
    with the working blacklist after the whitelist is subtracted, but the
    union is then validated and pruned.  In every run in dnsmasq mode that
    reaches the final sequence, every entry of the local blacklist that
    passes validation is covered by it: the validated entry is a member,
    or one of its ancestors is (pruning drops an entry whose parent is
    blocked too, and a dnsmasq rule for the parent blocks the entry).  The
    whitelist plays no part. *)
Theorem local_blacklist_is_covered cfg inp out :
  fair_iteration → mode cfg = dnsmasq →
  ordered_domains (reconcile cfg inp) = Some out →
  ∀ d d', d ∈ blacklist_file inp → idna d = inr d' →
    d' ∈ out ∨ ∃ a, a ∈ ancestors d' ∧ a ∈ out.
Proof.
  intros Hfair _ Hout. unfold ordered_domains in Hout.
  destruct (outcome (reconcile cfg inp)) as [[wl out']| |] eqn:Hrun; [|done..].
  injection Hout as ->. by apply (reconcile_covers cfg inp wl).
Qed.

(** C5, as the code has it: with root stripping disabled the transformations
    complete normally, and a domain of the validated whitelist is absent
    from the final sequence unless an entry of the local blacklist
    validates to it.  The codec is taken to map each of its outputs to
    itself or to refuse it. *)
Theorem whitelist_excluded_without_stripping cfg inp :
  fair_iteration →
  idna_output_fixed →
  block_at_psl cfg = false →
  returns (reconcile cfg inp) (λ '(domains_whitelist, out),
    ∀ d, d ∈ domains_whitelist →
      (∀ l, l ∈ blacklist_file inp → idna l ≠ inr d) →
      d ∉ out).
Proof.
  intros Hfair Hstable Hpsl.
  assert (conflict cfg = false) as Hconflict
    by (unfold conflict; by rewrite Hpsl).
  destruct (reconcile_spec cfg inp Hfair Hconflict) as ([wl out] & Hout & Hspec).
  exists (wl, out). split; [done|].
  destruct Hspec as (orig & combined & validated & pruned & Hcollect & Hcombined
                     & _ & Hvalidated & Hsub & _ & _ & Hperm & _).
  rewrite (Hcombined Hpsl) in Hvalidated.
  intros d Hd Hlocal Hin.
  rewrite Hperm in Hin. apply elem_of_elements, Hsub, Hvalidated in Hin.
  destruct Hin as (h & [[Hh Hnot]%elem_of_difference|Hh]%elem_of_union & Hhd).
  - destruct (collect_spec inp) as ([wl' orig'] & Hcollect' & _ & _ & Horig).
    assert (orig' = orig) as -> by congruence.
    apply Horig in Hh as (h0 & _ & Hh0).
    pose proof (Hstable h0 h d Hh0 Hhd) as ->. done.
  - by apply (Hlocal h).
Qed.

End Precedence.

(** C4 as stated fails: a local entry whose parent is blocked by a remote
    list is pruned from the output. *)
Lemma local_blacklist_entry_pruned :
  let inp :=
    {| whitelist_file := ∅;
       source := [("http://list", inr {["example.com"]})];
       blacklist_file := {["ads.example.com"]} |} in
  let cfg := Double.cfg dnsmasq false in
  "ads.example.com" ∈ blacklist_file inp ∧
  outcome (dnsgate (env := Double.env) cfg inp) = Done tt ∧
  written (effects (dnsgate (env := Double.env) cfg inp)) =
    [Double.header; "server=/.example.com/" +:+ newline] ∧
  ordered_domains (reconcile (env := Double.env) cfg inp) =
    Some ["example.com"] ∧
  "ads.example.com" ∉ ["example.com"].
Proof.
  simpl. split; [set_solver|]. split; [by vm_compute|].
  split; [by vm_compute|]. split; [by vm_compute|].
  intros H%list_elem_of_singleton. discriminate.
Qed.

Lemma local_blacklist_is_covered_witness :
  "ads.example.com" ∈ ["example.com"; "tracker.other.net"] ∨
  ∃ a, a ∈ ancestors "ads.example.com" ∧
       a ∈ ["example.com"; "tracker.other.net"].
Proof.
  apply (local_blacklist_is_covered (env := Double.env)
           (Double.cfg dnsmasq false)
           {| whitelist_file := {["ads.example.com"]};
              source := [("http://list", inr {["example.com"]})];
              blacklist_file := {["ads.example.com"; "tracker.other.net"]} |}
           ["example.com"; "tracker.other.net"])
    with (d := "ads.example.com").
  - intros lp s. apply enumerates_elements.
  - reflexivity.
  - by vm_compute.
  - simpl. set_solver.
  - by vm_compute.
Defined.

(** In hosts mode the same pruning loses the entry: the file holds the
    line of the parent only, and a hosts line stands for one name. *)
Lemma local_blacklist_entry_lost_in_hosts_mode :
  let inp :=
    {| whitelist_file := ∅;
       source := [("http://list", inr {["example.com"]})];
       blacklist_file := {["ads.example.com"]} |} in
  let cfg := Double.cfg hosts false in
  "ads.example.com" ∈ blacklist_file inp ∧
  outcome (dnsgate (env := Double.env) cfg inp) = Done tt ∧
  written (effects (dnsgate (env := Double.env) cfg inp)) =
    [Double.header; "127.0.0.1 example.com" +:+ newline].
Proof.
  simpl. split; [set_solver|]. split; by vm_compute.
Qed.

(** C5 as stated fails: a whitelisted domain that is also in the local
    blacklist is in the output. *)
Lemma whitelisted_local_entry_kept :
  let inp :=
    {| whitelist_file := {["ads.example.com"]};
       source := [("http://list", inr {["ads.example.com"]})];
       blacklist_file := {["ads.example.com"]} |} in
  let cfg := Double.cfg dnsmasq false in
  block_at_psl cfg = false ∧
  outcome (collect (env := Double.env) inp)
    = Done ({["ads.example.com"]}, {["ads.example.com"]}) ∧
  ordered_domains (reconcile (env := Double.env) cfg inp)
    = Some ["ads.example.com"] ∧
  written (effects (dnsgate (env := Double.env) cfg inp)) =
    [Double.header; "server=/.ads.example.com/" +:+ newline].
Proof. simpl. repeat split; by vm_compute. Qed.

(** The first stand-in returns its input or refuses it. *)
Lemma idna_ascii_fixed h x : Double.idna_ascii h = inr x → x = h.
Proof. unfold Double.idna_ascii. repeat case_match; congruence. Qed.

Lemma whitelist_excluded_without_stripping_witness :
  returns
    (reconcile (env := Double.env) (Double.cfg dnsmasq false)
       {| whitelist_file := {["safe.example.com"]};
          source := [("http://list",
                      inr {["safe.example.com"; "ads.example.com"]})];
          blacklist_file := {["tracker.other.net"]} |})
    (λ '(domains_whitelist, out),
      ∀ d, d ∈ domains_whitelist →
        (∀ l, l ∈ ({["tracker.other.net"]} : gset string) →
           Double.idna_ascii l ≠ inr d) →
        d ∉ out).
Proof.
  apply (whitelist_excluded_without_stripping (env := Double.env)
           (Double.cfg dnsmasq false)).
  - intros lp s. apply enumerates_elements.
  - intros h h' x _. apply idna_ascii_fixed.
  - reflexivity.
Defined.

(** ** The empty result *)

Section EmptyResult.

Context {env : Collaborators}.

Lemma reconcile_written cfg inp : written (effects (reconcile cfg inp)) = [].
Proof. apply logging_written, reconcile_logging. Qed.

Lemma written_app l1 l2 : written (l1 ++ l2) = written l1 ++ written l2.
Proof. unfold written. apply omap_app. Qed.

Lemma dnsgate_empty_fatal cfg inp domains_whitelist :
  outcome (reconcile cfg inp) = Done (domains_whitelist, []) →
  fatal_empty_result (dnsgate cfg inp).
Proof.
  intros Hout. destruct (dnsgate_empty cfg inp _ Hout) as [Hquit Heff].
  split; [done|]. rewrite Heff. split.
  - rewrite !app_assoc.
    change [Mkdir; Logger_debug_error Empty_list]
      with ([Mkdir] ++ [Logger_debug_error Empty_list]).
    rewrite app_assoc. apply last_snoc.
  - rewrite !written_app, reconcile_written. by destruct (backup cfg).
Qed.

(** With nothing from the remote sources and nothing in the local
    blacklist, the final list is empty. *)
Lemma reconcile_empty_inputs cfg inp :
  fair_iteration → conflict cfg = false →
  remote_domains inp = ∅ → blacklist_file inp = ∅ →
  returns (reconcile cfg inp) (λ '(_, out), out = []).
Proof.
  intros Hfair Hconflict Hremote Hlocal.
  destruct (reconcile_spec cfg inp Hfair Hconflict) as ([wl out] & Hout & Hspec).
  exists (wl, out). split; [done|].
  destruct Hspec as (orig & combined & validated & pruned & Hcollect & _
                     & Hprovenance & Hvalidated & Hsub & _ & _ & Hperm & _).
  destruct (collect_spec inp) as ([wl' orig'] & Hcollect' & _ & _ & Horig).
  assert (orig' = orig) as -> by congruence.
  assert (orig = ∅) as ->.
  { apply set_eq. intros x. split; [|set_solver].
    intros (h & Hh & _)%Horig. rewrite Hremote in Hh.
    rewrite (enumerates_empty _ (Hfair validate_remote_loop ∅)) in Hh.
    by inversion Hh. }
  assert (pruned = ∅) as ->.
  { apply set_eq. intros x. split; [|set_solver].
    intros (h & Hh & _)%Hsub%Hvalidated. rewrite Hlocal in Hh.
    apply elem_of_union in Hh as [[Hh _]%elem_of_difference|Hh]; [|set_solver].
    destruct (Hprovenance h Hh) as [?|(d & ? & _)]; set_solver. }
  rewrite elements_empty in Hperm. by apply Permutation_nil_r in Hperm.
Qed.

(** C7: a run whose final list is empty logs the error of the empty list,
    quits with status 1 and has written nothing.  With no domain from the
    remote sources and none in the local blacklist the final list is empty,
    so the run ends in this way.  (The refused configuration of C6 has no
    final list: there the run has quit before, with status 1 as well and
    without writing.) *)
Theorem empty_result_is_fatal cfg inp :
  fair_iteration →
  (∀ domains_whitelist,
     outcome (reconcile cfg inp) = Done (domains_whitelist, []) →
     fatal_empty_result (dnsgate cfg inp)) ∧
  (remote_domains inp = ∅ → blacklist_file inp = ∅ →
     outcome (dnsgate cfg inp) = Quit 1 ∧
     written (effects (dnsgate cfg inp)) = [] ∧
     (conflict cfg = false →
        ordered_domains (reconcile cfg inp) = Some [] ∧
        fatal_empty_result (dnsgate cfg inp))).
Proof.
  intros Hfair. split; [intros wl; apply dnsgate_empty_fatal|].
  intros Hremote Hlocal. destruct (conflict cfg) eqn:Hconflict.
  - destruct (reconcile_conflict cfg inp Hconflict) as [Hout _].
    destruct (dnsgate_quit cfg inp 1 Hout) as [Hquit Heff].
    split; [done|]. split; [|done]. rewrite Heff. apply reconcile_written.
  - destruct (reconcile_empty_inputs cfg inp Hfair Hconflict Hremote Hlocal)
      as ([wl out] & Hout & ->).
    destruct (dnsgate_empty_fatal cfg inp wl Hout) as (Hquit & Hlast & Hwritten).
    split; [done|]. split; [done|]. intros _. split.
    + unfold ordered_domains. by rewrite Hout.
    + by split.
Qed.

End EmptyResult.

(** In the refused configuration a run with empty inputs ends with the
    error of the configuration: the test of the empty list is not reached. *)
Lemma empty_inputs_in_refused_configuration :
  let inp := {| whitelist_file := ∅; source := []; blacklist_file := ∅ |} in
  let run := dnsgate (env := Double.env) (Double.cfg hosts true) inp in
  remote_domains inp = ∅ ∧ blacklist_file inp = ∅ ∧
  outcome run = Quit 1 ∧
  last (effects run) =
    Some (Logger_debug_error Psl_not_possible_in_hosts_mode) ∧
  Logger_debug_error Empty_list ∉ effects run.
Proof.
  simpl. split; [done|]. split; [done|]. split; [by vm_compute|].
  split; [by vm_compute|]. intros Hin. apply list_elem_of_In in Hin.
  vm_compute in Hin. intuition discriminate.
Qed.

Lemma empty_result_is_fatal_witness :
  let cfg := Double.cfg dnsmasq true in
  let inp :=
    {| whitelist_file := {["safe.example.com"]};
       source := [("ftp://list", inr {["ads.example.com"]});
                  ("http://down", inl (FetchError "http://down"))];
       blacklist_file := ∅ |} in
  remote_domains inp = ∅ ∧ blacklist_file inp = ∅ ∧
  outcome (dnsgate (env := Double.env) cfg inp) = Quit 1 ∧
  written (effects (dnsgate (env := Double.env) cfg inp)) = [] ∧
  ordered_domains (reconcile (env := Double.env) cfg inp) = Some [] ∧
  fatal_empty_result (dnsgate (env := Double.env) cfg inp).
Proof.
  intros cfg inp.
  assert (remote_domains inp = ∅) as Hremote by (by vm_compute).
  assert (blacklist_file inp = ∅) as Hlocal by done.
  destruct (empty_result_is_fatal (env := Double.env) cfg inp
              (λ lp s, enumerates_elements s)) as [_ Hempty].
  destruct (Hempty Hremote Hlocal) as (Hquit & Hwritten & Hrest).
  destruct (Hrest eq_refl) as [Hordered Hfatal].
  repeat split; try done; apply Hfatal.
Defined.

(** ** Validation *)

Section Validation.

Context {env : Collaborators}.

(** The effects of a validation: the debug message, then one logged
    exception for every entry that fails to encode. *)
Lemma validate_domain_list_effects domains :
  effects (validate_domain_list domains) =
  effects (eprint (Validating (length domains)) DEBUG) ++
  omap (λ h, match idna h with
             | inl e => Some (Logger_debug_exception e)
             | inr _ => None
             end) domains.
Proof.
  unfold validate_domain_list. rewrite effects_bind, outcome_eprint. f_equal.
  generalize (∅ : gset string).
  induction domains as [|h domains IH]; intros valid; [done|].
  simpl. rewrite effects_bind.
  destruct (idna h) as [e|h'] eqn:Hh; simpl; by rewrite IH.
Qed.

(** C10, as the code has it: [validate_domain_list] never raises.
    Whatever the codec does on the entries, it completes normally with
    the encoded forms of the entries that encode (the entries themselves,
    when encoding leaves them as they are); an entry that fails to encode
    adds nothing, its exception going to the log.  The engine validates
    the combined set before pruning, so outside the refused configuration
    the transformations complete normally and every token of the final
    sequence is the encoded form of a token. *)
Theorem validation_never_raises :
  (∀ domains,
     returns (validate_domain_list domains) (λ valid,
       (∀ x, x ∈ valid ↔ ∃ h, h ∈ domains ∧ idna h = inr x) ∧
       ((∀ h x, h ∈ domains → idna h = inr x → x = h) →
        ∀ x, x ∈ valid ↔ x ∈ domains ∧ idna x = inr x)) ∧
     Forall (λ e, is_logging e = true) (effects (validate_domain_list domains)) ∧
     ∀ h e, h ∈ domains → idna h = inl e →
       Logger_debug_exception e ∈ effects (validate_domain_list domains)) ∧
  (∀ cfg inp, fair_iteration → conflict cfg = false →
     returns (reconcile cfg inp) (λ '(_, out),
       ∀ t, t ∈ out → ∃ h, idna h = inr t)).
Proof.
  split.
  - intros domains. split; [|split].
    + destruct (validate_domain_list_spec domains) as (valid & Hout & Hvalid).
      exists valid. split; [done|]. split; [done|].
      intros Hfixed x. rewrite Hvalid. split.
      * intros (h & Hh & Hx). pose proof (Hfixed h x Hh Hx) as ->. by split.
      * intros [Hx Hy]. eauto.
    + eapply Forall_impl; [apply validate_domain_list_logs|].
      by intros [].
    + intros h e Hh He. rewrite validate_domain_list_effects.
      apply elem_of_app. right. apply list_elem_of_omap. exists h.
      split; [done|]. by rewrite He.
  - intros cfg inp Hfair Hconflict.
    destruct (reconcile_spec cfg inp Hfair Hconflict)
      as ([wl out] & Hout & Hspec).
    exists (wl, out). split; [done|].
    destruct Hspec as (orig & combined & validated & pruned & _ & _ & _
                       & Hvalidated & Hsub & _ & _ & Hperm & _).
    intros t Hin. rewrite Hperm in Hin.
    apply elem_of_elements, Hsub, Hvalidated in Hin as (h & _ & Hh). eauto.
Qed.

End Validation.

(** C10 as stated fails: what validation returns is not a subset of the
    entries, and a token that fails to encode can be in the final
    sequence.  The codec turns the ellipsis of a local entry into three
    full stops; the result has empty labels, which the codec refuses, and
    it is written to the file, the local blacklist being validated
    once. *)
Lemma refused_token_written :
  let entry := "a" +:+ Nameprep.ellipsis +:+ "b" in
  let inp :=
    {| whitelist_file := ∅;
       source := [("http://list", inr {["example.com"]})];
       blacklist_file := {[entry]} |} in
  let cfg := Double.cfg dnsmasq false in
  Nameprep.idna_nameprep entry = inr "a...b" ∧
  Nameprep.idna_nameprep "a...b" = inl (UnicodeError "a...b") ∧
  outcome (validate_domain_list (env := Nameprep.env) [entry])
    = Done {["a...b"]} ∧
  outcome (validate_domain_list (env := Nameprep.env) ["a...b"]) = Done ∅ ∧
  ordered_domains (reconcile (env := Nameprep.env) cfg inp)
    = Some ["a...b"; "example.com"] ∧
  outcome (dnsgate (env := Nameprep.env) cfg inp) = Done tt ∧
  written (effects (dnsgate (env := Nameprep.env) cfg inp)) =
    [Double.header; "server=/.a...b/" +:+ newline;
     "server=/.example.com/" +:+ newline].
Proof. simpl. repeat split; by vm_compute. Qed.

(** A malformed token among well-formed ones: it is dropped, the others
    stay, and the run writes its output. *)
Example malformed_token_dropped :
  let inp :=
    {| whitelist_file := ∅;
       source := [("http://list", inr {["bad..example.com"; "example.com"]})];
       blacklist_file := {["also..bad"; "tracker.other.net"]} |} in
  Double.idna_ascii "bad..example.com" = inl (UnicodeError "bad..example.com") ∧
  outcome (validate_domain_list (env := Double.env)
             ["bad..example.com"; "example.com"]) = Done {["example.com"]} ∧
  ordered_domains (reconcile (env := Double.env) (Double.cfg dnsmasq false) inp)
    = Some ["example.com"; "tracker.other.net"] ∧
  outcome (dnsgate (env := Double.env) (Double.cfg dnsmasq false) inp)
    = Done tt.
Proof. simpl. repeat split; by vm_compute. Qed.

(** ** The warning about the overlap of the two local lists *)

Section Warning.

Context {env : Collaborators}.

Lemma warnings_app l1 l2 : warnings (l1 ++ l2) = warnings l1 ++ warnings l2.
Proof. unfold warnings. apply omap_app. Qed.

Lemma warnings_nil l :
  Forall (λ e, not_warning e = true) l → warnings l = [].
Proof.
  induction 1 as [|e l He _ IH]; [done|]. destruct e; try done; apply IH.
Qed.

Lemma warnings_bind {A B} (m : M A) (k : A → M B) :
  warnings (effects (m ≫= k)) =
  warnings (effects m) ++ match outcome m with
                          | Done a => warnings (effects (k a))
                          | _ => []
                          end.
Proof. rewrite effects_bind, warnings_app. by destruct (outcome m). Qed.

Lemma warnings_emit_then {A} e (k : M A) :
  not_warning e = true →
  warnings (effects (emit e;; k)) = warnings (effects k).
Proof. intros He. rewrite warnings_bind. by destruct e. Qed.

Lemma warnings_ret_then {A B} (a : A) (k : A → M B) :
  warnings (effects (ret a ≫= k)) = warnings (effects (k a)).
Proof. by rewrite warnings_bind. Qed.

Lemma reconcile_no_warning cfg inp : warnings (effects (reconcile cfg inp)) = [].
Proof.
  apply warnings_nil.
  unfold reconcile, collect, strip_to_psl, validate_domain_list,
    unblock_whitelisted_psl, readd_subdomains, prune_redundant_rules,
    group_by_tld.
  effects_Forall.
Qed.

(** What the loop of the warning tests: with [click_debug] off, a run that
    writes output warns about exactly the whitelisted domains whose root
    is in the final list. *)
Lemma dnsgate_warnings cfg inp domains_whitelist out :
  click_debug = false →
  outcome (reconcile cfg inp) = Done (domains_whitelist, out) → out ≠ [] →
  warnings (effects (dnsgate cfg inp)) =
  omap (λ d, if bool_decide (extract_psl_domain d ∈ out)
             then Some (Listed_in_both d) else None)
    (iter warning_loop domains_whitelist).
Proof.
  intros Hdebug Hout Hne.
  assert (∀ l,
    outcome (for_each l () (λ domain _,
       if bool_decide (extract_psl_domain domain ∈ out)
       then eprint (Listed_in_both domain) WARNING else ret ())) = Done () ∧
    warnings (effects (for_each l () (λ domain _,
       if bool_decide (extract_psl_domain domain ∈ out)
       then eprint (Listed_in_both domain) WARNING else ret ()))) =
    omap (λ d, if bool_decide (extract_psl_domain d ∈ out)
               then Some (Listed_in_both d) else None) l) as Hloop.
  { unfold eprint. rewrite Hdebug.
    induction l as [|d l [IHout IHeff]]; [done|].
    cbn [for_each omap list_omap]. rewrite outcome_bind, warnings_bind.
    case_bool_decide; cbn [outcome effects emit ret snd fst];
      by rewrite IHout, IHeff. }
  unfold dnsgate. cbv zeta.
  rewrite warnings_bind, Hout, reconcile_no_warning. cbv beta iota.
  rewrite app_nil_l, warnings_bind.
  replace (outcome (if backup cfg then emit Backup else ret ())) with (Done ())
    by (by destruct (backup cfg)).
  rewrite (warnings_nil (effects (if backup cfg then emit Backup else ret ())))
    by effects_Forall.
  rewrite app_nil_l, warnings_emit_then by done.
  rewrite (bool_decide_eq_false_2 (out = [])) by done.
  rewrite warnings_ret_then, warnings_bind.
  destruct (Hloop (iter warning_loop domains_whitelist)) as [-> ->].
  rewrite warnings_nil; [by rewrite app_nil_r|].
  unfold output_line. effects_Forall.
Qed.

End Warning.

(** C3: the loop that issues the warning does not compare the whitelist
    with the local blacklist.  For each whitelisted domain it looks up the
    root of the domain in the final list.  So a domain in both local lists
    gets no warning when its root is not blocked, and a whitelisted domain
    that is in no blacklist gets the warning when a remote list blocks its
    root. *)
Theorem overlap_warning_tests_the_root :
  let cfg := Double.cfg dnsmasq false in
  let both :=
    {| whitelist_file := {["ads.example.com"]};
       source := [];
       blacklist_file := {["ads.example.com"]} |} in
  let remote_root :=
    {| whitelist_file := {["safe.example.com"]};
       source := [("http://list", inr {["example.com"]})];
       blacklist_file := ∅ |} in
  ("ads.example.com" ∈ whitelist_file both ∧
   "ads.example.com" ∈ blacklist_file both ∧
   outcome (dnsgate (env := Double.env) cfg both) = Done tt ∧
   written (effects (dnsgate (env := Double.env) cfg both)) =
     [Double.header; "server=/.ads.example.com/" +:+ newline] ∧
   warnings (effects (dnsgate (env := Double.env) cfg both)) = []) ∧
  ("safe.example.com" ∈ whitelist_file remote_root ∧
   blacklist_file remote_root = ∅ ∧
   outcome (dnsgate (env := Double.env) cfg remote_root) = Done tt ∧
   warnings (effects (dnsgate (env := Double.env) cfg remote_root)) =
     [Listed_in_both "safe.example.com"]).
Proof.
  simpl. split.
  - split; [set_solver|]. split; [set_solver|]. repeat split; by vm_compute.
  - split; [set_solver|]. repeat split; by vm_compute.
Qed.

(** * Further properties of the engine *)

Section Stages.

Context {env : Collaborators}.

(** X1 (lines 120-133): root stripping never enlarges the blacklist: the
    result has at most as
    many entries as the loop visited domains, it holds the root of every
    one of them and nothing else. *)
Theorem strip_to_psl_shrinks domains :
  returns (strip_to_psl domains) (λ stripped,
    (size stripped ≤ length domains)%nat ∧
    ∀ x, x ∈ stripped ↔ ∃ d, d ∈ domains ∧ x = extract_psl_domain d).
Proof.
  unfold strip_to_psl. unfold returns. rewrite outcome_eprint_then.
  apply (for_each_invariant (λ pre (s : gset string),
           (size s ≤ length pre)%nat ∧
           ∀ x, x ∈ s ↔ ∃ d, d ∈ pre ∧ x = extract_psl_domain d)).
  - split; [by rewrite size_empty|].
    intros x. split; [set_solver|]. intros (d & Hd & _). by inversion Hd.
  - intros pre d post s _ [Hsize Hs]. eexists. split; [done|]. split.
    + rewrite length_app, size_union_alt, size_singleton. simpl.
      pose proof (subseteq_size (s ∖ {[extract_psl_domain d]}) s) as Hle.
      assert (size (s ∖ {[extract_psl_domain d]}) ≤ size s)%nat
        by (apply Hle; set_solver).
      lia.
    + intros x. rewrite elem_of_union, elem_of_singleton, Hs.
      setoid_rewrite elem_of_app. setoid_rewrite list_elem_of_singleton.
      naive_solver.
Qed.

(** X2 (lines 497-500): the whitelist pass never raises [KeyError],
    whatever the order and
    even when whitelisted domains share a root: it removes exactly the
    roots of the whitelisted domains from the working blacklist. *)
Theorem unblock_whitelisted_psl_removes_roots
    domains_whitelist domains_combined :
  returns (unblock_whitelisted_psl domains_whitelist domains_combined)
    (λ unblocked,
      unblocked ⊆ domains_combined ∧
      (∀ w, w ∈ domains_whitelist → extract_psl_domain w ∉ unblocked) ∧
      (∀ x, x ∈ domains_combined → x ∉ unblocked →
         ∃ w, w ∈ domains_whitelist ∧ x = extract_psl_domain w)).
Proof.
  destruct (unblock_whitelisted_psl_spec domains_whitelist domains_combined)
    as (unblocked & Hout & Hspec).
  exists unblocked. split; [done|]. split; [|split].
  - intros x Hx. by apply Hspec in Hx as [? _].
  - intros w Hw Hin. apply Hspec in Hin as [_ Hne]. by apply (Hne w).
  - intros x Hx Hgone.
    destruct (decide (Exists (λ w, x = extract_psl_domain w) domains_whitelist))
      as [Hex|Hnone].
    + apply Exists_exists in Hex as (w & Hw & ->). eauto.
    + destruct Hgone. apply Hspec. split; [done|]. intros w Hw ->.
      apply Hnone, Exists_exists. eauto.
Qed.

(** X3 (lines 306-318): pruning keeps the coverage of the blacklist:
    every entry of the set is
    kept or has an ancestor that is kept.  So a set that is not empty is
    not pruned to the empty set. *)
Theorem prune_redundant_rules_keeps_coverage order s :
  enumerates order s →
  returns (prune_redundant_rules order s) (λ pruned,
    (∀ d, d ∈ s → d ∈ pruned ∨ ∃ a, a ∈ ancestors d ∧ a ∈ pruned) ∧
    (s ≠ ∅ → pruned ≠ ∅)).
Proof.
  intros Henum.
  destruct (prune_redundant_rules_spec order s Henum)
    as (pruned & Hout & Hsub & Hremoved & Hkept).
  exists pruned. split; [done|].
  assert (∀ d, d ∈ s → d ∈ pruned ∨ ∃ a, a ∈ ancestors d ∧ a ∈ pruned)
    as Hcover.
  { intros d. remember (String.length d) as n eqn:Hn. revert d Hn.
    induction (lt_wf n) as [n _ IH]. intros d -> Hd.
    destruct (decide (d ∈ pruned)) as [|Hgone]; [by left|right].
    destruct (Hremoved d Hd Hgone) as [Hdot Hparent].
    rewrite (ancestors_parent d Hdot).
    destruct (IH _ (parent_domain_shorter d Hdot) (parent_domain d) eq_refl
                Hparent) as [Hp|(a & Ha & Hap)].
    - exists (parent_domain d). split; [left|done].
    - exists a. split; [by right|done]. }
  split; [done|]. intros Hne ->.
  apply set_choose_L in Hne as (d & Hd).
  destruct (Hcover d Hd) as [?|(a & _ & ?)]; set_solver.
Qed.

(** X4 (lines 156-167): validation settles after two passes when the
    codec maps each of its outputs to itself or refuses it.  A second
    pass over the validated set, in any order, returns the entries of it
    that the codec accepts again, and every further pass returns that
    set as it is. *)
Theorem validate_domain_list_settles domains :
  idna_output_fixed →
  returns (validate_domain_list domains) (λ valid,
    ∀ order, enumerates order valid →
      returns (validate_domain_list order) (λ valid2,
        valid2 ⊆ valid ∧
        (∀ x, x ∈ valid2 ↔ x ∈ valid ∧ idna x = inr x) ∧
        ∀ order2, enumerates order2 valid2 →
          outcome (validate_domain_list order2) = Done valid2)).
Proof.
  intros Hfixed.
  destruct (validate_domain_list_spec domains) as (valid & Hout & Hvalid).
  exists valid. split; [done|]. intros order Henum.
  destruct (validate_domain_list_spec order) as (valid2 & Hout2 & Hvalid2).
  exists valid2. split; [done|].
  assert (∀ x, x ∈ valid2 ↔ x ∈ valid ∧ idna x = inr x) as Hsecond.
  { intros x. rewrite Hvalid2. split.
    - intros (h & Hh & Hx). apply (enumerates_elem_of _ _ _ Henum) in Hh.
      pose proof Hh as Hh'. apply Hvalid in Hh' as (h0 & _ & Hh0).
      pose proof (Hfixed h0 h x Hh0 Hx) as ->. done.
    - intros [Hx Hidna]. exists x.
      split; [by apply (enumerates_elem_of _ _ _ Henum)|done]. }
  split; [|split; [done|]].
  - intros x Hx. by apply Hsecond in Hx as [? _].
  - intros order2 Henum2.
    destruct (validate_domain_list_spec order2) as (valid3 & -> & Hvalid3).
    f_equal. apply set_eq. intros x. rewrite Hvalid3. split.
    + intros (h & Hh & Hx). apply (enumerates_elem_of _ _ _ Henum2) in Hh.
      pose proof Hh as Hh'. apply Hsecond in Hh' as [_ Hfix].
      assert (x = h) as -> by congruence. done.
    + intros Hx. exists x.
      split; [by apply (enumerates_elem_of _ _ _ Henum2)|].
      by apply Hsecond in Hx as [_ ?].
Qed.

End Stages.

Lemma prune_redundant_rules_keeps_coverage_witness :
  returns (prune_redundant_rules (env := Double.env)
             (elements ({["example.com"; "ads.example.com"; "b.ads.example.com"]}
                        : gset string))
             {["example.com"; "ads.example.com"; "b.ads.example.com"]})
    (λ pruned,
      (∀ d, d ∈ ({["example.com"; "ads.example.com"; "b.ads.example.com"]}
                 : gset string) →
         d ∈ pruned ∨ ∃ a, a ∈ ancestors d ∧ a ∈ pruned) ∧
      (({["example.com"; "ads.example.com"; "b.ads.example.com"]}
        : gset string) ≠ ∅ → pruned ≠ ∅)).
Proof.
  apply (prune_redundant_rules_keeps_coverage (env := Double.env)).
  apply enumerates_elements.
Defined.

(** ** The working blacklist of a run *)

Section Working.

Context {env : Collaborators}.

(** The re-admission pass leaves every original domain outside the
    whitelist blocked, by itself or by its root. *)
Lemma readd_subdomains_covers orig domains_whitelist domains_combined :
  returns (readd_subdomains orig domains_whitelist domains_combined)
    (λ after,
      domains_combined ⊆ after ∧
      (∀ x, x ∈ after →
         x ∈ domains_combined ∨ (x ∈ orig ∧ x ∉ domains_whitelist)) ∧
      (∀ d, d ∈ orig → d ∉ domains_whitelist →
         d ∈ after ∨ extract_psl_domain d ∈ after)).
Proof.
  unfold readd_subdomains.
  apply (for_each_invariant (λ pre (live : gset string),
           domains_combined ⊆ live ∧
           (∀ x, x ∈ live →
              x ∈ domains_combined ∨ (x ∈ pre ∧ x ∉ domains_whitelist)) ∧
           (∀ d, d ∈ pre → d ∉ domains_whitelist →
              d ∈ live ∨ extract_psl_domain d ∈ live))).
  - split; [done|]. split; [auto|]. intros d Hd. by inversion Hd.
  - intros pre d post live _ (Hsub & Hfrom & Hcov).
    assert (∀ x, x ∈ pre ++ [d] ↔ x ∈ pre ∨ x = d) as Hsnoc.
    { intros x. rewrite elem_of_app, list_elem_of_singleton. done. }
    assert (∀ x, x ∈ live →
              x ∈ domains_combined ∨
              (x ∈ pre ++ [d] ∧ x ∉ domains_whitelist)) as Hfrom'.
    { intros x Hx. destruct (Hfrom x Hx) as [?|[? ?]]; [by left|right].
      split; [|done]. apply Hsnoc. by left. }
    case_bool_decide as Hwl.
    2: { exists live. split; [done|]. split; [done|]. split; [done|].
         intros x [Hx| ->]%Hsnoc Hnot; [by apply Hcov|done]. }
    case_bool_decide as Hblocked.
    2: { exists live. split; [done|]. split; [done|]. split; [done|].
         intros x [Hx| ->]%Hsnoc Hnot; [by apply Hcov|by left]. }
    simpl. case_bool_decide as Hpsl.
    2: { exists live. split; [done|]. split; [done|]. split; [done|].
         intros x [Hx| ->]%Hsnoc Hnot; [by apply Hcov|by right]. }
    rewrite outcome_eprint_then. eexists. split; [done|].
    split; [set_solver|]. split.
    + intros x [->%elem_of_singleton|Hx]%elem_of_union; [|by apply Hfrom'].
      right. split; [|done]. apply Hsnoc. by right.
    + intros x [Hx| ->]%Hsnoc Hnot; [|left; set_solver].
      destruct (Hcov x Hx Hnot); [left|right]; set_solver.
Qed.

(** The sets of a run outside the refused configuration: [working] is the
    blacklist after the whitelist was subtracted (line 523), before the
    local blacklist is added. *)
Lemma reconcile_working_spec cfg inp :
  fair_iteration → conflict cfg = false →
  returns (reconcile cfg inp) (λ '(domains_whitelist, out),
    ∃ orig working validated pruned : gset string,
      outcome (collect inp) = Done (domains_whitelist, orig) ∧
      (∀ x, x ∈ working →
         (x ∉ domains_whitelist) ∧
         (x ∈ orig ∨
          (block_at_psl cfg = true ∧
           ∃ d, d ∈ orig ∧ x = extract_psl_domain d ∧
                ∀ w, w ∈ domains_whitelist → x ≠ extract_psl_domain w))) ∧
      (∀ d, d ∈ orig → d ∉ domains_whitelist →
         d ∈ working ∨
         (block_at_psl cfg = true ∧ extract_psl_domain d ∈ working)) ∧
      (∀ x, x ∈ validated ↔
         ∃ h, h ∈ working ∪ blacklist_file inp ∧ idna h = inr x) ∧
      pruned ⊆ validated ∧
      (∀ x, x ∈ validated → x ∉ pruned →
         contains "." x = true ∧ parent_domain x ∈ validated) ∧
      (∀ x, x ∈ pruned → contains "." x = true → parent_domain x ∉ pruned) ∧
      out ≡ₚ elements pruned ∧
      StronglySorted by_reversed_labels out).
Proof.
  intros Hfair Hconflict. unfold reconcile.
  destruct (collect_spec inp) as ([wl orig] & Hcollect & _).
  apply (returns_bind _ _ (λ r, r = (wl, orig))); [by exists (wl, orig)|].
  intros ? ->.
  apply (returns_bind _ _
           (λ combined : gset string,
              (∀ x, x ∈ combined → x ∉ wl →
                 x ∈ orig ∨
                 (block_at_psl cfg = true ∧
                  ∃ d, d ∈ orig ∧ x = extract_psl_domain d ∧
                       ∀ w, w ∈ wl → x ≠ extract_psl_domain w)) ∧
              (∀ d, d ∈ orig → d ∉ wl →
                 d ∈ combined ∨
                 (block_at_psl cfg = true ∧ extract_psl_domain d ∈ combined ∧
                  extract_psl_domain d ∉ wl)))).
  { unfold conflict in Hconflict.
    destruct (block_at_psl cfg); simpl in *; [|apply returns_ret; by auto].
    destruct (decide (mode cfg = hosts)) as [Hmode|Hmode];
      [by rewrite bool_decide_eq_true_2 in Hconflict|].
    rewrite bool_decide_eq_true_2 by done.
    eapply returns_bind; [apply strip_to_psl_spec|].
    intros stripped Hstripped. simpl in Hstripped.
    do 4 apply returns_eprint_then.
    eapply returns_bind; [apply unblock_whitelisted_psl_spec|].
    intros unblocked Hunblocked. simpl in Hunblocked.
    apply returns_eprint_then.
    eapply returns_bind; [apply readd_subdomains_covers|].
    intros readded (_ & Hfrom & Hcov). apply returns_eprint_then, returns_ret.
    assert (∀ x, x ∈ iter readd_loop orig ↔ x ∈ orig) as Hreadd
      by (intros x; apply (enumerates_elem_of _ _ _ (Hfair _ _))).
    assert (∀ x, x ∈ readded → x ∉ wl) as Hclean.
    { intros x Hx. destruct (Hfrom x Hx) as [Hu|[_ ?]]; [|done].
      by apply Hunblocked in Hu as [[_ ?]%elem_of_difference _]. }
    split.
    - intros x Hx _. destruct (Hfrom x Hx) as [Hu|[Ho _]].
      + apply Hunblocked in Hu as [[Hs _]%elem_of_difference Hroots].
        apply Hstripped in Hs as (d & Hd & ->). right. split; [done|].
        exists d. split.
        { by apply (enumerates_elem_of _ _ _ (Hfair strip_loop orig)). }
        split; [done|]. intros w Hw. apply Hroots.
        by apply (enumerates_elem_of _ _ _ (Hfair whitelist_psl_loop wl)).
      + left. by apply Hreadd.
    - intros d Hd Hnot. apply Hreadd in Hd.
      destruct (Hcov d Hd Hnot) as [?|Hroot]; [by left|right].
      split; [done|]. split; [done|]. by apply Hclean. }
  intros combined [Hfrom Hcov]. apply returns_eprint_then.
  apply (returns_bind _ _
           (λ s : gset string, s = combined ∖ wl ∪ blacklist_file inp)).
  { case_bool_decide as Hlocal.
    - by do 2 apply returns_eprint_then; apply returns_ret.
    - apply returns_ret. by rewrite Hlocal, (right_id_L ∅ (∪)). }
  intros ? ->. do 2 apply returns_eprint_then.
  eapply returns_bind; [apply validate_domain_list_spec|].
  intros validated Hvalidated. simpl in Hvalidated. apply returns_eprint_then.
  eapply returns_bind; [apply prune_redundant_rules_spec, Hfair|].
  intros pruned (Hsub & Hremoved & Hkept). apply returns_eprint_then.
  eapply returns_bind; [apply group_by_tld_spec|].
  intros out [Hperm Hsorted]. apply returns_eprint_then, returns_ret.
  exists orig, (combined ∖ wl), validated, pruned.
  split; [done|]. split.
  { intros x [Hx Hnot]%elem_of_difference. split; [done|]. by apply Hfrom. }
  split.
  { intros d Hd Hnot. destruct (Hcov d Hd Hnot) as [?|(? & ? & ?)];
      [left|right]; set_solver. }
  split.
  { intros x. rewrite Hvalidated.
    by setoid_rewrite (enumerates_elem_of _ _ _ (Hfair _ _)). }
  split; [done|]. split; [done|]. split; [done|]. split; [|done].
  by rewrite Hperm, (Hfair group_loop pruned).
Qed.

(** The same facts, for a run known to have reached the final sequence. *)
Lemma reconcile_working_inv cfg inp domains_whitelist out :
  fair_iteration →
  outcome (reconcile cfg inp) = Done (domains_whitelist, out) →
  ∃ orig working validated pruned : gset string,
    outcome (collect inp) = Done (domains_whitelist, orig) ∧
    (∀ x, x ∈ working →
       (x ∉ domains_whitelist) ∧
       (x ∈ orig ∨
        (block_at_psl cfg = true ∧
         ∃ d, d ∈ orig ∧ x = extract_psl_domain d ∧
              ∀ w, w ∈ domains_whitelist → x ≠ extract_psl_domain w))) ∧
    (∀ d, d ∈ orig → d ∉ domains_whitelist →
       d ∈ working ∨
       (block_at_psl cfg = true ∧ extract_psl_domain d ∈ working)) ∧
    (∀ x, x ∈ validated ↔
       ∃ h, h ∈ working ∪ blacklist_file inp ∧ idna h = inr x) ∧
    pruned ⊆ validated ∧
    (∀ x, x ∈ validated → x ∉ pruned →
       contains "." x = true ∧ parent_domain x ∈ validated) ∧
    (∀ x, x ∈ pruned → contains "." x = true → parent_domain x ∉ pruned) ∧
    out ≡ₚ elements pruned ∧
    StronglySorted by_reversed_labels out.
Proof.
  intros Hfair Hout.
  destruct (conflict cfg) eqn:Hconflict.
  - destruct (reconcile_conflict cfg inp Hconflict) as [Hquit _]. congruence.
  - by apply (returns_inv _ _ _ (reconcile_working_spec cfg inp Hfair Hconflict))
      in Hout.
Qed.

(** What validation and pruning keep of a validated entry: the entry or
    one of its ancestors. *)
Lemma pruned_covers (validated pruned : gset string) out :
  pruned ⊆ validated →
  (∀ x, x ∈ validated → x ∉ pruned →
     contains "." x = true ∧ parent_domain x ∈ validated) →
  out ≡ₚ elements pruned →
  ∀ x, x ∈ validated → covered out x.
Proof.
  intros Hsub Hremoved Hperm.
  assert (∀ y, y ∈ out ↔ y ∈ pruned) as Hin.
  { intros y. rewrite Hperm. apply elem_of_elements. }
  unfold covered. setoid_rewrite Hin.
  intros x. remember (String.length x) as n eqn:Hn. revert x Hn.
  induction (lt_wf n) as [n _ IH]. intros x -> Hxv.
  destruct (decide (x ∈ pruned)) as [|Hgone]; [by left|right].
  destruct (Hremoved x Hxv Hgone) as [Hdot Hparent].
  rewrite (ancestors_parent x Hdot).
  destruct (IH _ (parent_domain_shorter x Hdot) (parent_domain x) eq_refl
              Hparent) as [Hp|(a & Ha & Hap)].
  - exists (parent_domain x). split; [left|done].
  - exists a. split; [by right|done].
Qed.

(** The domains of the remote lists, validated. *)
Lemma collect_orig inp domains_whitelist orig :
  fair_iteration →
  outcome (collect inp) = Done (domains_whitelist, orig) →
  (∀ x, x ∈ domains_whitelist ↔
     ∃ h, h ∈ whitelist_file inp ∧ idna h = inr x) ∧
  (∀ x, x ∈ orig ↔ ∃ r, r ∈ remote_domains inp ∧ idna r = inr x).
Proof.
  intros Hfair Hout.
  destruct (collect_spec inp) as ([wl' orig'] & Hout' & Hempty & Hwl & Horig).
  assert (wl' = domains_whitelist ∧ orig' = orig) as [-> ->]
    by (split; congruence).
  split; intros x.
  - rewrite Hwl. setoid_rewrite (enumerates_elem_of _ _ _ (Hfair _ _)).
    split; [naive_solver|]. intros (h & Hh & Hx). exists h.
    split; [done|]. split; [set_solver|done].
  - rewrite Horig. by setoid_rewrite (enumerates_elem_of _ _ _ (Hfair _ _)).
Qed.

End Working.

(** * Further properties of a run *)

Section Run.

Context {env : Collaborators}.

(** X5 (lines 544-548): the final sequence lists no domain twice and never
    lists a domain together with its immediate parent. *)
Theorem output_has_no_duplicate_and_no_parent_pair
    cfg inp domains_whitelist out :
  fair_iteration →
  outcome (reconcile cfg inp) = Done (domains_whitelist, out) →
  NoDup out ∧
  ∀ x, x ∈ out → contains "." x = true → parent_domain x ∉ out.
Proof.
  intros Hfair Hout.
  destruct (reconcile_working_inv _ _ _ _ Hfair Hout)
    as (orig & working & validated & pruned & _ & _ & _ & _ & _ & _ & Hkept
        & Hperm & _).
  split.
  - rewrite Hperm. apply NoDup_elements.
  - intros x. rewrite !Hperm, !elem_of_elements. apply Hkept.
Qed.

(** X6 (lines 439-548): the run invents no domain.  Every domain of the
    final sequence is the encoded form of an entry of the local blacklist,
    of a validated remote domain or, with root stripping only, of the
    root of a validated remote domain. *)
Theorem output_provenance cfg inp domains_whitelist out x :
  fair_iteration →
  outcome (reconcile cfg inp) = Done (domains_whitelist, out) →
  x ∈ out →
  ∃ h, idna h = inr x ∧
    (h ∈ blacklist_file inp ∨
     ∃ r d, r ∈ remote_domains inp ∧ idna r = inr d ∧
       (h = d ∨ (block_at_psl cfg = true ∧ h = extract_psl_domain d))).
Proof.
  intros Hfair Hout Hx.
  destruct (reconcile_working_inv _ _ _ _ Hfair Hout)
    as (orig & working & validated & pruned & Hcollect & Hworking & _
        & Hvalidated & Hsub & _ & _ & Hperm & _).
  destruct (collect_orig _ _ _ Hfair Hcollect) as [_ Horig].
  rewrite Hperm, elem_of_elements in Hx.
  apply Hsub, Hvalidated in Hx as (h & Hh & Hidna).
  exists h. split; [done|].
  apply elem_of_union in Hh as [Hh|Hh]; [right|by left].
  destruct (Hworking h Hh) as (_ & [Ho|(Hstrip & d & Hd & -> & _)]).
  - apply Horig in Ho as (r & Hr & Hrd). exists r, h. auto.
  - apply Horig in Hd as (r & Hr & Hrd). exists r, d. auto.
Qed.

(** X7 (lines 482-548): in dnsmasq mode a validated remote domain that
    the codec accepts again and that is outside the whitelist stays
    blocked.  It, or one of its ancestors, is in the final sequence; with
    root stripping its root, which the codec has to accept, or an
    ancestor of the root can stand in. *)
Theorem remote_domain_stays_blocked cfg inp domains_whitelist out r d :
  fair_iteration → mode cfg = dnsmasq →
  outcome (reconcile cfg inp) = Done (domains_whitelist, out) →
  r ∈ remote_domains inp → idna r = inr d → idna d = inr d →
  d ∉ domains_whitelist →
  (block_at_psl cfg = true →
   idna (extract_psl_domain d) = inr (extract_psl_domain d)) →
  covered out d ∨
  (block_at_psl cfg = true ∧ covered out (extract_psl_domain d)).
Proof.
  intros Hfair _ Hout Hr Hrd Hagain Hnot Hroot.
  destruct (reconcile_working_inv _ _ _ _ Hfair Hout)
    as (orig & working & validated & pruned & Hcollect & _ & Hcov
        & Hvalidated & Hsub & Hremoved & _ & Hperm & _).
  destruct (collect_orig _ _ _ Hfair Hcollect) as [_ Horig].
  assert (d ∈ orig) as Hd by (apply Horig; eauto).
  pose proof (pruned_covers validated pruned out Hsub Hremoved Hperm)
    as Hcovered.
  destruct (Hcov d Hd Hnot) as [Hw|[Hstrip Hw]].
  - left. apply Hcovered, Hvalidated. exists d.
    split; [set_solver|done].
  - right. split; [done|]. apply Hcovered, Hvalidated.
    exists (extract_psl_domain d). split; [set_solver|]. by apply Hroot.
Qed.

(** X8 (lines 482-548): with or without root stripping, a whitelisted
    domain is not in the final sequence unless an entry of the local
    blacklist encodes to it.  The codec is taken to map each of its
    outputs, and the root of each, to itself or to refuse it. *)
Theorem whitelisted_domain_not_blocked cfg inp domains_whitelist out d :
  fair_iteration → idna_output_fixed → idna_root_fixed →
  outcome (reconcile cfg inp) = Done (domains_whitelist, out) →
  d ∈ domains_whitelist →
  (∀ h, h ∈ blacklist_file inp → idna h ≠ inr d) →
  d ∉ out.
Proof.
  intros Hfair Hstable Hroots Hout Hd Hlocal Hin.
  destruct (reconcile_working_inv _ _ _ _ Hfair Hout)
    as (orig & working & validated & pruned & Hcollect & Hworking & _
        & Hvalidated & Hsub & _ & _ & Hperm & _).
  destruct (collect_orig _ _ _ Hfair Hcollect) as [_ Horig].
  rewrite Hperm, elem_of_elements in Hin.
  apply Hsub, Hvalidated in Hin as (h & Hh & Hidna).
  apply elem_of_union in Hh as [Hh|Hh]; [|by apply (Hlocal h)].
  destruct (Hworking h Hh) as (Hnot & [Ho|(_ & d' & Hd' & -> & _)]).
  - apply Horig in Ho as (r & _ & Hrh).
    pose proof (Hstable r h d Hrh Hidna) as ->. done.
  - apply Horig in Hd' as (r & _ & Hrd).
    pose proof (Hroots r d' d Hrd Hidna) as ->. done.
Qed.

(** X9 (lines 482-548): root stripping never blocks the root of a
    whitelisted domain.  If that root is in the final sequence, then an
    entry of the local blacklist encodes to it, or the root is itself a
    validated remote domain outside the whitelist.  The codec is taken to
    map each of its outputs, and the root of each, to itself or to refuse
    it. *)
Theorem whitelisted_root_not_blocked_by_stripping
    cfg inp domains_whitelist out w :
  fair_iteration → idna_output_fixed → idna_root_fixed →
  outcome (reconcile cfg inp) = Done (domains_whitelist, out) →
  w ∈ domains_whitelist → extract_psl_domain w ∈ out →
  (∃ h, h ∈ blacklist_file inp ∧ idna h = inr (extract_psl_domain w)) ∨
  ((extract_psl_domain w ∉ domains_whitelist) ∧
   ∃ r, r ∈ remote_domains inp ∧ idna r = inr (extract_psl_domain w)).
Proof.
  intros Hfair Hstable Hroots Hout Hw Hin.
  destruct (reconcile_working_inv _ _ _ _ Hfair Hout)
    as (orig & working & validated & pruned & Hcollect & Hworking & _
        & Hvalidated & Hsub & _ & _ & Hperm & _).
  destruct (collect_orig _ _ _ Hfair Hcollect) as [_ Horig].
  rewrite Hperm, elem_of_elements in Hin.
  apply Hsub, Hvalidated in Hin as (h & Hh & Hidna).
  apply elem_of_union in Hh as [Hh|Hh]; [right|left; eauto].
  destruct (Hworking h Hh) as (Hnot & [Ho|(_ & d & Hd & -> & Hdiff)]).
  - apply Horig in Ho as (r & Hr & Hrh).
    pose proof (Hstable r h _ Hrh Hidna) as Heq. rewrite Heq. eauto.
  - apply Horig in Hd as (r & _ & Hrd).
    pose proof (Hroots r d _ Hrd Hidna) as Heq. by destruct (Hdiff w Hw).
Qed.

End Run.

(** * The output phase *)

Section Output.

Context {env : Collaborators}.

Lemma actions_app l1 l2 : actions (l1 ++ l2) = actions l1 ++ actions l2.
Proof. unfold actions. apply List.filter_app. Qed.

Lemma actions_logging l :
  Forall (λ e, is_logging e = true) l → actions l = [].
Proof.
  unfold actions. induction 1 as [|e l He _ IH]; [done|].
  cbn [List.filter]. by rewrite He.
Qed.

Lemma actions_bind {A B} (m : M A) (k : A → M B) :
  actions (effects (m ≫= k)) =
  actions (effects m) ++ match outcome m with
                         | Done a => actions (effects (k a))
                         | _ => []
                         end.
Proof. rewrite effects_bind, actions_app. by destruct (outcome m). Qed.

Lemma actions_eprint_then {A} m lvl (k : M A) :
  actions (effects (eprint m lvl;; k)) = actions (effects k).
Proof.
  rewrite actions_bind, outcome_eprint, actions_logging; [done|].
  effects_Forall.
Qed.

(** The loop of lines 564-568 only logs. *)
Lemma warning_loop_logs (out : list string) l :
  outcome (for_each l () (λ domain _,
     if bool_decide (extract_psl_domain domain ∈ out)
     then eprint (Listed_in_both domain) WARNING else ret ())) = Done () ∧
  actions (effects (for_each l () (λ domain _,
     if bool_decide (extract_psl_domain domain ∈ out)
     then eprint (Listed_in_both domain) WARNING else ret ()))) = [].
Proof.
  split.
  - induction l as [|d l IH]; [done|].
    cbn [for_each]. rewrite outcome_bind.
    case_bool_decide; [by rewrite outcome_eprint|done].
  - apply actions_logging. effects_Forall.
Qed.

(** The loop of lines 575-587 without [--dest-ip]. *)
Lemma write_loop_lines cfg (out : list string) :
  dest_ip cfg = None →
  for_each out () (λ domain _,
    line ← output_line cfg domain; emit (Write line)) =
  (map (λ d, Write (domain_line (mode cfg) d)) out, Done ()).
Proof.
  intros Hip. induction out as [|d out IH]; [done|].
  assert (output_line cfg d = ret (domain_line (mode cfg) d)) as Hline.
  { unfold output_line, domain_line. rewrite Hip. by destruct (mode cfg). }
  cbn [for_each map]. rewrite Hline.
  cbn [mbind M_bind bind ret emit]. by rewrite IH.
Qed.

(** The same loop with [--dest-ip]: the first line is not built. *)
Lemma write_loop_raises cfg (out : list string) ip :
  dest_ip cfg = Some ip → out ≠ [] →
  for_each out () (λ domain _,
    line ← output_line cfg domain; emit (Write line)) =
  ([], Raised TypeError).
Proof.
  intros Hip Hne. destruct out as [|d out]; [done|].
  assert (output_line cfg d = raise TypeError) as Hline.
  { unfold output_line. rewrite Hip. by destruct (mode cfg). }
  cbn [for_each]. by rewrite Hline.
Qed.

(** The effects of a run on the file system and on the service, up to the
    loop that writes the lines. *)
Lemma dnsgate_actions cfg inp domains_whitelist out :
  outcome (reconcile cfg inp) = Done (domains_whitelist, out) → out ≠ [] →
  outcome (dnsgate cfg inp) =
    outcome (for_each out () (λ domain _,
               line ← output_line cfg domain; emit (Write line));;
             emit Close;;
             (if restart_dnsmasq cfg then
                if bool_decide (mode cfg ≠ hosts)
                then emit Restart_dnsmasq else ret ()
              else ret ())) ∧
  actions (effects (dnsgate cfg inp)) =
    (if backup cfg then [Backup] else []) ++
    [Mkdir; Write output_file_header] ++
    actions (effects
      (for_each out () (λ domain _,
         line ← output_line cfg domain; emit (Write line));;
       emit Close;;
       (if restart_dnsmasq cfg then
          if bool_decide (mode cfg ≠ hosts)
          then emit Restart_dnsmasq else ret ()
        else ret ()))).
Proof.
  intros Hout Hne. unfold dnsgate. cbv zeta.
  rewrite outcome_bind, actions_bind, Hout. cbv beta iota.
  rewrite (actions_logging _ (reconcile_logging cfg inp)), app_nil_l.
  rewrite outcome_bind, actions_bind.
  replace (outcome (if backup cfg then emit Backup else ret ())) with (Done ())
    by (by destruct (backup cfg)).
  replace (actions (effects (if backup cfg then emit Backup else ret ())))
    with (if backup cfg then [Backup] else []) by (by destruct (backup cfg)).
  cbv beta iota.
  rewrite outcome_emit_then, actions_bind. cbn [emit effects outcome fst snd].
  rewrite (bool_decide_eq_false_2 (out = [])) by done.
  rewrite outcome_bind, actions_bind. cbn [ret effects outcome fst snd].
  rewrite outcome_bind, actions_bind.
  destruct (warning_loop_logs out (iter warning_loop domains_whitelist))
    as [-> ->].
  rewrite outcome_eprint_then, actions_eprint_then.
  rewrite outcome_emit_then, actions_bind.
  split; [done|]. by f_equal.
Qed.

(** X10 (lines 552-593): what a complete run without [--dest-ip] does to
    its surroundings, in order.  It backs the output file up if asked to,
    creates the configuration directory, writes the header and one line
    per domain of the final sequence in the format of the mode, closes
    the file and restarts dnsmasq if asked to and not in hosts mode. *)
Theorem run_actions cfg inp domains_whitelist out :
  outcome (reconcile cfg inp) = Done (domains_whitelist, out) → out ≠ [] →
  dest_ip cfg = None →
  outcome (dnsgate cfg inp) = Done () ∧
  actions (effects (dnsgate cfg inp)) =
    (if backup cfg then [Backup] else []) ++
    [Mkdir; Write output_file_header] ++
    map (λ d, Write (domain_line (mode cfg) d)) out ++
    [Close] ++
    (if restart_dnsmasq cfg && bool_decide (mode cfg ≠ hosts)
     then [Restart_dnsmasq] else []).
Proof.
  intros Hout Hne Hip.
  destruct (dnsgate_actions cfg inp domains_whitelist out Hout Hne)
    as [-> ->].
  rewrite (write_loop_lines cfg out Hip).
  split.
  - by destruct (restart_dnsmasq cfg), (bool_decide (mode cfg ≠ hosts)).
  - do 2 f_equal. rewrite actions_bind. cbn [effects outcome fst snd].
    f_equal.
    + apply List.forallb_filter_id, forallb_forall.
      by intros e (d & <- & _)%in_map_iff.
    + by destruct (restart_dnsmasq cfg), (bool_decide (mode cfg ≠ hosts)).
Qed.

(** X11 (lines 570-589): with [--dest-ip] a run that has domains to write
    stops with [TypeError] at the first of them.  The header is the only
    thing written, the file is not closed and dnsmasq is not restarted. *)
Theorem dest_ip_raises_after_the_header cfg inp domains_whitelist out ip :
  outcome (reconcile cfg inp) = Done (domains_whitelist, out) → out ≠ [] →
  dest_ip cfg = Some ip →
  outcome (dnsgate cfg inp) = Raised TypeError ∧
  actions (effects (dnsgate cfg inp)) =
    (if backup cfg then [Backup] else []) ++
    [Mkdir; Write output_file_header].
Proof.
  intros Hout Hne Hip.
  destruct (dnsgate_actions cfg inp domains_whitelist out Hout Hne)
    as [-> ->].
  by rewrite (write_loop_raises cfg out ip Hip Hne).
Qed.

End Output.

(** ** The properties at work on sample data *)

Lemma sample_root_fixed : idna_root_fixed (env := Double.env).
Proof. intros h d x _. apply idna_ascii_fixed. Qed.

Lemma sample_fair : fair_iteration (env := Double.env).
Proof. intros lp s. apply enumerates_elements. Qed.

Lemma sample_output_fixed : idna_output_fixed (env := Double.env).
Proof. intros h h' x _. apply idna_ascii_fixed. Qed.

Lemma sample_run :
  outcome (reconcile (env := Double.env) (Double.cfg dnsmasq true) Sample.inp)
  = Done (Sample.whitelist, Sample.out).
Proof. by vm_compute. Qed.

Lemma output_has_no_duplicate_and_no_parent_pair_witness :
  NoDup Sample.out ∧
  ∀ x, x ∈ Sample.out → contains "." x = true →
       parent_domain x ∉ Sample.out.
Proof.
  apply (output_has_no_duplicate_and_no_parent_pair (env := Double.env)
           (Double.cfg dnsmasq true) Sample.inp Sample.whitelist).
  - apply sample_fair.
  - apply sample_run.
Defined.

Lemma output_provenance_witness :
  ∃ h, Double.idna_ascii h = inr "tracker.net" ∧
    (h ∈ blacklist_file Sample.inp ∨
     ∃ r d, r ∈ remote_domains Sample.inp ∧ Double.idna_ascii r = inr d ∧
       (h = d ∨ (true = true ∧ h = extract_psl_domain (env := Double.env) d))).
Proof.
  apply (output_provenance (env := Double.env) (Double.cfg dnsmasq true)
           Sample.inp Sample.whitelist Sample.out "tracker.net").
  - apply sample_fair.
  - apply sample_run.
  - apply (bool_decide_unpack _). by vm_compute.
Defined.

Lemma remote_domain_stays_blocked_witness :
  covered Sample.out "a.b.tracker.net" ∨
  (true = true ∧
   covered Sample.out (extract_psl_domain (env := Double.env) "a.b.tracker.net")).
Proof.
  apply (remote_domain_stays_blocked (env := Double.env)
           (Double.cfg dnsmasq true) Sample.inp Sample.whitelist Sample.out
           "a.b.tracker.net" "a.b.tracker.net").
  - apply sample_fair.
  - reflexivity.
  - apply sample_run.
  - apply (bool_decide_unpack _). by vm_compute.
  - reflexivity.
  - reflexivity.
  - apply (bool_decide_unpack _). by vm_compute.
  - reflexivity.
Defined.

Lemma whitelisted_domain_not_blocked_witness :
  "safe.example.com" ∈ Sample.whitelist ∧ "safe.example.com" ∉ Sample.out.
Proof.
  assert ("safe.example.com" ∈ Sample.whitelist) as Hin
    by (apply (bool_decide_unpack _); by vm_compute).
  split; [done|].
  apply (whitelisted_domain_not_blocked (env := Double.env)
           (Double.cfg dnsmasq true) Sample.inp Sample.whitelist).
  - apply sample_fair.
  - apply sample_output_fixed.
  - apply sample_root_fixed.
  - apply sample_run.
  - done.
  - intros h Hh. cbn [idna Double.env].
    assert (h = "tracker.other.net" ∨ h = "example.com") as [-> | ->]
      by (cbn [blacklist_file Sample.inp] in Hh; set_solver).
    + by vm_compute.
    + by vm_compute.
Defined.

Lemma whitelisted_root_not_blocked_by_stripping_witness :
  (∃ h, h ∈ blacklist_file Sample.inp ∧
        Double.idna_ascii h = inr "example.com") ∨
  (("example.com" ∉ Sample.whitelist) ∧
   ∃ r, r ∈ remote_domains Sample.inp ∧
        Double.idna_ascii r = inr "example.com").
Proof.
  apply (whitelisted_root_not_blocked_by_stripping (env := Double.env)
           (Double.cfg dnsmasq true) Sample.inp Sample.whitelist Sample.out
           "safe.example.com").
  - apply sample_fair.
  - apply sample_output_fixed.
  - apply sample_root_fixed.
  - apply sample_run.
  - apply (bool_decide_unpack _). by vm_compute.
  - apply (bool_decide_unpack _). by vm_compute.
Defined.

Lemma run_actions_witness :
  outcome (dnsgate (env := Double.env) (Double.cfg dnsmasq true) Sample.inp)
  = Done () ∧
  actions (effects (dnsgate (env := Double.env) (Double.cfg dnsmasq true)
                      Sample.inp)) =
    [Mkdir; Write Double.header;
     Write ("server=/.example.com/" +:+ newline);
     Write ("server=/.tracker.other.net/" +:+ newline);
     Write ("server=/.tracker.net/" +:+ newline);
     Write ("server=/.lone.org/" +:+ newline);
     Close; Restart_dnsmasq].
Proof.
  apply (run_actions (env := Double.env) (Double.cfg dnsmasq true) Sample.inp
           Sample.whitelist Sample.out).
  - apply sample_run.
  - done.
  - reflexivity.
Defined.

Lemma dest_ip_raises_after_the_header_witness :
  outcome (dnsgate (env := Double.env) Sample.cfg_dest_ip Sample.inp)
  = Raised TypeError ∧
  actions (effects (dnsgate (env := Double.env) Sample.cfg_dest_ip
                      Sample.inp)) =
    [Backup; Mkdir; Write Double.header].
Proof.
  apply (dest_ip_raises_after_the_header (env := Double.env)
           Sample.cfg_dest_ip Sample.inp Sample.whitelist
           ["example.com"; "tracker.other.net"; "a.b.tracker.net";
            "x.tracker.net"; "lone.org"] "0.0.0.0").
  - by vm_compute.
  - done.
  - reflexivity.
Defined.

(** * The order of the final sequence, level by level *)

Lemma key_le_cons h k1 k2 : key_le (h :: k1) (h :: k2) → key_le k1 k2.
Proof.
  unfold key_le, key_leb, key_cmp. simpl. by rewrite (cmp_refl h).
Qed.

Lemma key_le_prefix k x : key_le k (k ++ x).
Proof.
  unfold key_le, key_leb, key_cmp.
  induction k as [|h k IH]; simpl; [by destruct x|]. by rewrite (cmp_refl h).
Qed.

(** A key between two keys that start with [k] starts with [k]. *)
Lemma key_le_between k x z b :
  key_le (k ++ x) b → key_le b (k ++ z) → ∃ y, b = k ++ y.
Proof.
  revert b. induction k as [|h k IH]; intros b Hlo Hhi; [by exists b|].
  destruct b as [|b0 b]; [done|]. simpl in Hlo, Hhi.
  assert (b0 = h) as -> by (by apply (key_le_head _ _ _ _ _ _ Hlo Hhi)).
  apply key_le_cons in Hlo, Hhi. destruct (IH b Hlo Hhi) as (y & ->).
  by exists y.
Qed.

Lemma ancestors_of_labels_spec labels x :
  x ∈ ancestors_of_labels labels ↔
  ∃ k s, labels = k ++ s ∧ k ≠ [] ∧ s ≠ [] ∧ x = join "." s.
Proof.
  induction labels as [|w rest IH]; [split; [by inversion 1|]|].
  { by intros ([|w k] & suf & ? & ? & ? & ?). }
  cbn [ancestors_of_labels]. destruct rest as [|w' rest'] eqn:Hrest.
  { split; [by inversion 1|].
    intros ([|w0 [|w1 k]] & [|w2 suf] & ? & ? & ? & ?); done. }
  rewrite <- Hrest in *. rewrite elem_of_cons, IH. split.
  - intros [->|(k & s & -> & Hk & Hs & ->)].
    + exists [w], rest. by rewrite Hrest.
    + by exists (w :: k), s.
  - intros ([|w0 k] & s & Heq & Hk & Hs & ->); [done|].
    injection Heq as -> ->. destruct k as [|w1 k]; [by left|right].
    by exists (w1 :: k), s.
Qed.

(** The subtree of [p] in terms of labels. *)
Lemma in_subtree_labels p d :
  in_subtree p d ↔ ∃ k, split "." d = k ++ split "." p.
Proof.
  unfold in_subtree, ancestors. rewrite ancestors_of_labels_spec. split.
  - intros [->|(k & s & Hd & _ & Hs & ->)]; [by exists []|].
    exists k. rewrite Hd. f_equal. symmetry. apply split_join; [done|].
    pose proof (split_labels "." d) as Hall. rewrite Hd in Hall.
    by apply Forall_app in Hall as [_ ?].
  - intros ([|w k] & Hd); [left; by apply (split_inj ".")|right].
    exists (w :: k), (split "." p).
    split; [done|]. split; [done|]. split; [apply split_nonempty|].
    by rewrite join_split.
Qed.

Lemma in_subtree_key p d :
  in_subtree p d ↔ ∃ y, rev (split "." d) = rev (split "." p) ++ y.
Proof.
  rewrite in_subtree_labels. split.
  - intros (k & ->). exists (rev k). by rewrite rev_app_distr.
  - intros (y & Hrev). exists (rev y).
    apply (f_equal (@rev string)) in Hrev.
    by rewrite rev_involutive, rev_app_distr, rev_involutive in Hrev.
Qed.

Section Subtrees.

Context {env : Collaborators}.

(** X12 (lines 99-113): in the sequence that [group_by_tld] returns the
    subtree of every domain is contiguous, at every level and not only
    under a top-level label, and a domain comes before the domains below
    it. *)
Theorem group_by_tld_subtrees domains :
  returns (group_by_tld domains) (λ out,
    (∀ p (i j k : nat) a b c, (i ≤ j)%nat → (j ≤ k)%nat →
       out !! i = Some a → out !! j = Some b → out !! k = Some c →
       in_subtree p a → in_subtree p c → in_subtree p b) ∧
    (∀ (i j : nat) a b, out !! i = Some a → out !! j = Some b →
       a ∈ ancestors b → (i < j)%nat)).
Proof.
  destruct (group_by_tld_spec domains) as (out & Hout & _ & Hsorted).
  exists out. split; [done|]. split.
  - intros p i j k a b c Hij Hjk Hi Hj Hk Ha Hc.
    destruct (decide (i = j)) as [->|Hne1]; [congruence|].
    destruct (decide (j = k)) as [->|Hne2]; [congruence|].
    assert (by_reversed_labels a b) as Hab
      by (apply (StronglySorted_lookup_lt _ out i j); [done|lia|done..]).
    assert (by_reversed_labels b c) as Hbc
      by (apply (StronglySorted_lookup_lt _ out j k); [done|lia|done..]).
    unfold by_reversed_labels in *.
    apply in_subtree_key in Ha as (x & Ha), Hc as (z & Hc).
    rewrite Ha in Hab. rewrite Hc in Hbc.
    apply in_subtree_key. by apply (key_le_between _ x z).
  - intros i j a b Hi Hj Hanc.
    assert (in_subtree a b) as (y & Hkey)%in_subtree_key by (by right).
    assert (a ≠ b) as Hne.
    { intros ->. apply (f_equal length) in Hkey.
      rewrite length_app in Hkey.
      apply ancestors_of_labels_spec in Hanc as (k & s & Hb & Hk & Hs & Hjoin).
      pose proof (split_labels "." b) as Hall. rewrite Hb in Hall.
      apply Forall_app in Hall as [_ Hall].
      apply (f_equal (split ".")) in Hjoin.
      rewrite split_join, Hb in Hjoin by done.
      apply (f_equal length) in Hjoin. rewrite length_app in Hjoin.
      destruct k; [done|]. simpl in Hjoin. lia. }
    destruct (decide (i < j)%nat) as [|Hge]; [done|].
    destruct (decide (i = j)) as [->|Hij]; [congruence|].
    assert (by_reversed_labels b a) as Hba
      by (apply (StronglySorted_lookup_lt _ out j i); [done|lia|done..]).
    unfold by_reversed_labels in Hba. rewrite Hkey in Hba.
    pose proof (key_le_prefix (rev (split "." a)) y) as Hle.
    pose proof (anti_symm key_le _ _ Hba Hle) as Heq.
    rewrite <- Hkey in Heq. apply (f_equal (@rev string)) in Heq.
    rewrite !rev_involutive in Heq. by apply (split_inj ".") in Heq.
Qed.

End Subtrees.

(** * The readers of the list files *)

Section Text.

Implicit Types (s t line : string) (c : ascii).

Lemma append_nil_l s : "" +:+ s = s.
Proof. done. Qed.

Lemma append_cons c s t : String c s +:+ t = String c (s +:+ t).
Proof. done. Qed.

Lemma append_nil_r s : s +:+ "" = s.
Proof.
  induction s as [|c s IH]; [done|]. by rewrite append_cons, IH.
Qed.

Lemma append_assoc s t u : (s +:+ t) +:+ u = s +:+ (t +:+ u).
Proof.
  induction s as [|c s IH]; [done|]. by rewrite !append_cons, IH.
Qed.

Lemma length_append s t :
  String.length (s +:+ t) = String.length s + String.length t.
Proof.
  induction s as [|c s IH]; [done|]. rewrite append_cons. simpl.
  by rewrite IH.
Qed.

Lemma contains_app sep s t :
  contains sep (s +:+ t) = contains sep s || contains sep t.
Proof.
  induction s as [|c s IH]; [done|]. rewrite ?append_cons. simpl.
  by destruct (Ascii.eqb c sep).
Qed.

Lemma chars_app s t :
  list_ascii_of_string (s +:+ t) =
  list_ascii_of_string s ++ list_ascii_of_string t.
Proof.
  induction s as [|c s IH]; [done|]. rewrite ?append_cons. simpl.
  by rewrite IH.
Qed.

(** *** Comments *)

Lemma remove_comments_no_hash line :
  contains "#" (remove_comments_from_bytes line) = false.
Proof.
  induction line as [|c line IH]; simpl; [done|].
  destruct (Ascii.eqb c "#") eqn:Hc; simpl; [done|]. by rewrite Hc.
Qed.

Lemma remove_comments_prefix line :
  ∃ rest, line = remove_comments_from_bytes line +:+ rest ∧
          (rest = "" ∨ ∃ comment, rest = String "#" comment).
Proof.
  induction line as [|c line (rest & IH & Hrest)]; simpl; [by exists ""; auto|].
  destruct (Ascii.eqb c "#") eqn:Hc; simpl.
  - apply Ascii.eqb_eq in Hc as ->. exists (String "#" line). eauto.
  - exists rest. by rewrite append_cons, <- IH.
Qed.

Lemma remove_comments_id line :
  contains "#" line = false → remove_comments_from_bytes line = line.
Proof.
  induction line as [|c line IH]; simpl; [done|].
  destruct (Ascii.eqb c "#"); simpl; [done|]. intros H. by rewrite IH.
Qed.

Lemma remove_comments_app line t :
  contains "#" line = false →
  remove_comments_from_bytes (line +:+ t) =
  line +:+ remove_comments_from_bytes t.
Proof.
  induction line as [|c line IH]; [done|]. rewrite ?append_cons. simpl.
  destruct (Ascii.eqb c "#"); simpl; [done|]. intros H. by rewrite IH.
Qed.

Lemma remove_comments_chars (P : ascii → bool) line :
  forallb P (list_ascii_of_string line) = true →
  forallb P (list_ascii_of_string (remove_comments_from_bytes line)) = true.
Proof.
  induction line as [|c line IH]; simpl; [done|].
  intros [Hc Hline]%andb_prop. destruct (Ascii.eqb c "#"); simpl; [done|].
  by rewrite Hc, IH.
Qed.

(** *** Whitespace *)

Lemma lstrip_chars (P : ascii → bool) s :
  forallb P (list_ascii_of_string s) = true →
  forallb P (list_ascii_of_string (lstrip s)) = true.
Proof.
  induction s as [|c s IH]; simpl; [done|].
  intros H. destruct (is_space c); [|done].
  apply andb_prop in H as [_ H]. by apply IH.
Qed.

Lemma rstrip_chars (P : ascii → bool) s :
  forallb P (list_ascii_of_string s) = true →
  forallb P (list_ascii_of_string (rstrip s)) = true.
Proof.
  induction s as [|c s IH]; simpl; [done|].
  intros [Hc Hs]%andb_prop. specialize (IH Hs).
  destruct (rstrip s); [destruct (is_space c)|]; simpl in *; [done|..].
  - by rewrite Hc.
  - by rewrite Hc, IH.
Qed.

Lemma strip_chars (P : ascii → bool) s :
  forallb P (list_ascii_of_string s) = true →
  forallb P (list_ascii_of_string (strip s)) = true.
Proof. intros H. by apply rstrip_chars, lstrip_chars. Qed.

Lemma rstrip_no_space s :
  forallb (λ c, negb (is_space c)) (list_ascii_of_string s) = true →
  rstrip s = s.
Proof.
  induction s as [|c s IH]; simpl; [done|].
  intros [Hc Hs]%andb_prop. rewrite (IH Hs).
  destruct s; [|done]. by destruct (is_space c).
Qed.

Lemma rstrip_app s t : rstrip t ≠ "" → rstrip (s +:+ t) = s +:+ rstrip t.
Proof.
  intros Ht. induction s as [|c s IH]; [done|].
  rewrite ?append_cons. simpl. rewrite IH.
  destruct (s +:+ rstrip t) eqn:Heq; [|done].
  destruct s; [done|discriminate].
Qed.

Lemma word_cons w :
  word w = true →
  ∃ c w', w = String c w' ∧ is_space c = false ∧
    forallb (λ c, negb (is_space c)) (list_ascii_of_string w') = true.
Proof.
  unfold word. destruct w as [|c w']; [done|]. simpl.
  intros [Hc Hw]%andb_prop. exists c, w'.
  split; [done|]. split; [by destruct (is_space c)|done].
Qed.

Lemma word_no_space w :
  word w = true →
  forallb (λ c, negb (is_space c)) (list_ascii_of_string w) = true.
Proof. unfold word. by intros [_ ?]%andb_prop. Qed.

Lemma strip_word w : word w = true → strip w = w.
Proof.
  intros Hw. unfold strip.
  destruct (word_cons w Hw) as (c & w' & -> & Hc & Hw'). simpl.
  rewrite Hc. by apply rstrip_no_space, word_no_space.
Qed.

(** *** Words *)

(** The words of a text that starts with a run without whitespace. *)
Lemma words_run w rest :
  forallb (λ c, negb (is_space c)) (list_ascii_of_string w) = true →
  w ≠ "" →
  (rest = "" ∨ ∃ c rest', rest = String c rest' ∧ is_space c = true) →
  words (w +:+ rest) = w :: words rest.
Proof.
  induction w as [|c w IH]; [done|]. simpl. intros [Hc Hw]%andb_prop _ Hrest.
  apply negb_true_iff in Hc. rewrite ?append_cons. cbn [words]. rewrite Hc.
  destruct w as [|c' w].
  - rewrite ?append_nil_l.
    destruct Hrest as [->|(c' & rest' & -> & Hc')]; [done|]. by rewrite Hc'.
  - specialize (IH Hw ltac:(done) Hrest). rewrite ?append_cons in IH |- *.
    simpl in Hw. apply andb_prop in Hw as [Hc' _].
    apply negb_true_iff in Hc'. by rewrite Hc', IH.
Qed.

Lemma words_word w : word w = true → words w = [w].
Proof.
  intros Hw. rewrite <- (append_nil_r w) at 1.
  rewrite words_run; [done|by apply word_no_space| |by left].
  by destruct (word_cons w Hw) as (? & ? & -> & _).
Qed.

Lemma words_Forall s : Forall (λ w, word w = true) (words s).
Proof.
  induction s as [|c s IH]; simpl; [constructor|].
  destruct (is_space c) eqn:Hc; [done|].
  assert (word (String c "") = true) as Hone by (unfold word; simpl; by rewrite Hc).
  destruct s as [|c' s]; [by repeat constructor|].
  destruct (is_space c') eqn:Hc'; [by constructor|].
  destruct (words (String c' s)) as [|w ws]; [by repeat constructor|].
  apply Forall_cons in IH as [Hw Hws]. constructor; [|done].
  apply word_no_space in Hw. unfold word. simpl. by rewrite Hc, Hw.
Qed.

Lemma words_skip rest sp :
  forallb is_space (list_ascii_of_string sp) = true →
  words (sp +:+ rest) = words rest.
Proof.
  induction sp as [|c sp IH]; [done|]. rewrite ?append_cons. simpl.
  intros [Hc Hsp]%andb_prop. rewrite Hc. by apply IH.
Qed.

End Text.

(** *** Characters of the pieces *)

Section Chars.

Implicit Types (s t line : string) (c : ascii) (P : ascii → bool).

Lemma contains_chars sep s :
  contains sep s = false ↔
  forallb (λ c, negb (Ascii.eqb c sep)) (list_ascii_of_string s) = true.
Proof.
  induction s as [|c s IH]; simpl; [done|].
  destruct (Ascii.eqb c sep); simpl; [done|apply IH].
Qed.

Lemma forallb_and {X} (P Q : X → bool) (l : list X) :
  forallb (λ x, P x && Q x) l = forallb P l && forallb Q l.
Proof.
  induction l as [|x l IH]; simpl; [done|]. rewrite IH.
  destruct (P x), (Q x), (forallb P l); done.
Qed.

Lemma forallb_impl {X} (P Q : X → bool) (l : list X) :
  (∀ x, P x = true → Q x = true) → forallb P l = true → forallb Q l = true.
Proof.
  intros HPQ. induction l as [|x l IH]; simpl; [done|].
  intros [Hx Hl]%andb_prop. by rewrite (HPQ x Hx), IH.
Qed.

Lemma split_chars P sep s :
  forallb P (list_ascii_of_string s) = true →
  Forall (λ w, forallb P (list_ascii_of_string w) = true) (split sep s).
Proof.
  induction s as [|c s IH]; simpl; [by repeat constructor|].
  intros [Hc Hs]%andb_prop. specialize (IH Hs).
  destruct (Ascii.eqb c sep); [by constructor|].
  destruct (split sep s) as [|w ws]; [repeat constructor; simpl; by rewrite Hc|].
  apply Forall_cons in IH as [Hw Hws]. constructor; [|done].
  simpl. by rewrite Hc.
Qed.

Lemma join_chars P sep parts :
  P sep = true →
  Forall (λ w, forallb P (list_ascii_of_string w) = true) parts →
  forallb P (list_ascii_of_string (join sep parts)) = true.
Proof.
  intros Hsep. induction 1 as [|w parts Hw Hparts IH]; [done|].
  destruct parts as [|w' parts]; [done|].
  change (join sep (w :: w' :: parts))
    with (w +:+ String sep (join sep (w' :: parts))).
  rewrite chars_app, forallb_app, Hw.
  cbn [list_ascii_of_string forallb andb]. by rewrite Hsep, IH.
Qed.

Lemma filter_None_spec labels w :
  w ∈ filter_None labels ↔ w ∈ labels ∧ w ≠ "".
Proof.
  unfold filter_None. rewrite !list_elem_of_In, filter_In.
  rewrite negb_true_iff, String.eqb_neq. done.
Qed.

Lemma filter_None_id labels :
  forallb (λ label, negb (String.eqb label "")) labels = true →
  filter_None labels = labels.
Proof. apply List.forallb_filter_id. Qed.

(** Dropping the empty labels gives the empty name or a name without
    empty labels. *)
Lemma drop_empty_labels_clean P name :
  P "."%char = true →
  forallb P (list_ascii_of_string name) = true →
  let d := join "." (filter_None (split "." name)) in
  d = "" ∨
  (forallb P (list_ascii_of_string d) = true ∧
   forallb (λ label, negb (String.eqb label "")) (split "." d) = true).
Proof.
  intros Hdot Hname d.
  destruct (filter_None (split "." name)) as [|w ws] eqn:Hlabels;
    [by left|right].
  assert (Forall (λ w, contains "." w = false) (w :: ws)) as Hnodot.
  { rewrite <- Hlabels. apply Forall_forall. intros x [Hx _]%filter_None_spec.
    pose proof (split_labels "." name) as Hall.
    rewrite Forall_forall in Hall. by apply Hall. }
  split.
  - apply join_chars; [done|]. rewrite <- Hlabels. apply Forall_forall.
    intros x [Hx _]%filter_None_spec.
    pose proof (split_chars P "." name Hname) as Hall.
    rewrite Forall_forall in Hall. by apply Hall.
  - subst d. rewrite split_join by done. rewrite <- Hlabels.
    apply forallb_forall. intros x [_ Hx]%list_elem_of_In%filter_None_spec.
    by apply negb_true_iff, String.eqb_neq.
Qed.

End Chars.

(** *** The hosts-format reader *)

Lemma hosts_line_chars line :
  forallb (λ c, (negb (is_space c) || Ascii.eqb c " ") && negb (Ascii.eqb c "#"))
    (list_ascii_of_string (hosts_line line)) = true.
Proof.
  rewrite forallb_and. apply andb_true_intro. split.
  - unfold hosts_line. apply remove_comments_chars, strip_chars, join_chars.
    + done.
    + eapply Forall_impl; [apply words_Forall|]. intros w Hw. simpl in Hw.
      apply word_no_space in Hw. revert Hw. apply forallb_impl.
      intros c ->. done.
  - apply contains_chars, remove_comments_no_hash.
Qed.

(** The loop of the hosts-format reader, line by line. *)
Lemma hosts_loop_spec lines (acc : gset string) :
  for_each_line lines acc (λ line domains,
    let line := replace tab " " line in
    let line := join " " (words line) in
    let line := strip line in
    let line := remove_comments_from_bytes line in
    if contains " " line then
      match split " " line !! 1%nat with
      | None => inl IndexError
      | Some line =>
          let line := join "." (filter_None (split "." line)) in
          inr (domains ∪ {[line]})
      end
    else inr domains) =
  inr (acc ∪ list_to_set
               (map hosts_name
                  (List.filter (λ l, contains " " (hosts_line l)) lines))).
Proof.
  revert acc. induction lines as [|line lines IH]; intros acc.
  - simpl. by rewrite (right_id_L ∅ (∪)).
  - cbn [for_each_line List.filter]. cbv zeta. fold (hosts_line line).
    destruct (contains " " (hosts_line line)) eqn:Hsp.
    + destruct (proj1 (contains_split " " _) Hsp) as (w & ws & Hsplit & Hne).
      destruct ws as [|w' ws]; [done|].
      assert (hosts_name line = join "." (filter_None (split "." w'))) as Hname
        by (unfold hosts_name; by rewrite Hsplit).
      rewrite Hsplit. cbn [lookup list_lookup]. rewrite IH.
      cbn [map list_to_set]. rewrite Hname. f_equal. set_solver.
    + apply IH.
Qed.

Lemma hosts_name_clean line :
  contains " " (hosts_line line) = true →
  hosts_name line = "" ∨ clean_name (hosts_name line) = true.
Proof.
  intros Hsp.
  destruct (proj1 (contains_split " " _) Hsp) as (w & ws & Hsplit & Hne).
  destruct ws as [|w' ws]; [done|].
  unfold hosts_name. rewrite Hsplit. cbn [nth].
  assert (forallb (λ c, negb (is_space c) && negb (Ascii.eqb c "#"))
            (list_ascii_of_string w') = true) as Hchars.
  { pose proof (split_chars _ " " _ (hosts_line_chars line)) as Hall.
    pose proof (split_labels " " (hosts_line line)) as Hnosp.
    rewrite Hsplit in Hall, Hnosp.
    apply Forall_cons in Hall as [_ [Hall _]%Forall_cons].
    apply Forall_cons in Hnosp as [_ [Hnosp _]%Forall_cons].
    apply contains_chars in Hnosp.
    apply forallb_forall. intros c Hc.
    rewrite forallb_forall in Hall, Hnosp.
    specialize (Hall c Hc). specialize (Hnosp c Hc).
    apply andb_prop in Hall as [Hall ->].
    destruct (Ascii.eqb c " "); [done|]. by rewrite orb_false_r in Hall; rewrite Hall. }
  destruct (drop_empty_labels_clean
              (λ c, negb (is_space c) && negb (Ascii.eqb c "#")) w' eq_refl
              Hchars) as [?|[H1 H2]]; [by left|right].
  unfold clean_name. by rewrite H1, H2.
Qed.

Lemma split_app sep a b :
  split sep (a +:+ String sep b) = split sep a ++ split sep b.
Proof.
  induction a as [|c a IH]; rewrite ?append_cons, ?append_nil_l; simpl.
  - by rewrite Ascii.eqb_refl.
  - rewrite IH. destruct (Ascii.eqb c sep); [done|].
    pose proof (split_nonempty sep a) as Hne.
    by destruct (split sep a).
Qed.

Lemma replace_app old new s t :
  replace old new (s +:+ t) = replace old new s +:+ replace old new t.
Proof.
  induction s as [|c s IH]; [done|]. rewrite ?append_cons. simpl.
  by rewrite IH.
Qed.

Lemma replace_id old new s :
  forallb (λ c, negb (Ascii.eqb c old)) (list_ascii_of_string s) = true →
  replace old new s = s.
Proof.
  induction s as [|c s IH]; simpl; [done|]. intros [Hc Hs]%andb_prop.
  apply negb_true_iff in Hc. by rewrite Hc, IH.
Qed.

Lemma replace_tab_no_space s :
  forallb (λ c, negb (is_space c)) (list_ascii_of_string s) = true →
  replace tab " " s = s.
Proof.
  intros Hs. apply replace_id. revert Hs. apply forallb_impl.
  intros c Hc. destruct (Ascii.eqb_spec c tab) as [->|]; done.
Qed.

Lemma replace_tab_space sp :
  forallb is_space (list_ascii_of_string sp) = true →
  forallb is_space (list_ascii_of_string (replace tab " " sp)) = true.
Proof.
  induction sp as [|c sp IH]; simpl; [done|]. intros [Hc Hsp]%andb_prop.
  rewrite (IH Hsp). by destruct (Ascii.eqb c tab); [|rewrite Hc].
Qed.

Lemma no_space_contains s :
  forallb (λ c, negb (is_space c)) (list_ascii_of_string s) = true →
  contains " " s = false.
Proof.
  intros Hs. apply contains_chars. revert Hs. apply forallb_impl.
  intros c Hc. destruct (Ascii.eqb_spec c " ") as [->|]; done.
Qed.

(** A text is a run without whitespace followed by nothing or by
    whitespace. *)
Lemma span_no_space r :
  ∃ u r', r = u +:+ r' ∧
    forallb (λ c, negb (is_space c)) (list_ascii_of_string u) = true ∧
    (r' = "" ∨ ∃ c r'', r' = String c r'' ∧ is_space c = true).
Proof.
  induction r as [|c r (u & r' & -> & Hu & Hr')]; [exists "", ""; auto|].
  destruct (is_space c) eqn:Hc.
  - exists "", (String c (u +:+ r')). split; [done|]. split; [done|]. eauto.
  - exists (String c u), r'. split; [done|]. split; [|done].
    simpl. by rewrite Hc.
Qed.

Lemma join_cons sep w ws :
  join sep (w :: ws) =
  w +:+ match ws with [] => "" | _ :: _ => String sep (join sep ws) end.
Proof. destruct ws; [by rewrite append_nil_r|done]. Qed.

Lemma join_words_rstrip ws :
  Forall (λ w, word w = true) ws → ws ≠ [] →
  rstrip (join " " ws) = join " " ws ∧ join " " ws ≠ "".
Proof.
  induction 1 as [|w ws Hw Hws IH]; [done|]. intros _.
  destruct (word_cons w Hw) as (c & w' & -> & Hc & Hw').
  rewrite join_cons. destruct ws as [|w2 ws].
  - rewrite append_nil_r. split; [|done].
    by apply rstrip_no_space, word_no_space.
  - destruct (IH ltac:(done)) as [IH1 IH2]. split; [|done].
    rewrite rstrip_app.
    + f_equal. change (String " " (join " " (w2 :: ws)))
        with (String " " "" +:+ join " " (w2 :: ws)).
      by rewrite rstrip_app, IH1 by (by rewrite IH1).
    + change (String " " (join " " (w2 :: ws)))
        with (String " " "" +:+ join " " (w2 :: ws)).
      rewrite rstrip_app by (by rewrite IH1). done.
Qed.

Lemma strip_join_words ws :
  Forall (λ w, word w = true) ws → strip (join " " ws) = join " " ws.
Proof.
  intros Hws. destruct ws as [|w ws]; [done|].
  unfold strip.
  assert (lstrip (join " " (w :: ws)) = join " " (w :: ws)) as ->.
  { apply Forall_cons in Hws as [Hw _].
    destruct (word_cons w Hw) as (c & w' & -> & Hc & _).
    rewrite join_cons, append_cons. simpl. by rewrite Hc. }
  by apply join_words_rstrip.
Qed.

(** The loop's reading of a line that carries an address, whitespace and
    then a run [name] without whitespace or ['#']; the run may be empty
    when a comment follows at once. *)
Lemma hosts_line_entry pad ip sp name rest :
  forallb is_space (list_ascii_of_string pad) = true →
  word ip = true → contains "#" ip = false →
  forallb is_space (list_ascii_of_string sp) = true → sp ≠ "" →
  forallb (λ c, negb (is_space c) && negb (Ascii.eqb c "#"))
    (list_ascii_of_string name) = true →
  (name ≠ "" ∧ rest = "" ∨
   (name ≠ "" ∧ ∃ c r, rest = String c r ∧ is_space c = true) ∨
   ∃ r, rest = String "#" r) →
  let line := pad +:+ ip +:+ sp +:+ name +:+ rest in
  contains " " (hosts_line line) = true ∧
  nth 1 (split " " (hosts_line line)) "" = name.
Proof.
  intros Hpad Hip Hiphash Hsp Hspne Hname Hrest line.
  rewrite forallb_and in Hname. apply andb_prop in Hname as [Hname Hnamehash].
  apply contains_chars in Hnamehash.
  pose proof (word_no_space ip Hip) as Hipchars.
  (* the words of the line *)
  assert (∃ cm ws, words (replace tab " " line) = ip :: (name +:+ cm) :: ws ∧
            (cm = "" ∨ ∃ u, cm = String "#" u)) as (cm & ws & Hwords & Hcm).
  { subst line. rewrite !replace_app.
    rewrite (replace_tab_no_space ip), (replace_tab_no_space name) by done.
    rewrite words_skip by (by apply replace_tab_space).
    assert (∃ c sp', replace tab " " sp = String c sp' ∧ is_space c = true ∧
              forallb is_space (list_ascii_of_string sp') = true)
      as (c & sp' & Hsp' & Hc & Hsp'').
    { pose proof (replace_tab_space sp Hsp) as H.
      destruct sp as [|c sp]; [done|]. simpl in H |- *.
      apply andb_prop in H as [? ?]. eauto. }
    rewrite Hsp'. rewrite words_run; [|done| |eauto].
    2: { by destruct (word_cons ip Hip) as (? & ? & -> & _). }
    rewrite append_cons. cbn [words]. rewrite Hc.
    rewrite words_skip by done.
    destruct Hrest as [[Hne ->]|[(Hne & c' & r & -> & Hc')|(r & ->)]].
    - exists "", []. rewrite !append_nil_r.
      split; [|by left]. f_equal. apply words_word. unfold word.
      rewrite Hname, andb_true_r. by apply negb_true_iff, String.eqb_neq.
    - exists "", (words (replace tab " " (String c' r))).
      rewrite append_nil_r. split; [|by left]. f_equal.
      apply words_run; [done..|]. right. simpl.
      destruct (Ascii.eqb c' tab); eauto.
    - destruct (span_no_space (replace tab " " r)) as (u & r' & Hr & Hu & Hr').
      exists (String "#" u), (words r'). split; [|eauto]. f_equal.
      change (replace tab " " (String "#" r))
        with (String "#" (replace tab " " r)).
      rewrite Hr.
      change (String "#" (u +:+ r')) with (String "#" u +:+ r').
      rewrite <- append_assoc. apply words_run; [|by destruct name|done].
      rewrite chars_app, forallb_app, Hname. simpl. by rewrite Hu. }
  (* the line after joining, stripping and dropping the comment *)
  assert (∃ e, hosts_line line = ip +:+ String " " (name +:+ e) ∧
               (e = "" ∨ ∃ x, e = String " " x)) as (e & Hline & He).
  { unfold hosts_line. rewrite strip_join_words by apply words_Forall.
    rewrite Hwords, join_cons.
    rewrite remove_comments_app by done.
    change (remove_comments_from_bytes
              (String " " (join " " ((name +:+ cm) :: ws))))
      with (String " " (remove_comments_from_bytes
                          (join " " ((name +:+ cm) :: ws)))).
    rewrite join_cons, append_assoc, remove_comments_app by done.
    destruct Hcm as [->|(u & ->)].
    - rewrite append_nil_l. destruct ws as [|w ws]; [exists ""; auto|].
      eexists. split; [done|]. right. eauto.
    - exists "". split; [done|]. by left. }
  rewrite Hline. split.
  - rewrite contains_app. simpl. apply orb_true_r.
  - rewrite split_app_sep by (by apply no_space_contains).
    destruct He as [->|(x & ->)].
    + rewrite append_nil_r, split_no_sep by (by apply no_space_contains). done.
    + rewrite split_app_sep by (by apply no_space_contains). done.
Qed.

Lemma hosts_reader_spec text :
  extract_domain_set_from_hosts_format_bytes text =
  inr (list_to_set
         (map hosts_name
            (List.filter (λ l, contains " " (hosts_line l)) (split LF text)))).
Proof.
  unfold extract_domain_set_from_hosts_format_bytes. cbv zeta.
  by rewrite hosts_loop_spec, (left_id_L ∅ (∪)).
Qed.

Lemma hosts_reader_elem lines d :
  d ∈ (list_to_set
         (map hosts_name
            (List.filter (λ l, contains " " (hosts_line l)) lines))
       : gset string) ↔
  ∃ l, l ∈ lines ∧ contains " " (hosts_line l) = true ∧ d = hosts_name l.
Proof.
  rewrite elem_of_list_to_set, list_elem_of_In, in_map_iff.
  setoid_rewrite filter_In. setoid_rewrite <- list_elem_of_In. naive_solver.
Qed.

Lemma clean_name_chars d :
  clean_name d = true →
  forallb (λ c, negb (is_space c) && negb (Ascii.eqb c "#"))
    (list_ascii_of_string d) = true ∧
  forallb (λ c, negb (is_space c)) (list_ascii_of_string d) = true ∧
  d ≠ "" ∧
  join "." (filter_None (split "." d)) = d.
Proof.
  unfold clean_name. intros [Hchars Hlabels]%andb_prop.
  split; [done|]. split.
  { revert Hchars. apply forallb_impl. by intros c [? _]%andb_prop. }
  split; [by intros ->|].
  by rewrite filter_None_id, join_split.
Qed.

Lemma words_head c s :
  is_space c = false → ∃ w ws, words (String c s) = String c w :: ws.
Proof.
  intros Hc. cbn [words]. rewrite Hc.
  destruct s as [|c' s]; [eauto|].
  destruct (is_space c'); [eauto|].
  destruct (words (String c' s)); eauto.
Qed.

(** A line that is empty or starts with ['#'] gives the loop nothing. *)
Lemma hosts_line_comment l : comment_line l = true → hosts_line l = "".
Proof.
  destruct l as [|c l]; [done|]. simpl. intros ->%Ascii.eqb_eq.
  unfold hosts_line. rewrite strip_join_words by apply words_Forall.
  change (replace tab " " (String "#" l))
    with (String "#" (replace tab " " l)).
  destruct (words_head "#" (replace tab " " l) eq_refl) as (w & ws & ->).
  by rewrite join_cons, append_cons.
Qed.

Lemma split_text_of_lines lines :
  forallb (λ l, negb (contains LF l)) lines = true →
  split LF (text_of_lines lines) = lines ++ [""].
Proof.
  induction lines as [|l lines IH]; [done|]. simpl.
  intros [Hl Hlines]%andb_prop. apply negb_true_iff in Hl.
  by rewrite split_app_sep, IH.
Qed.

Lemma text_of_lines_app l1 l2 :
  text_of_lines (l1 ++ l2) = text_of_lines l1 +:+ text_of_lines l2.
Proof.
  induction l1 as [|l l1 IH]; [done|]. simpl.
  by rewrite IH, append_assoc.
Qed.

Lemma no_space_one_line s :
  forallb (λ c, negb (is_space c)) (list_ascii_of_string s) = true →
  contains LF s = false ∧ contains CR s = false.
Proof.
  intros Hs. split; apply contains_chars; revert Hs; apply forallb_impl.
  - intros c Hc. destruct (Ascii.eqb_spec c LF) as [->|]; done.
  - intros c Hc. destruct (Ascii.eqb_spec c CR) as [->|]; done.
Qed.

(** X13 (lines 88-97): [remove_comments_from_bytes] returns the text before
    the first ['#'], or the whole text when there is none. *)
Theorem remove_comments_from_bytes_cuts_at_first_hash line :
  contains "#" (remove_comments_from_bytes line) = false ∧
  ∃ rest, line = remove_comments_from_bytes line +:+ rest ∧
          (rest = "" ∨ ∃ comment, rest = String "#" comment).
Proof.
  split; [apply remove_comments_no_hash|apply remove_comments_prefix].
Qed.

(** X14 (lines 281-297): the hosts-format reader returns a set for every
    text, the index [1] being in range wherever it is taken.  A name of
    the set has no whitespace, no ['#'] and no empty label, unless it is
    the empty name. *)
Theorem hosts_reader_never_raises text :
  ∃ domains,
    extract_domain_set_from_hosts_format_bytes text = inr domains ∧
    ∀ d, d ∈ domains → d = "" ∨ clean_name d = true.
Proof.
  rewrite hosts_reader_spec. eexists. split; [done|].
  intros d (l & _ & Hsp & ->)%hosts_reader_elem. by apply hosts_name_clean.
Qed.

(** X15 (lines 281-297): the hosts-format reader works line by line.  The
    names of two texts put together with a line feed are the names of
    the one and the names of the other. *)
Theorem hosts_reader_line_local a b :
  ∃ da db,
    extract_domain_set_from_hosts_format_bytes a = inr da ∧
    extract_domain_set_from_hosts_format_bytes b = inr db ∧
    extract_domain_set_from_hosts_format_bytes (a +:+ String LF b)
    = inr (da ∪ db).
Proof.
  rewrite !hosts_reader_spec. do 2 eexists. split; [done|]. split; [done|].
  by rewrite split_app, List.filter_app, map_app, list_to_set_app_L.
Qed.

(** X16 (lines 281-297): a line that holds an address, whitespace and a
    clean name, with nothing, whitespace or a comment after the name,
    makes the reader deliver the name. *)
Theorem hosts_reader_reads_entry text pad ip sp name rest :
  pad +:+ ip +:+ sp +:+ name +:+ rest ∈ split LF text →
  forallb is_space (list_ascii_of_string pad) = true →
  word ip = true → contains "#" ip = false →
  forallb is_space (list_ascii_of_string sp) = true → sp ≠ "" →
  clean_name name = true →
  (rest = "" ∨ ∃ c r, rest = String c r ∧
                      (is_space c = true ∨ c = "#"%char)) →
  ∃ domains,
    extract_domain_set_from_hosts_format_bytes text = inr domains ∧
    name ∈ domains.
Proof.
  intros Hin Hpad Hip Hhash Hsp Hspne Hname Hrest.
  destruct (clean_name_chars name Hname) as (Hchars & _ & Hne & Hjoin).
  destruct (hosts_line_entry pad ip sp name rest) as [Hspace Hnth];
    [done..| |].
  { destruct Hrest as [->|(c & r & -> & [Hc| ->])]; [by left|right..].
    - left. eauto.
    - right. eauto. }
  rewrite hosts_reader_spec. eexists. split; [done|].
  apply hosts_reader_elem. eexists. split; [done|]. split; [done|].
  unfold hosts_name. by rewrite Hnth, Hjoin.
Qed.

(** X17 (lines 281-297): a line that holds only an address and a comment
    makes the reader deliver the empty name. *)
Theorem hosts_reader_address_and_comment text pad ip sp comment :
  pad +:+ ip +:+ sp +:+ String "#" comment ∈ split LF text →
  forallb is_space (list_ascii_of_string pad) = true →
  word ip = true → contains "#" ip = false →
  forallb is_space (list_ascii_of_string sp) = true → sp ≠ "" →
  ∃ domains,
    extract_domain_set_from_hosts_format_bytes text = inr domains ∧
    "" ∈ domains.
Proof.
  intros Hin Hpad Hip Hhash Hsp Hspne.
  destruct (hosts_line_entry pad ip sp "" (String "#" comment))
    as [Hspace Hnth]; [done..|eauto|].
  rewrite append_nil_l in Hspace, Hnth.
  rewrite hosts_reader_spec. eexists. split; [done|].
  apply hosts_reader_elem. eexists. split; [done|]. split; [done|].
  unfold hosts_name. by rewrite Hnth.
Qed.

Lemma written_actions l : written (actions l) = written l.
Proof.
  induction l as [|e l IH]; [done|].
  destruct e; cbn; try done; f_equal; exact IH.
Qed.

Lemma written_Write_map (lines : list string) :
  written (map Write lines) = lines.
Proof. induction lines as [|l lines IH]; [done|]. simpl. by rewrite IH. Qed.

Section RoundTrip.

Context {env : Collaborators}.

(** What a complete run without [--dest-ip] leaves in the output file. *)
Lemma dnsgate_file cfg inp domains_whitelist out :
  outcome (reconcile cfg inp) = Done (domains_whitelist, out) → out ≠ [] →
  dest_ip cfg = None →
  file_contents (written (effects (dnsgate cfg inp))) =
  output_file_header +:+
  file_contents (map (domain_line (mode cfg)) out).
Proof.
  intros Hout Hne Hip.
  destruct (dnsgate_actions cfg inp domains_whitelist out Hout Hne)
    as [_ Hactions].
  rewrite <- written_actions, Hactions, (write_loop_lines cfg out Hip).
  rewrite !written_app. rewrite actions_bind. cbn [effects outcome fst snd].
  rewrite written_app.
  assert (actions (map (λ d, Write (domain_line (mode cfg) d)) out)
          = map Write (map (domain_line (mode cfg)) out)) as ->.
  { rewrite map_map. apply List.forallb_filter_id, forallb_forall.
    by intros e (d & <- & _)%in_map_iff. }
  rewrite written_Write_map.
  assert (written (if backup cfg then [Backup] else []) = []) as ->
    by (by destruct (backup cfg)).
  cbn [written omap list_omap app file_contents foldr].
  f_equal. unfold file_contents. f_equal.
  rewrite <- (app_nil_r (map _ out)) at 2. f_equal.
  by destruct (restart_dnsmasq cfg), (bool_decide (mode cfg ≠ hosts)).
Qed.

(** X18 (lines 281-297, 570-587): the file of a complete run in hosts
    mode, read back by the hosts-format reader, gives the domains of the
    final sequence, when these are clean names and the header is made of
    comment lines. *)
Theorem hosts_output_reads_back cfg inp domains_whitelist out header_lines :
  outcome (reconcile cfg inp) = Done (domains_whitelist, out) → out ≠ [] →
  mode cfg = hosts → dest_ip cfg = None →
  output_file_header = text_of_lines header_lines →
  forallb (λ l, comment_line l && negb (contains LF l)) header_lines = true →
  forallb clean_name out = true →
  extract_domain_set_from_hosts_format_bytes
    (file_contents (written (effects (dnsgate cfg inp))))
  = inr (list_to_set out).
Proof.
  intros Hout Hne Hmode Hip Hheader Hlines Hclean.
  rewrite (dnsgate_file cfg inp domains_whitelist out Hout Hne Hip).
  rewrite Hmode, Hheader.
  assert (file_contents (map (domain_line hosts) out)
          = text_of_lines (map (λ d, "127.0.0.1" +:+ " " +:+ d) out)) as ->.
  { clear. induction out as [|d out IH]; [done|]. simpl. rewrite IH.
    unfold domain_line, newline. by rewrite !append_assoc. }
  rewrite <- text_of_lines_app, hosts_reader_spec. f_equal.
  rewrite forallb_and in Hlines. apply andb_prop in Hlines as [Hcomment Hlf].
  rewrite split_text_of_lines.
  2: { rewrite forallb_app, Hlf. simpl. apply forallb_forall.
       intros l (d & <- & Hd)%in_map_iff.
       rewrite forallb_forall in Hclean.
       destruct (clean_name_chars d (Hclean d Hd)) as (_ & Hchars & _).
       destruct (no_space_one_line d Hchars) as [Hd' _].
       by rewrite !contains_app, Hd'. }
  rewrite !List.filter_app, !map_app.
  assert (List.filter (λ l, contains " " (hosts_line l)) header_lines = [])
    as ->.
  { clear -Hcomment. induction header_lines as [|l ls IH]; [done|].
    simpl in Hcomment |- *. apply andb_prop in Hcomment as [Hl Hls].
    by rewrite (hosts_line_comment l Hl), IH. }
  simpl. rewrite app_nil_r. f_equal.
  clear -Hclean. induction out as [|d out IH]; [done|].
  simpl in Hclean. apply andb_prop in Hclean as [Hd Hout].
  destruct (clean_name_chars d Hd) as (Hchars & _ & Hne & Hjoin).
  destruct (hosts_line_entry "" "127.0.0.1" " " d "") as [Hspace Hnth];
    [done..|by left|].
  rewrite append_nil_l, append_nil_r in Hspace, Hnth.
  cbn [map List.filter]. rewrite Hspace. cbn [map].
  unfold hosts_name at 1. rewrite Hnth, Hjoin. f_equal. by apply IH.
Qed.

End RoundTrip.

(** *** The dnsgate-format reader *)

Lemma dnsgate_loop_spec lines (acc : gset string) :
  for_each lines acc (λ line domains,
    let line := strip line in
    let line := remove_comments_from_bytes line in
    let line := join "." (filter_None (split "." line)) in
    if Nat.ltb 0 (String.length line)
    then ret (domains ∪ {[line]})
    else ret domains) =
  ([], Done (acc ∪ list_to_set
                     (List.filter (λ d, negb (String.eqb d ""))
                        (map dnsgate_entry lines)))).
Proof.
  revert acc. induction lines as [|line lines IH]; intros acc.
  - simpl. by rewrite (right_id_L ∅ (∪)).
  - cbn [for_each map List.filter]. cbv zeta. fold (dnsgate_entry line).
    destruct (dnsgate_entry line) as [|c d] eqn:Hentry.
    + cbn [String.length Nat.ltb Nat.leb String.eqb negb].
      cbn [mbind M_bind bind ret]. by rewrite IH.
    + cbn [String.length Nat.ltb Nat.leb String.eqb negb].
      cbn [mbind M_bind bind ret]. rewrite IH. cbn [list_to_set app].
      do 2 f_equal. set_solver.
Qed.

Lemma dnsgate_reader_elem lines d :
  d ∈ (list_to_set (List.filter (λ d, negb (String.eqb d ""))
                      (map dnsgate_entry lines)) : gset string) ↔
  d ≠ "" ∧ ∃ l, l ∈ lines ∧ d = dnsgate_entry l.
Proof.
  rewrite elem_of_list_to_set, list_elem_of_In, filter_In, in_map_iff.
  rewrite negb_true_iff, String.eqb_neq.
  setoid_rewrite <- list_elem_of_In. naive_solver.
Qed.

Lemma splitlines_line l rest :
  one_line l = true →
  splitlines (l +:+ String LF rest) = l :: splitlines rest.
Proof.
  unfold one_line. induction l as [|c l IH]; [done|].
  rewrite append_cons. cbn [contains splitlines].
  destruct (Ascii.eqb c LF); [done|].
  destruct (Ascii.eqb c CR); [by rewrite andb_false_r|].
  intros H. by rewrite (IH H).
Qed.

Lemma splitlines_text_of_lines lines :
  forallb one_line lines = true → splitlines (text_of_lines lines) = lines.
Proof.
  induction lines as [|l lines IH]; [done|]. simpl.
  intros [Hl Hlines]%andb_prop. by rewrite splitlines_line, IH.
Qed.

Lemma rstrip_head c s : is_space c = false → ∃ kept, rstrip (String c s) = String c kept.
Proof.
  intros Hc. simpl. destruct (rstrip s); [rewrite Hc|]; eauto.
Qed.

Lemma dnsgate_entry_clean d : clean_name d = true → dnsgate_entry d = d.
Proof.
  intros Hd. destruct (clean_name_chars d Hd) as (Hchars & Hnosp & Hne & Hjoin).
  unfold dnsgate_entry. rewrite strip_word.
  - rewrite remove_comments_id; [done|]. apply contains_chars.
    revert Hchars. apply forallb_impl. by intros c [_ ?]%andb_prop.
  - unfold word. rewrite Hnosp, andb_true_r.
    by apply negb_true_iff, String.eqb_neq.
Qed.

Lemma dnsgate_entry_comment l : comment_line l = true → dnsgate_entry l = "".
Proof.
  destruct l as [|c l]; [done|]. simpl. intros ->%Ascii.eqb_eq.
  unfold dnsgate_entry, strip. cbn [lstrip]. cbn [is_space].
  change (is_space "#") with false. cbv iota.
  by destruct (rstrip_head "#" l eq_refl) as (kept & ->).
Qed.

(** The labels of a text that goes on without a separator. *)
Lemma split_app_no_sep sep s t :
  contains sep t = false →
  ∃ ws w, split sep s = ws ++ [w] ∧ split sep (s +:+ t) = ws ++ [w +:+ t].
Proof.
  intros Ht. induction s as [|c s (ws & w & Hs & Hst)].
  - exists [], "". by rewrite append_nil_l, (split_no_sep sep t Ht).
  - rewrite append_cons. cbn [split]. rewrite Hs, Hst.
    destruct (Ascii.eqb c sep); [by exists ("" :: ws), w|].
    destruct ws as [|x ws]; [by exists [], (String c w)|].
    by exists (String c x :: ws), w.
Qed.

Lemma dnsgate_entry_space_before_comment name sp comment :
  clean_name name = true →
  forallb is_space (list_ascii_of_string sp) = true →
  dnsgate_entry (name +:+ sp +:+ String "#" comment) = name +:+ sp.
Proof.
  intros Hname Hsp.
  destruct (clean_name_chars name Hname) as (Hchars & Hnosp & Hne & Hjoin).
  assert (contains "#" name = false) as Hhash.
  { apply contains_chars. revert Hchars. apply forallb_impl.
    by intros c [_ ?]%andb_prop. }
  assert (contains "#" sp = false ∧ contains "." sp = false) as [Hsphash Hspdot].
  { split; apply contains_chars; revert Hsp; apply forallb_impl; intros c Hc.
    - destruct (Ascii.eqb_spec c "#") as [->|]; done.
    - destruct (Ascii.eqb_spec c ".") as [->|]; done. }
  unfold dnsgate_entry.
  assert (∃ kept, strip (name +:+ sp +:+ String "#" comment)
                  = name +:+ sp +:+ String "#" kept) as (kept & ->).
  { unfold strip. destruct name as [|c name]; [done|].
    simpl in Hnosp. apply andb_prop in Hnosp as [Hc _].
    apply negb_true_iff in Hc. rewrite append_cons. cbn [lstrip]. rewrite Hc.
    destruct (rstrip_head "#" comment eq_refl) as (kept & Hkept).
    exists kept. rewrite <- append_cons, <- append_assoc.
    rewrite rstrip_app by (by rewrite Hkept).
    by rewrite Hkept, append_assoc. }
  rewrite <- append_assoc, remove_comments_app
    by (by rewrite contains_app, Hhash, Hsphash).
  cbn [remove_comments_from_bytes]. change (Ascii.eqb "#" "#") with true.
  cbn [negb]. rewrite append_nil_r.
  destruct (split_app_no_sep "." name sp Hspdot) as (ws & w & Hs & Hst).
  rewrite filter_None_id, join_split; [done|].
  unfold clean_name in Hname. apply andb_prop in Hname as [_ Hlabels].
  rewrite Hst. rewrite Hs in Hlabels. rewrite forallb_app in Hlabels |- *.
  apply andb_prop in Hlabels as [-> Hw]. simpl in Hw |- *.
  destruct w; [done|]. done.
Qed.

(** X19 (lines 192-208): the dnsgate-format reader does not fail.  When
    the file cannot be read it logs the exception and returns the empty
    set; else it logs nothing, and an entry of the set is not empty and
    has no ['#'] and no empty label. *)
Theorem dnsgate_format_reader_never_fails read_file_bytes :
  match read_file_bytes with
  | inl e =>
      extract_domain_set_from_dnsgate_format_file read_file_bytes
      = ([Logger_debug_exception e], Done ∅)
  | inr _ =>
      ∃ domains,
        extract_domain_set_from_dnsgate_format_file read_file_bytes
        = ([], Done domains) ∧
        ∀ d, d ∈ domains →
          d ≠ "" ∧ contains "#" d = false ∧
          forallb (λ label, negb (String.eqb label "")) (split "." d) = true
  end.
Proof.
  destruct read_file_bytes as [e|text]; [done|].
  unfold extract_domain_set_from_dnsgate_format_file. cbv zeta.
  rewrite dnsgate_loop_spec, (left_id_L ∅ (∪)). eexists. split; [done|].
  intros d (Hne & l & _ & ->)%dnsgate_reader_elem. split; [done|].
  unfold dnsgate_entry in *.
  destruct (drop_empty_labels_clean (λ c, negb (Ascii.eqb c "#"))
              (remove_comments_from_bytes (strip l)) eq_refl) as [?|[H1 H2]].
  - apply contains_chars, remove_comments_no_hash.
  - done.
  - split; [by apply contains_chars|done].
Qed.

(** X20 (lines 192-208): from a file of lines that are clean names,
    comments or empty, the dnsgate-format reader returns the names. *)
Theorem dnsgate_format_reader_reads_names lines :
  forallb (λ l, clean_name l || comment_line l && one_line l) lines = true →
  extract_domain_set_from_dnsgate_format_file (inr (text_of_lines lines))
  = ([], Done (list_to_set (List.filter clean_name lines))).
Proof.
  intros Hlines.
  unfold extract_domain_set_from_dnsgate_format_file. cbv zeta.
  rewrite dnsgate_loop_spec, (left_id_L ∅ (∪)).
  rewrite splitlines_text_of_lines.
  2: { revert Hlines. apply forallb_impl. intros l Hl. unfold one_line.
       apply orb_prop in Hl as [Hl|Hl].
       - destruct (clean_name_chars l Hl) as (_ & Hchars & _).
         destruct (no_space_one_line l Hchars) as [-> ->]. done.
       - by apply andb_prop in Hl as [_ ?]. }
  do 3 f_equal. induction lines as [|l lines IH]; [done|].
  simpl in Hlines. apply andb_prop in Hlines as [Hl Hlines].
  cbn [map List.filter]. rewrite (IH Hlines).
  destruct (clean_name l) eqn:Hclean.
  - rewrite (dnsgate_entry_clean l Hclean).
    destruct (clean_name_chars l Hclean) as (_ & _ & Hne%String.eqb_neq & _).
    by rewrite Hne.
  - simpl in Hl. apply andb_prop in Hl as [Hl _].
    by rewrite (dnsgate_entry_comment l Hl).
Qed.

(** X21 (lines 192-208): the dnsgate-format reader keeps the whitespace
    between a name and a comment that follows on the same line.  The
    entry it delivers for such a line is the name with that whitespace
    attached. *)
Theorem dnsgate_format_reader_keeps_space_before_comment
    lines name sp comment :
  forallb one_line lines = true →
  name +:+ sp +:+ String "#" comment ∈ lines →
  clean_name name = true →
  forallb is_space (list_ascii_of_string sp) = true → sp ≠ "" →
  ∃ domains,
    extract_domain_set_from_dnsgate_format_file (inr (text_of_lines lines))
    = ([], Done domains) ∧
    (name +:+ sp ∈ domains) ∧ name +:+ sp ≠ name.
Proof.
  intros Hlines Hin Hname Hsp Hne.
  unfold extract_domain_set_from_dnsgate_format_file. cbv zeta.
  rewrite dnsgate_loop_spec, (left_id_L ∅ (∪)).
  rewrite splitlines_text_of_lines by done.
  eexists. split; [done|].
  assert (name +:+ sp ≠ name) as Hdiff.
  { intros Heq. apply (f_equal String.length) in Heq.
    rewrite length_append in Heq. destruct sp; [done|]. simpl in Heq.
    lia. }
  split; [|done]. apply dnsgate_reader_elem. split.
  - destruct (clean_name_chars name Hname) as (_ & _ & Hnm & _).
    by destruct name.
  - eexists. split; [done|].
    by rewrite dnsgate_entry_space_before_comment.
Qed.

(** ** The readers at work on sample data *)

Lemma hosts_reader_reads_entry_witness :
  ∃ domains,
    extract_domain_set_from_hosts_format_bytes Sample.hosts_text
    = inr domains ∧
    "ads.example.com" ∈ domains.
Proof.
  apply (hosts_reader_reads_entry Sample.hosts_text
           "" "0.0.0.0" (String tab "") "ads.example.com" " # tracker").
  - apply (bool_decide_unpack _). by vm_compute.
  - reflexivity.
  - reflexivity.
  - reflexivity.
  - reflexivity.
  - done.
  - reflexivity.
  - right. exists " "%char, "# tracker". split; [reflexivity|by left].
Defined.

Lemma hosts_reader_address_and_comment_witness :
  ∃ domains,
    extract_domain_set_from_hosts_format_bytes Sample.hosts_text
    = inr domains ∧
    "" ∈ domains.
Proof.
  apply (hosts_reader_address_and_comment Sample.hosts_text
           "" "0.0.0.0" " " "nothing").
  - apply (bool_decide_unpack _). by vm_compute.
  - reflexivity.
  - reflexivity.
  - reflexivity.
  - reflexivity.
  - done.
Defined.

Lemma hosts_output_reads_back_witness :
  extract_domain_set_from_hosts_format_bytes
    (file_contents
       (written (effects (dnsgate (env := Double.env)
                            (Double.cfg hosts false) Sample.inp))))
  = inr (list_to_set Sample.out_unstripped).
Proof.
  apply (hosts_output_reads_back (env := Double.env) (Double.cfg hosts false)
           Sample.inp Sample.whitelist Sample.out_unstripped
           ["# generated"]).
  - by vm_compute.
  - done.
  - reflexivity.
  - reflexivity.
  - reflexivity.
  - reflexivity.
  - reflexivity.
Defined.

Lemma dnsgate_format_reader_reads_names_witness :
  extract_domain_set_from_dnsgate_format_file
    (inr (text_of_lines Sample.list_lines))
  = ([], Done (list_to_set (List.filter clean_name Sample.list_lines))).
Proof.
  apply (dnsgate_format_reader_reads_names Sample.list_lines). reflexivity.
Defined.

Lemma dnsgate_format_reader_keeps_space_before_comment_witness :
  ∃ domains,
    extract_domain_set_from_dnsgate_format_file
      (inr (text_of_lines ["example.com  # mine"]))
    = ([], Done domains) ∧
    ("example.com" +:+ "  " ∈ domains) ∧
    "example.com" +:+ "  " ≠ "example.com".
Proof.
  apply (dnsgate_format_reader_keeps_space_before_comment
           ["example.com  # mine"] "example.com" "  " " mine").
  - reflexivity.
  - apply (bool_decide_unpack _). by vm_compute.
  - reflexivity.
  - reflexivity.
  - done.
Defined.

(** * The warning about whitelisted domains *)

Section Warning.

Context {env : Collaborators}.

Lemma NoDup_omap_warning (out : list string) l :
  NoDup l →
  NoDup (omap (λ d, if bool_decide (extract_psl_domain d ∈ out)
                    then Some (Listed_in_both d) else None) l).
Proof.
  induction 1 as [|d l Hd Hl IH]; [constructor|]. cbn [omap list_omap].
  case_bool_decide; [|done]. constructor; [|done].
  intros (d' & Hd' & Heq)%list_elem_of_omap.
  case_bool_decide; [|done]. by injection Heq as ->.
Qed.

(** X22 (lines 564-568): with debug logging off, a complete run warns
    once for every whitelisted domain whose root is in the final sequence,
    and gives no other warning. *)
Theorem overlap_warning_condition cfg inp domains_whitelist out :
  click_debug = false → fair_iteration →
  outcome (reconcile cfg inp) = Done (domains_whitelist, out) → out ≠ [] →
  NoDup (warnings (effects (dnsgate cfg inp))) ∧
  ∀ m, m ∈ warnings (effects (dnsgate cfg inp)) ↔
       ∃ d, d ∈ domains_whitelist ∧ extract_psl_domain d ∈ out ∧
            m = Listed_in_both d.
Proof.
  intros Hdebug Hfair Hout Hne.
  rewrite (dnsgate_warnings cfg inp domains_whitelist out Hdebug Hout Hne).
  pose proof (Hfair warning_loop domains_whitelist) as Henum. split.
  - apply NoDup_omap_warning. by apply (enumerates_NoDup _ domains_whitelist).
  - intros m. rewrite list_elem_of_omap. split.
    + intros (d & Hd & Hm). case_bool_decide; [|done].
      injection Hm as <-. exists d. split; [|done].
      by apply (enumerates_elem_of _ _ _ Henum).
    + intros (d & Hd & Hroot & ->). exists d. split.
      * by apply (enumerates_elem_of _ _ _ Henum).
      * by rewrite bool_decide_eq_true_2.
Qed.

End Warning.

Lemma overlap_warning_condition_witness :
  NoDup (warnings (effects (dnsgate (env := Double.env)
                              (Double.cfg dnsmasq true) Sample.inp))) ∧
  ∀ m, m ∈ warnings (effects (dnsgate (env := Double.env)
                                (Double.cfg dnsmasq true) Sample.inp)) ↔
       ∃ d, d ∈ Sample.whitelist ∧
            extract_psl_domain (env := Double.env) d ∈ Sample.out ∧
            m = Listed_in_both d.
Proof.
  apply (overlap_warning_condition (env := Double.env)
           (Double.cfg dnsmasq true) Sample.inp Sample.whitelist Sample.out).
  - reflexivity.
  - apply sample_fair.
  - apply sample_run.
  - done.
Defined.
(** * The collecting phase *)

Section Collecting.

Context {env : Collaborators}.

Lemma elem_of_effects_skip {A B} e (m : M A) (k : A → M B) a :
  Forall (λ x, x ≠ e) (effects m) → outcome m = Done a →
  e ∈ effects (m ≫= k) ↔ e ∈ effects (k a).
Proof.
  intros Hm Hout. rewrite effects_bind, Hout, elem_of_app.
  rewrite Forall_forall in Hm. naive_solver.
Qed.

(** The loop over [--source] ends with the union of what the sources
    delivered. *)
Lemma collect_sources_outcome inp :
  outcome
    (for_each (source inp) (∅ : gset string)
       (λ '(item, fetched) domains_combined_orig,
         if String.prefix "http" item then
           try_except
             (eprint (Trying item) DEBUG;;
              domains ← of_sum fetched;
              if bool_decide (domains ≠ ∅) then
                let domains_combined_orig := domains_combined_orig ∪ domains in
                eprint (Combined_len (size domains_combined_orig)) DEBUG;;
                ret domains_combined_orig
              else
                emit (Logger_debug_error (Failed_to_get item));;
                ret domains_combined_orig)
             (λ e,
               emit (Logger_debug_error (Exception_on_url item));;
               emit (Logger_debug_exception e);;
               ret domains_combined_orig)
         else
           emit (Logger_debug_error (Must_start_with_http item));;
           ret domains_combined_orig))
  = Done (remote_domains inp).
Proof.
  cut (returns
    (for_each (source inp) (∅ : gset string)
       (λ '(item, fetched) domains_combined_orig,
         if String.prefix "http" item then
           try_except
             (eprint (Trying item) DEBUG;;
              domains ← of_sum fetched;
              if bool_decide (domains ≠ ∅) then
                let domains_combined_orig := domains_combined_orig ∪ domains in
                eprint (Combined_len (size domains_combined_orig)) DEBUG;;
                ret domains_combined_orig
              else
                emit (Logger_debug_error (Failed_to_get item));;
                ret domains_combined_orig)
             (λ e,
               emit (Logger_debug_error (Exception_on_url item));;
               emit (Logger_debug_exception e);;
               ret domains_combined_orig)
         else
           emit (Logger_debug_error (Must_start_with_http item));;
           ret domains_combined_orig))
    (λ orig, orig = remote_domains inp)).
  { by intros (orig & -> & ->). }
  unfold remote_domains, returns.
  apply (for_each_invariant
           (λ pre (acc : gset string), acc = ⋃ (fetched_domains <$> pre))).
  - done.
  - intros pre [item fetched] post acc _ ->.
    rewrite fmap_app, union_list_app_L. simpl.
    rewrite (right_id_L ∅ (∪)).
    destruct (String.prefix "http" item).
    + rewrite outcome_try_except, outcome_eprint_then, outcome_bind.
      destruct fetched as [e|domains]; simpl.
      * eexists. split; [done|]. by rewrite (right_id_L ∅ (∪)).
      * case_bool_decide as Hne.
        -- rewrite outcome_eprint_then. by eexists.
        -- eexists. split; [done|]. by rewrite Hne, (right_id_L ∅ (∪)).
    + eexists. split; [done|].
      destruct fetched; by rewrite (right_id_L ∅ (∪)).
Qed.

(** X23 (lines 439-478): the collecting phase completes whatever the
    sources do.  A source whose address does not start with [http], whose
    download fails or that delivers nothing contributes nothing; the
    whitelist and the original blacklist are the entries that the codec
    accepts.  The error about zero remote domains is logged exactly when
    no source delivered a domain. *)
Theorem collect_survives_failing_sources inp :
  fair_iteration →
  returns (collect inp) (λ '(domains_whitelist, orig),
    (∀ x, x ∈ domains_whitelist ↔
       ∃ h, h ∈ whitelist_file inp ∧ idna h = inr x) ∧
    (∀ x, x ∈ orig ↔ ∃ r, r ∈ remote_domains inp ∧ idna r = inr x)) ∧
  (Logger_debug_error Zero_remote_domains ∈ effects (collect inp) ↔
   remote_domains inp = ∅).
Proof.
  intros Hfair. split.
  { destruct (collect_spec inp) as ([wl orig] & Hout & _).
    exists (wl, orig). split; [done|]. by apply collect_orig. }
  unfold collect. cbv zeta.
  rewrite (elem_of_effects_skip _ _ _ ());
    [|effects_Forall|apply outcome_eprint].
  assert (∃ wl : gset string,
    outcome
      (if bool_decide ((∅ : gset string) ∪ whitelist_file inp ≠ ∅) then
         eprint (Whitelist_domains (size ((∅ : gset string) ∪ whitelist_file inp))) DEBUG;;
         domains_whitelist ←
           validate_domain_list
             (iter validate_whitelist_loop (∅ ∪ whitelist_file inp));
         eprint (Validated_whitelist (size domains_whitelist)) INFO;;
         ret domains_whitelist
       else ret (∅ ∪ whitelist_file inp)) = Done wl) as [wl Hwl].
  { case_bool_decide; [|by eexists].
    rewrite outcome_eprint_then.
    destruct (validate_domain_list_spec
                (iter validate_whitelist_loop (∅ ∪ whitelist_file inp)))
      as (v & Hv & _).
    exists v. by rewrite outcome_bind, Hv, outcome_eprint_then. }
  rewrite (elem_of_effects_skip _ _ _ wl); [|..|exact Hwl].
  2: { unfold validate_domain_list. effects_Forall. }
  rewrite (elem_of_effects_skip _ _ _ ());
    [|effects_Forall|apply outcome_eprint].
  rewrite (elem_of_effects_skip _ _ _ (remote_domains inp));
    [|effects_Forall|apply collect_sources_outcome].
  rewrite (elem_of_effects_skip _ _ _ ());
    [|effects_Forall|apply outcome_eprint].
  rewrite effects_bind, elem_of_app. clear Hwl.
  case_bool_decide as Hsize.
  - split; [intros _; by apply size_empty_inv, leibniz_equiv in Hsize|].
    intros _. left. cbn. left.
  - split; [|intros Hempty; by rewrite Hempty, size_empty in Hsize].
    intros [Hin|Hin]; [by inversion Hin|]. exfalso.
    cbn [outcome ret snd] in Hin.
    assert (Forall (λ x, x ≠ Logger_debug_error Zero_remote_domains)
              (effects (validate_domain_list
                          (iter validate_remote_loop (remote_domains inp))
                        ≫= λ orig : gset string,
                             eprint (Validated_remote (size orig)) INFO;;
                             ret (wl, orig)))) as Hall.
    { unfold validate_domain_list. effects_Forall. }
    rewrite Forall_forall in Hall. by apply (Hall _ Hin).
Qed.

End Collecting.

Lemma collect_survives_failing_sources_witness :
  returns (collect (env := Double.env) Sample.inp)
    (λ '(domains_whitelist, orig),
      (∀ x, x ∈ domains_whitelist ↔
         ∃ h, h ∈ whitelist_file Sample.inp ∧ Double.idna_ascii h = inr x) ∧
      (∀ x, x ∈ orig ↔
         ∃ r, r ∈ remote_domains Sample.inp ∧ Double.idna_ascii r = inr x)) ∧
  (Logger_debug_error Zero_remote_domains
     ∈ effects (collect (env := Double.env) Sample.inp) ↔
   remote_domains Sample.inp = ∅).
Proof.
  apply (collect_survives_failing_sources (env := Double.env) Sample.inp).
  apply sample_fair.
Defined.


(** * The codec with the compatibility mapping *)

Lemma is_ascii_chars s :
  Double.is_ascii s =
  forallb (λ c, N.ltb (N_of_ascii c) 128) (list_ascii_of_string s).
Proof. done. Qed.

Lemma to_ascii_is_ascii label encoded :
  Nameprep.to_ascii label = Some encoded → Double.is_ascii encoded = true.
Proof.
  unfold Nameprep.to_ascii.
  destruct (Double.is_ascii label) eqn:Hlabel.
  - destruct (Double.label_ok label); [|done]. by intros [= <-].
  - destruct (Double.is_ascii (Nameprep.normalize (Nameprep.casefold label)))
      eqn:Hprepared; [|done].
    destruct (Double.label_ok _); [|done]. by intros [= <-].
Qed.

Lemma to_ascii_all_is_ascii labels encoded :
  Nameprep.to_ascii_all labels = Some encoded →
  Forall (λ w, Double.is_ascii w = true) encoded.
Proof.
  revert encoded. induction labels as [|label labels IH]; intros encoded.
  - intros [= <-]. constructor.
  - cbn [Nameprep.to_ascii_all].
    destruct (Nameprep.to_ascii label) as [e|] eqn:Hlabel; [|done].
    destruct (Nameprep.to_ascii_all labels) as [rest|]; [|done].
    intros [= <-]. constructor; [by apply (to_ascii_is_ascii label)|].
    by apply IH.
Qed.

(** The outputs of the codec are ASCII names. *)
Lemma idna_nameprep_is_ascii h h' :
  Nameprep.idna_nameprep h = inr h' → Double.is_ascii h' = true.
Proof.
  unfold Nameprep.idna_nameprep.
  destruct (Double.is_ascii h) eqn:Hascii.
  - intros Hh. by rewrite (idna_ascii_fixed h h' Hh).
  - cbv zeta.
    destruct (Nameprep.to_ascii_all _) as [encoded|] eqn:Hall; [|done].
    intros [= <-]. apply to_ascii_all_is_ascii in Hall.
    rewrite is_ascii_chars, chars_app, forallb_app.
    apply andb_true_intro. split.
    + by apply join_chars.
    + by destruct (String.eqb _ _).
Qed.

Lemma idna_nameprep_output_fixed : idna_output_fixed (env := Nameprep.env).
Proof.
  intros h h' x Hh. cbn [idna Nameprep.env] in *.
  apply idna_nameprep_is_ascii in Hh.
  unfold Nameprep.idna_nameprep at 1. rewrite Hh. apply idna_ascii_fixed.
Qed.

Lemma validate_domain_list_settles_witness :
  returns (validate_domain_list (env := Nameprep.env)
             ["a" +:+ Nameprep.ellipsis +:+ "b"; "example.com"])
    (λ valid,
      ∀ order, enumerates order valid →
        returns (validate_domain_list (env := Nameprep.env) order)
          (λ valid2,
            valid2 ⊆ valid ∧
            (∀ x, x ∈ valid2 ↔
               x ∈ valid ∧ Nameprep.idna_nameprep x = inr x) ∧
            ∀ order2, enumerates order2 valid2 →
              outcome (validate_domain_list (env := Nameprep.env) order2)
              = Done valid2)).
Proof.
  apply (validate_domain_list_settles (env := Nameprep.env)).
  apply idna_nameprep_output_fixed.
Defined.

(** On these entries a second pass does change the set. *)
Example validate_domain_list_not_idempotent :
  outcome (validate_domain_list (env := Nameprep.env)
             ["a" +:+ Nameprep.ellipsis +:+ "b"; "example.com"])
    = Done {["a...b"; "example.com"]} ∧
  outcome (validate_domain_list (env := Nameprep.env)
             ["a...b"; "example.com"])
    = Done {["example.com"]}.
Proof. split; by vm_compute. Qed.
